(** * superphot: classification and validation engine

    A shallow embedding of [superphot/classify.py]: the multivariate-Gaussian
    resampler, the train / classify / cross-validation drivers, the
    aggregation of per-draw probabilities, the confusion matrix and the
    result files; and of two parts of [superphot/extract.py]: the selection
    of the events with finite model light curves and the extinction ratios
    of the filters.

    Conventions of the embedding:
    - class labels, column names and file names are [string]s;
    - probabilities are exact rationals ([Q]); the results below are about
      shapes, counts, grouping and control flow, not about rounding;
    - Python exceptions are values of [exception]; a function that can raise
      returns a [result];
    - objects that the code mutates (the sampler, the pipeline, the tables
      held by the caller) are threaded explicitly.

    The first part of the file is the embedding, the second part the facts
    proved about it. *)

From Stdlib Require Import ZArith QArith Qround Qcanon String Ascii Lia Lqa.
From Stdlib Require Import Structures.OrdersEx.
From stdpp Require Import base tactics option list gmap strings sorting.

Close Scope Q_scope.
Close Scope Qc_scope.
Open Scope string_scope.
Open Scope list_scope.
Open Scope nat_scope.

(** ** Exceptions *)

Inductive exception :=
  | Exception (msg : string)
  | AttributeError (attr : string)
  | KeyError (key : string)
  | IndexError
  | ValueError (msg : string)
  | TypeError (msg : string).

Inductive result (A : Type) :=
  | Ok (a : A)
  | Raise (e : exception).
Arguments Ok {A} a.
Arguments Raise {A} e.

Definition is_ok {A} (r : result A) : Prop :=
  match r with Ok _ => True | Raise _ => False end.

#[global] Instance result_ret : MRet result := λ A a, Ok a.
#[global] Instance result_bind : MBind result := λ A B k r,
  match r with Ok a => k a | Raise e => Raise e end.

(** ** Ordered data

    numpy sorts strings and numbers with the order of their dtype: a
    three-way comparison [cmp], which [OrdLaws] requires to decide equality
    and to be a strict total order. *)

Class Cmp (A : Type) := cmp : A → A → comparison.

Class OrdLaws (A : Type) `{Cmp A} : Prop := {
  cmp_eq : ∀ x y : A, cmp x y = Eq ↔ x = y;
  cmp_antisym : ∀ x y : A, cmp y x = CompOpp (cmp x y);
  cmp_lt_trans : ∀ x y z : A, cmp x y = Lt → cmp y z = Lt → cmp x z = Lt
}.

Definition ord_le `{Cmp A} (x y : A) : Prop := cmp x y ≠ Gt.
Definition ord_lt `{Cmp A} (x y : A) : Prop := cmp x y = Lt.

(** Strings, in the order of their characters. *)
#[global] Instance string_cmp : Cmp string := String_as_OT.compare.

(** ** Stable sorting and runs of equal keys

    [numpy.unique], [imblearn]'s sorted class dictionary and
    [astropy.table.Table.group_by] all sort their input with a stable sort and
    then cut the sorted sequence where two neighbours differ.  [sort_by] is
    the stable sort (an insertion sort: the stable sorted permutation of a
    list is unique, so it returns what the libraries' merge sort returns) and
    [runs] cuts it. *)

Section SortBy.
Context {A K : Type} `{Cmp K} (key : A → K).

Fixpoint insert_by (x : A) (l : list A) : list A :=
  match l with
  | [] => [x]
  | h :: t =>
      match cmp (key x) (key h) with
      | Gt => h :: insert_by x t
      | _ => x :: h :: t
      end
  end.

Definition sort_by (l : list A) : list A := foldr insert_by [] l.

(** Each run is its first element and the elements that follow it with the
    same key. *)
Fixpoint runs (l : list A) : list (A * list A) :=
  match l with
  | [] => []
  | x :: t =>
      match runs t with
      | (y, g) :: gs =>
          match cmp (key x) (key y) with
          | Eq => (x, y :: g) :: gs
          | _ => (x, []) :: (y, g) :: gs
          end
      | [] => [(x, [])]
      end
  end.

Definition key_le (a b : A) : Prop := ord_le (key a) (key b).
Definition key_lt (a b : A) : Prop := ord_lt (key a) (key b).
End SortBy.

(** [numpy.unique]: the sorted distinct elements, here with their counts. *)
Definition unique_counts `{Cmp K} (l : list K) : list (K * nat) :=
  (λ r, (r.1, S (length r.2))) <$> runs id (sort_by id l).

Definition np_unique `{Cmp K} (l : list K) : list K :=
  fst <$> unique_counts l.

(** Number of entries of [y] equal to [c]. *)
Definition count `{EqDecision K} (c : K) (y : list K) : nat :=
  length (filter (λ l, l = c) y).

(** ** The resampler: [MultivariateGaussian] *)

(** The [sampling_strategy] argument of the constructor: the default ['all']
    or an integer number of samples per class (the two forms this repository
    uses). *)
Inductive strategy :=
  | StrategyAll
  | StrategyInt (k : Z).

(** [imblearn]'s [BaseSampler.fit] stores in [sampling_strategy_] what
    [check_sampling_strategy] derives from ['all'] for an over-sampler: for
    every class of [y], in sorted order, the number of samples that separates
    it from the largest class.  (The library first validates [X] and [y]:
    arrays of the same length, with two classes or more; the embedding
    starts from arrays it accepts.) *)
Definition sampling_strategy_all (y : list string) : list (string * Z) :=
  let target_stats := unique_counts y in
  let n_sample_majority :=
    foldr Z.max 0%Z ((λ s, Z.of_nat s.2) <$> target_stats) in
  (λ s, (s.1, (n_sample_majority - Z.of_nat s.2)%Z)) <$> target_stats.

Section Resampler.
(** The floating-point side is numpy's: feature rows, their mean and
    covariance, the random generator and its Gaussian draws are taken as
    given.  A draw of [n] vectors gives its rows, or the message of the
    [ValueError] that numpy raises when it cannot draw from the covariance
    it is given ([LinAlgError], raised when the decomposition of the
    covariance fails, is a [ValueError]); in both cases the generator is
    left in its next state.  [np.cov] of a single row is such a covariance:
    a number where a matrix is expected or a matrix of not-a-number entries,
    depending on the version of numpy. *)
Context {Features Mean Cov RandomState Seed : Type}.
Variable np_mean : list Features → Mean.
Variable np_cov : list Features → Cov.
Variable check_random_state : Seed → RandomState.
Variable multivariate_normal :
  RandomState → Mean → Cov → nat → (list Features + string) * RandomState.

(** [rs.multivariate_normal(mean, cov, n_samples)], a call that can raise. *)
Definition draw (rs : RandomState) (mean : Mean) (cov : Cov) (n_samples : nat) :
    result (list Features) * RandomState :=
  let drawn := multivariate_normal rs mean cov n_samples in
  (match drawn.1 with
   | inl rows => Ok rows
   | inr msg => Raise (ValueError msg)
   end,
   drawn.2).

(** The attributes of a sampler object.  [sampling_strategy_] and [rs_]
    do not exist until they are first assigned.  [samples_per_class] is the
    integer given as [sampling_strategy], if one was given. *)
Record MultivariateGaussian := {
  random_state : Seed;
  samples_per_class : option Z;
  mean_ : gmap string Mean;
  cov_ : gmap string Cov;
  sampling_strategy_ : option (list (string * Z));
  rs_ : option RandomState
}.

(** [__init__]: with an integer the sampler remembers it and hands the
    strategy ['all'] to the library. *)
Definition MultivariateGaussian_init (sampling_strategy : strategy)
    (random_state : Seed) : MultivariateGaussian :=
  {| random_state := random_state;
     mean_ := ∅;
     cov_ := ∅;
     samples_per_class :=
       match sampling_strategy with
       | StrategyInt k => Some k
       | StrategyAll => None
       end;
     sampling_strategy_ := None;
     rs_ := None |}.

(** [self.fit(X, y)] *)
Definition fit (self : MultivariateGaussian) (y : list string) :
    MultivariateGaussian :=
  {| random_state := random_state self;
     samples_per_class := samples_per_class self;
     mean_ := mean_ self;
     cov_ := cov_ self;
     sampling_strategy_ := Some (sampling_strategy_all y);
     rs_ := rs_ self |}.

(** [X[y == class_sample]] *)
Definition class_rows (X : list Features) (y : list string) (c : string) :
    list Features :=
  fst <$> filter (λ p, p.2 = c) (zip X y).

(** The number of rows to draw for a class: [samples_per_class] less the
    rows the class has, or the library's figure when no integer was given. *)
Definition n_samples_for (self : MultivariateGaussian)
    (X_class : list Features) (n_samples : Z) : Z :=
  match samples_per_class self with
  | Some k => (k - Z.of_nat (length X_class))%Z
  | None => n_samples
  end.

(** Every class of [y] already has the number of rows asked of it: the loop
    of [_fit_resample] has nothing to draw. *)
Definition at_or_above_target (self : MultivariateGaussian)
    (X : list Features) (y : list string) : Prop :=
  ∀ c n0, (c, n0) ∈ sampling_strategy_all y →
          (n_samples_for self (class_rows X y c) n0 ≤ 0)%Z.

(** Every class of [y] that the loop of [_fit_resample] has to draw rows for
    has two rows or more, so that [np.cov] gives a covariance matrix. *)
Definition two_rows_where_drawn (self : MultivariateGaussian)
    (X : list Features) (y : list string) : Prop :=
  ∀ c n0, (c, n0) ∈ sampling_strategy_all y →
          (0 < n_samples_for self (class_rows X y c) n0)%Z →
          2 ≤ length (class_rows X y c).

(** [self.mean_[class_sample] = mean; self.cov_[class_sample] = cov] *)
Definition set_distribution (self : MultivariateGaussian)
    (class_sample : string) (mean : Mean) (cov : Cov) : MultivariateGaussian :=
  {| random_state := random_state self;
     samples_per_class := samples_per_class self;
     mean_ := <[class_sample := mean]> (mean_ self);
     cov_ := <[class_sample := cov]> (cov_ self);
     sampling_strategy_ := sampling_strategy_ self;
     rs_ := rs_ self |}.

(** [self.rs_ = rs] *)
Definition set_rs (self : MultivariateGaussian) (rs : RandomState) :
    MultivariateGaussian :=
  {| random_state := random_state self;
     samples_per_class := samples_per_class self;
     mean_ := mean_ self;
     cov_ := cov_ self;
     sampling_strategy_ := sampling_strategy_ self;
     rs_ := Some rs |}.

(** One iteration of the loop of [_fit_resample], on the sampler and the
    two arrays being built.  The distribution of the class is stored first;
    if rows are needed the generator is assigned and the draw made, and an
    exception of the draw leaves the loop with the sampler as it is then. *)
Definition fit_resample_step (X : list Features) (y : list string)
    (st : MultivariateGaussian * list Features * list string)
    (item : string * Z) :
    MultivariateGaussian * result (list Features * list string) :=
  let '(self, X_resampled, y_resampled) := st in
  let '(class_sample, n_samples) := item in
  let X_class := class_rows X y class_sample in
  let mean := np_mean X_class in
  let cov := np_cov X_class in
  let self := set_distribution self class_sample mean cov in
  let n_samples := n_samples_for self X_class n_samples in
  if (n_samples <=? 0)%Z then
    (self, Ok (X_resampled, y_resampled))
  else
    let rs := check_random_state (random_state self) in
    let drawn := draw rs mean cov (Z.to_nat n_samples) in
    let self := set_rs self drawn.2 in
    match drawn.1 with
    | Ok X_new =>
        let y_new := replicate (Z.to_nat n_samples) class_sample in
        (self, Ok (X_resampled ++ X_new, y_resampled ++ y_new))
    | Raise e => (self, Raise e)
    end.

(** The loop of [_fit_resample] over the classes still to visit. *)
Fixpoint fit_resample_loop (X : list Features) (y : list string)
    (st : MultivariateGaussian * list Features * list string)
    (items : list (string * Z)) :
    MultivariateGaussian * result (list Features * list string) :=
  match items with
  | [] => (st.1.1, Ok (st.1.2, st.2))
  | item :: items =>
      match fit_resample_step X y st item with
      | (self, Ok (X_resampled, y_resampled)) =>
          fit_resample_loop X y (self, X_resampled, y_resampled) items
      | (self, Raise e) => (self, Raise e)
      end
  end.

(** [_fit_resample], which the library's [fit_resample] calls on the
    arrays it has validated and whose result it returns: the sampler as the
    call leaves it, and the resampled arrays or the exception raised. *)
Definition _fit_resample (self : MultivariateGaussian)
    (X : list Features) (y : list string) :
    MultivariateGaussian * result (list Features * list string) :=
  let self := fit self y in
  let items := default [] (sampling_strategy_ self) in
  fit_resample_loop X y (self, X, y) items.

(** The list comprehension of [more_samples]: one draw of [n_samples] rows
    per class, all from the generator [rs_], until one raises. *)
Fixpoint draw_classes (means : gmap string Mean) (covs : gmap string Cov)
    (n_samples : nat) (rs : RandomState) (classes : list string) :
    result (list (list Features)) * RandomState :=
  match classes with
  | [] => (Ok [], rs)
  | class_sample :: rest =>
      match means !! class_sample, covs !! class_sample with
      | Some m, Some c =>
          let drawn := draw rs m c n_samples in
          match drawn.1 with
          | Ok X_new =>
              let others := draw_classes means covs n_samples drawn.2 rest in
              (Xs ← others.1; Ok (X_new :: Xs), others.2)
          | Raise e => (Raise e, drawn.2)
          end
      | _, _ => (Raise (KeyError class_sample), rs)
      end
  end.

Definition unfitted : exception :=
  Exception "Mean and covariance not set. You must first run fit_resample(X, y).".

(** [more_samples] returns the drawn rows and their labels, or raises; the
    generator [rs_] is left in the state that follows the draws made. *)
Definition more_samples (self : MultivariateGaussian) (n_samples : nat) :
    result (list Features * list string) * MultivariateGaussian :=
  if bool_decide (size (mean_ self) = 0 ∨ size (cov_ self) = 0) then
    (Raise unfitted, self)
  else
    match sampling_strategy_ self with
    | None => (Raise (AttributeError "sampling_strategy_"), self)
    | Some items =>
        let classes := sort_by id (fst <$> items) in
        match classes, rs_ self with
        | [], _ => (Raise (ValueError "need at least one array to concatenate"), self)
        | _, None => (Raise (AttributeError "rs_"), self)
        | _, Some rs =>
            let drawn := draw_classes (mean_ self) (cov_ self) n_samples rs classes in
            (Xs ← drawn.1;
             Ok (concat Xs, concat ((λ c, replicate n_samples c) <$> classes)),
             set_rs self drawn.2)
        end
    end.
End Resampler.


(** ** Tables

    An [astropy.table.Table] is kept as its ordered column names and its
    rows, one cell per column.  A cell of a one-dimensional column is a
    value with its mask bit (the column may be a [MaskedColumn]); a cell of a
    two-dimensional float column (['features'], ['probabilities']) is a
    vector. *)

Inductive value :=
  | VStr (s : string)
  | VNum (q : Qc).

#[global] Instance value_cmp : Cmp value := λ a b,
  match a, b with
  | VStr s, VStr t => cmp s t
  | VNum p, VNum q => (p ?= q)%Qc
  | VStr _, VNum _ => Lt
  | VNum _, VStr _ => Gt
  end.

#[global] Instance value_eq_dec : EqDecision value.
Proof. solve_decision. Defined.

(** Tuples of key values are compared field by field, as numpy compares the
    records of a structured array. *)
Fixpoint list_cmp `{Cmp A} (l k : list A) : comparison :=
  match l, k with
  | [], [] => Eq
  | [], _ :: _ => Lt
  | _ :: _, [] => Gt
  | x :: l', y :: k' =>
      match cmp x y with
      | Eq => list_cmp l' k'
      | c => c
      end
  end.

#[global] Instance list_Cmp `{Cmp A} : Cmp (list A) := list_cmp.

Inductive cell :=
  | Scalar (data : value) (mask : bool)
  | Array (xs : list Q).

Definition cell_value (c : cell) : value :=
  match c with Scalar d _ => d | Array _ => VStr "" end.

Definition cell_array (c : cell) : list Q :=
  match c with Array xs => xs | Scalar _ _ => [] end.

Definition cell_mask (c : cell) : bool :=
  match c with Scalar _ m => m | Array _ => false end.

Record Table := {
  colnames : list string;
  rows : list (list cell)
}.

(** Every row has one cell per column. *)
Definition well_formed (t : Table) : Prop :=
  Forall (λ r, length r = length (colnames t)) (rows t).

#[global] Instance Table_inhabited : Inhabited Table :=
  populate {| colnames := []; rows := [] |}.

Definition cell_at (i : nat) (row : list cell) : cell :=
  default (Array []) (row !! i).

Definition column_index (name : string) (t : Table) : result nat :=
  match list_find (λ c, c = name) (colnames t) with
  | Some (i, _) => Ok i
  | None => Raise (KeyError name)
  end.

(** [t[name]] *)
Definition get_column (name : string) (t : Table) : result (list cell) :=
  i ← column_index name t; Ok (cell_at i <$> rows t).

(** [t[name] = vals]: replaces the column, or appends a new one. *)
Definition set_column (name : string) (vals : list cell) (t : Table) :
    result Table :=
  match colnames t with
  | [] => Ok {| colnames := [name]; rows := (λ v, [v]) <$> vals |}
  | _ =>
      if decide (length vals = length (rows t)) then
        match list_find (λ c, c = name) (colnames t) with
        | Some (i, _) =>
            Ok {| colnames := colnames t;
                  rows := zip_with (λ r v, <[i := v]> r) (rows t) vals |}
        | None =>
            Ok {| colnames := colnames t ++ [name];
                  rows := zip_with (λ r v, r ++ [v]) (rows t) vals |}
        end
      else Raise (ValueError "Inconsistent data column lengths")
  end.

(** [t[[name; ...]]] *)
Definition select_columns (names : list string) (t : Table) : result Table :=
  if decide (NoDup names) then
    idxs ← mapM (λ n, column_index n t) names;
    Ok {| colnames := names;
          rows := (λ r, (λ i, cell_at i r) <$> idxs) <$> rows t |}
  else Raise (ValueError "Duplicate column names").

(** [x[mask]] for a boolean mask. *)
Definition np_select {A} (mask : list bool) (x : list A) : result (list A) :=
  if decide (length mask = length x) then
    Ok (fst <$> filter (λ p, p.2 = true) (zip x mask))
  else Raise IndexError.

Definition select_rows (mask : list bool) (t : Table) : result Table :=
  rs ← np_select mask (rows t);
  Ok {| colnames := colnames t; rows := rs |}.

(** [t.filled()]: every masked entry becomes the fill value of its column,
    and nothing is masked any more. *)
Definition filled_cell (fill_value : string → value) (c : cell) (name : string) :
    cell :=
  match c with
  | Scalar d true => Scalar (fill_value name) false
  | Scalar d false => Scalar d false
  | Array xs => Array xs
  end.

Definition filled (fill_value : string → value) (t : Table) : Table :=
  {| colnames := colnames t;
     rows := (λ r, zip_with (filled_cell fill_value) r (colnames t)) <$> rows t |}.

(** [t.group_by(keys)]: the rows in the stable order of their key tuples,
    cut into groups of equal keys. *)
Record TableGroups := {
  g_colnames : list string;
  g_keys : list string;
  g_groups : list (list cell * list (list cell))
}.

Definition row_key (idxs : list nat) (r : list cell) : list value :=
  (λ i, cell_value (cell_at i r)) <$> idxs.

Definition group_by (keys : list string) (t : Table) : result TableGroups :=
  idxs ← mapM (λ n, column_index n t) keys;
  Ok {| g_colnames := colnames t;
        g_keys := keys;
        g_groups := runs (row_key idxs) (sort_by (row_key idxs) (rows t)) |}.

(** [grouped.groups.aggregate(func)]: one row per group; a key column keeps
    the entry of the group's first row, any other column is reduced with
    [func]. *)
Definition aggregate (func : list (list Q) → list Q) (g : TableGroups) : Table :=
  {| colnames := g_colnames g;
     rows :=
       (λ grp,
          imap (λ j name,
                  if decide (name ∈ g_keys g) then cell_at j grp.1
                  else Array (func ((λ r, cell_array (cell_at j r)) <$> grp.1 :: grp.2)))
               (g_colnames g))
       <$> g_groups g |}.

(** [x.mean(axis=0)] of a two-dimensional array with at least one row. *)
Definition mean_axis0 (x : list (list Q)) : list Q :=
  match x with
  | [] => []
  | r :: rest =>
      (λ s, (s / inject_Z (Z.of_nat (length x)))%Q) <$> foldl (zip_with Qplus) r rest
  end.

(** [np.ma.array(column)]: a masked array over the same data with nothing
    masked (the column comes from a filled table and carries no mask). *)
Definition ma_array (col : list cell) : list cell :=
  (λ c, match c with Scalar d _ => Scalar d false | Array xs => Array xs end) <$> col.

(** A column of one-dimensional data: every row has a scalar there. *)
Definition scalar_column (name : string) (t : Table) : Prop :=
  ∀ i r, column_index name t = Ok i → r ∈ rows t →
         ∃ d m, r !! i = Some (Scalar d m).

Section Aggregation.
(** [meta_columns] is imported from [superphot.util]; the fill value of a
    column is a property of its dtype.  Both are parameters here. *)
Variable meta_columns : list string.
Variable fill_value : string → value.

(** The metadata of a row as the aggregation groups it: the entries of the
    columns [metas], masked entries replaced by the fill value of their
    column. *)
Definition metadata (metas : list string) (t : Table) (r : list cell) :
    list value :=
  (λ name,
     match column_index name t with
     | Ok i => cell_value (filled_cell fill_value (cell_at i r) name)
     | Raise _ => VStr ""
     end) <$> metas.

(** The row that the aggregation makes of a row [r] of the table: its filled
    metadata, then its probabilities (the column at index [pi]). *)
Definition selected (metas : list string) (t : Table) (pi : nat)
    (r : list cell) : list cell :=
  ((λ v, Scalar v false) <$> metadata metas t r)
  ++ [filled_cell fill_value (cell_at pi r) "probabilities"].

(** One aggregated row, from the key of a group and its members, whose
    probabilities are at index [m]. *)
Definition aggregated (m : nat) (g : list value * list (list cell)) : list cell :=
  ((λ v, Scalar v false) <$> g.1)
  ++ [Array (mean_axis0 ((λ r, cell_array (cell_at m r)) <$> g.2))].

Definition aggregate_probabilities (table : Table) : result Table :=
  table ← select_columns
             (filter (λ col, col ∈ meta_columns) (colnames table) ++ ["probabilities"])
             table;
  grouped ← group_by (removelast (colnames table)) (filled fill_value table);
  let results := aggregate mean_axis0 grouped in
  if decide ("type" ∈ colnames results) then
    col ← get_column "type" results;
    set_column "type" (ma_array col) results
  else Ok results.
End Aggregation.

(** ** Training, classification and cross-validation

    The pipeline is an object that [fit] mutates, and the tables are objects
    that the caller holds by reference: both live in a [world], and the
    functions below return their result (or the exception they raise)
    together with the world they leave behind. *)

Abbreviation loc := nat.

Section Engine.
(** The pipeline (scaler, sampler, classifier) is sklearn's: its state, what
    [fit] makes of it and what [predict_proba] returns are taken as given. *)
Context {Pipeline : Type}.
Variable pipeline_fit : Pipeline → list (list Q) → list cell → Pipeline.
Variable predict_proba : Pipeline → list (list Q) → list (list Q).
Variable meta_columns : list string.
Variable fill_value : string → value.

Record world := {
  the_pipeline : Pipeline;
  tables : gmap loc Table
}.

(** [data['features'].reshape(len(data), -1)]; numpy cannot infer the second
    dimension of an array without rows. *)
Definition features_2d (data : Table) : result (list (list Q)) :=
  col ← get_column "features" data;
  match rows data return result (list (list Q)) with
  | [] => Raise (ValueError "cannot reshape array of size 0 into shape (0,newaxis)")
  | _ => Ok (cell_array <$> col)
  end.

(** The positional arguments of a call. *)
Inductive pyarg :=
  | ArgPipeline (p : Pipeline)
  | ArgTable (t : Table).

Definition missing_train_data : exception :=
  TypeError "train_classifier() missing 1 required positional argument: 'train_data'".

(** [train_classifier(pipeline, train_data)], applied to the arguments of a
    call: it binds two positional parameters, then fits the pipeline.  It
    returns the state of the fitted pipeline. *)
Definition train_classifier (args : list pyarg) : result Pipeline :=
  match args with
  | [] =>
      Raise (TypeError "train_classifier() missing 2 required positional arguments: 'pipeline' and 'train_data'")
  | [_] => Raise missing_train_data
  | [ArgPipeline pipeline; ArgTable train_data] =>
      X ← features_2d train_data;
      y ← get_column "type" train_data;
      Ok (pipeline_fit pipeline X y)
  | [ArgTable _; _] => Raise (AttributeError "fit")
  | [ArgPipeline _; ArgPipeline _] =>
      Raise (TypeError "'Pipeline' object is not subscriptable")
  | _ =>
      Raise (TypeError "train_classifier() takes 2 positional arguments but more were given")
  end.

(** [test_data['probabilities'] = pipeline.predict_proba(...)], on the table
    object at [test_data]. *)
Definition write_probabilities (test_data : loc) (w : world) :
    result unit * world :=
  let t := tables w !!! test_data in
  match X ← features_2d t;
        set_column "probabilities" (Array <$> predict_proba (the_pipeline w) X) t with
  | Ok t' =>
      (Ok (), {| the_pipeline := the_pipeline w;
                 tables := <[test_data := t']> (tables w) |})
  | Raise e => (Raise e, w)
  end.

(** The end of [classify] and [validate_classifier]: the aggregated table is
    a new object, the table passed in is returned as it is. *)
Definition finish (test_data : loc) (aggregate : bool) (w : world) :
    result loc * world :=
  if aggregate then
    match aggregate_probabilities meta_columns fill_value (tables w !!! test_data) with
    | Ok results =>
        let l := fresh (dom (tables w)) in
        (Ok l, {| the_pipeline := the_pipeline w;
                  tables := <[l := results]> (tables w) |})
    | Raise e => (Raise e, w)
    end
  else (Ok test_data, w).

Definition classify (test_data : loc) (aggregate : bool) (w : world) :
    result loc * world :=
  match write_probabilities test_data w with
  | (Ok _, w) => finish test_data aggregate w
  | (Raise e, w) => (Raise e, w)
  end.

(** [col[mask] = vals] *)
Fixpoint assign_where {A} (mask : list bool) (vals : list A) (col : list A) :
    list A :=
  match mask, col with
  | true :: mask, _ :: col =>
      match vals with
      | v :: vals => v :: assign_where mask vals col
      | [] => col
      end
  | false :: mask, c :: col => c :: assign_where mask vals col
  | _, _ => col
  end.

(** The body of the cross-validation loop, for one entry [filename] of
    [train_data['filename']]. *)
Definition cross_validation_step (train_data test_data : loc)
    (w : world) (filename : cell) : result unit * world :=
  let train := tables w !!! train_data in
  let test := tables w !!! test_data in
  match
    train_names ← get_column "filename" train;
    let train_index :=
      (λ c, bool_decide (cell_value c ≠ cell_value filename)) <$> train_names in
    test_names ← get_column "filename" test;
    let test_index :=
      (λ c, bool_decide (cell_value c = cell_value filename)) <$> test_names in
    fold ← select_rows train_index train;
    pipeline ← train_classifier [ArgTable fold];
    features ← get_column "features" test;
    held_out ← np_select test_index features;
    test_features ←
      match held_out return result (list (list Q)) with
      | [] => Raise (ValueError "cannot reshape array of size 0 into shape (0,newaxis)")
      | _ => Ok (cell_array <$> held_out)
      end;
    probabilities ← get_column "probabilities" test;
    let predicted := Array <$> predict_proba pipeline test_features in
    if decide (length predicted = length held_out) return result (Pipeline * Table)
    then
      test ← set_column "probabilities"
               (assign_where test_index predicted probabilities) test;
      Ok (pipeline, test)
    else Raise (ValueError "shape mismatch")
  with
  | Ok (pipeline, test) =>
      (Ok (), {| the_pipeline := pipeline;
                 tables := <[test_data := test]> (tables w) |})
  | Raise e => (Raise e, w)
  end.

Fixpoint cross_validation (train_data test_data : loc) (w : world)
    (filenames : list cell) : result unit * world :=
  match filenames with
  | [] => (Ok (), w)
  | filename :: rest =>
      match cross_validation_step train_data test_data w filename with
      | (Ok _, w) => cross_validation train_data test_data w rest
      | (Raise e, w) => (Raise e, w)
      end
  end.

Definition validate_classifier (train_data : loc) (test_data : option loc)
    (aggregate : bool) (w : world) : result loc * world :=
  let test_data := default train_data test_data in
  match train_classifier [ArgPipeline (the_pipeline w);
                          ArgTable (tables w !!! train_data)] with
  | Raise e => (Raise e, w)
  | Ok fitted =>
      let w := {| the_pipeline := fitted; tables := tables w |} in
      match write_probabilities test_data w with
      | (Raise e, w) => (Raise e, w)
      | (Ok _, w) =>
          match get_column "filename" (tables w !!! train_data) with
          | Raise e => (Raise e, w)
          | Ok filenames =>
              match cross_validation train_data test_data w filenames with
              | (Raise e, w) => (Raise e, w)
              | (Ok _, w) => finish test_data aggregate w
              end
          end
      end
  end.
End Engine.

(** ** The confusion matrix *)

Definition Qltb (a b : Q) : bool := if Qlt_le_dec a b then true else false.

(** The first position of the largest entry, and that entry. *)
Fixpoint argmax_from (best_i : nat) (best : Q) (i : nat) (xs : list Q) : nat * Q :=
  match xs with
  | [] => (best_i, best)
  | x :: xs =>
      if Qltb best x then argmax_from i x (S i) xs
      else argmax_from best_i best (S i) xs
  end.

Definition np_argmax (xs : list Q) : result nat :=
  match xs with
  | [] => Raise (ValueError "attempt to get argmax of an empty sequence")
  | x :: xs => Ok (argmax_from 0 x 1 xs).1
  end.

Definition np_max (xs : list Q) : result Q :=
  match xs with
  | [] => Raise (ValueError "zero-size array to reduction operation maximum which has no identity")
  | x :: xs => Ok (argmax_from 0 x 1 xs).2
  end.

(** [np.round(x).astype(int)]: to the nearest integer, halves to the even
    one. *)
Definition np_round (x : Q) : Z :=
  let f := Qfloor x in
  match (x - inject_Z f ?= 1 # 2)%Q with
  | Lt => f
  | Gt => (f + 1)%Z
  | Eq => if Z.even f then f else (f + 1)%Z
  end.

(** [np.choose(i, choices)] for one index. *)
Definition np_choose {A} (i : Z) (choices : list A) : result A :=
  if (i <? 0)%Z then Raise (ValueError "invalid entry in choice array")
  else match choices !! Z.to_nat i with
       | Some c => Ok c
       | None => Raise (ValueError "invalid entry in choice array")
       end.

(** [x[i]] *)
Definition np_index {A} (x : list A) (i : nat) : result A :=
  match x !! i with Some a => Ok a | None => Raise IndexError end.

(** [sklearn.metrics.confusion_matrix(y_true, y_pred)], called without
    [labels]: the labels are the sorted values that occur in either
    argument, and entry (i, j) counts the samples of true label i predicted
    as label j. *)
Definition unique_labels (y_true y_pred : list value) : list value :=
  np_unique (y_true ++ y_pred).

Definition confusion_matrix (y_true y_pred : list value) : list (list Z) :=
  let labels := unique_labels y_true y_pred in
  (λ t, (λ p, Z.of_nat (length (filter (λ s, s = (t, p)) (zip y_true y_pred))))
        <$> labels)
  <$> labels.

(** The floats that a division of integer arrays produces. *)
Inductive np_float :=
  | Finite (q : Q)
  | PosInf
  | NegInf
  | NaN.

(** numpy's true division of two integers: a zero divisor gives an
    infinity or not-a-number (and a warning), never an exception. *)
Definition true_divide (a b : Z) : np_float :=
  if (b =? 0)%Z then
    if (a =? 0)%Z then NaN else if (0 <? a)%Z then PosInf else NegInf
  else Finite (inject_Z a / inject_Z b)%Q.

Definition sum_axis1 (m : list (list Z)) : list Z :=
  (λ r, foldr Z.add 0%Z r) <$> m.

Definition sum_axis0 (m : list (list Z)) : list Z :=
  match m with
  | [] => []
  | r :: rest => foldl (zip_with Z.add) r rest
  end.

(** [m[:, j]] *)
Definition np_column (j : nat) (m : list (list Z)) : list Z :=
  (λ r, default 0%Z (r !! j)) <$> m.

(** What [plot_confusion_matrix] computes to draw: the normalized matrix and
    the labels of the two axes.  The drawing itself is matplotlib's. *)
Record ConfusionPlot := {
  cm : list (list np_float);
  counts : list (list Z);
  xticklabels : list (value * Z);
  yticklabels : list (value * Z)
}.

Definition normalize (confusion_matrix : list (list Z)) (purity : bool) :
    list (list np_float) :=
  let n_per_true_class := sum_axis1 confusion_matrix in
  let n_per_pred_class := sum_axis0 confusion_matrix in
  if purity then
    (λ r, zip_with true_divide r n_per_pred_class) <$> confusion_matrix
  else
    zip_with (λ r n, (λ c, true_divide c n) <$> r) confusion_matrix n_per_true_class.

Definition plot_confusion_matrix (confusion_matrix : list (list Z))
    (classes : list value) (purity : bool) : ConfusionPlot :=
  {| cm := normalize confusion_matrix purity;
     counts := confusion_matrix;
     xticklabels := zip classes (sum_axis0 confusion_matrix);
     yticklabels := zip classes (sum_axis1 confusion_matrix) |}.

(** The confidence filters of [make_confusion_matrix], row by row: the
    largest probability exceeds [p_min]; the SNIa probability (at index [j])
    exceeds [p_min] or is below [1 - p_min]. *)
Definition confident (p_min : Q) (probabilities : list Q) : bool :=
  match np_max probabilities with
  | Ok top => Qltb p_min top
  | Raise _ => false
  end.

Definition confident_binary (p_min : Q) (j : nat) (probabilities : list Q) : bool :=
  match probabilities !! j with
  | Some p => Qltb p_min p || Qltb p (1 - p_min)%Q
  | None => false
  end.

Definition SNIa : value := VStr "SNIa".
Definition CCSN : value := VStr "CCSN".

(** ['SNIa' if sntype == 'SNIa' else 'CCSN'] *)
Definition binary_type (sntype : value) : value :=
  if decide (sntype = SNIa) then SNIa else CCSN.

(** The first part of [make_confusion_matrix]: the class list, and the true
    and predicted types of the rows that enter the matrix. *)
Definition confusion_inputs (results : Table) (classes : option (list value))
    (p_min : Q) (binary : bool) :
    result (list value * list value * list value) :=
  types ← get_column "type" results;
  results ← select_rows ((λ c, negb (cell_mask c)) <$> types) results;
  types ← get_column "type" results;
  let types := cell_value <$> types in
  let classes := default (np_unique types) classes in
  probabilities ← get_column "probabilities" results;
  let probabilities := cell_array <$> probabilities in
  if binary then
    let types := binary_type <$> types in
    i ← match list_find (λ c, c = SNIa) classes return result nat with
        | Some (i, _) => Ok i
        | None => Raise IndexError
        end;
    SNIa_probs ← mapM (λ p, np_index p i) probabilities;
    let classes := [CCSN; SNIa] in
    predicted_types ← mapM (λ p, np_choose (np_round p) classes) SNIa_probs;
    let include :=
      (λ p, Qltb p_min p || Qltb p (1 - p_min)%Q) <$> SNIa_probs in
    y_true ← np_select include types;
    y_pred ← np_select include predicted_types;
    Ok (classes, y_true, y_pred)
  else
    best ← mapM np_argmax probabilities;
    predicted_types ← mapM (np_index classes) best;
    top ← mapM np_max probabilities;
    let include := (λ p, Qltb p_min p) <$> top in
    y_true ← np_select include types;
    y_pred ← np_select include predicted_types;
    Ok (classes, y_true, y_pred).

Definition make_confusion_matrix (results : Table) (classes : option (list value))
    (p_min : Q) (purity binary : bool) : result ConfusionPlot :=
  '(classes, y_true, y_pred) ← confusion_inputs results classes p_min binary;
  let cnf_matrix := confusion_matrix y_true y_pred in
  Ok (plot_confusion_matrix cnf_matrix classes purity).

(** ** Inputs for the examples

    A stand-in for numpy's numerics (the mean of a class is the sum of its
    rows and its covariance the number of its rows; a draw refuses the
    covariance of fewer than two rows, and otherwise repeats the mean and
    advances the generator) and for the
    pipeline (a fitted pipeline remembers its training labels and predicts a
    uniform vector), and a few small tables. *)

Definition demo_mean (rows : list Z) : Z := foldr Z.add 0%Z rows.
Definition demo_cov (rows : list Z) : nat := length rows.
Definition demo_check_random_state (seed : nat) : nat := seed.
Definition demo_multivariate_normal (rs : nat) (mean : Z) (cov : nat) (n : nat) :
    (list Z + string) * nat :=
  if cov <? 2 then (inr "cov must be 2 dimensional and square", rs)
  else (inl (replicate n mean), rs + n).

Definition demo_fit (p : list cell) (X : list (list Q)) (y : list cell) : list cell := y.
Definition demo_predict_proba (p : list cell) (X : list (list Q)) : list (list Q) :=
  (λ _, [(1 # 2)%Q; (1 # 2)%Q]) <$> X.

Definition demo_train : Table :=
  {| colnames := ["filename"; "type"; "features"];
     rows := [[Scalar (VStr "sn1") false; Scalar (VStr "SNIa") false; Array [1%Q]];
              [Scalar (VStr "sn1") false; Scalar (VStr "SNIa") false; Array [2%Q]];
              [Scalar (VStr "sn2") false; Scalar (VStr "SNII") false; Array [3%Q]]] |}.

Definition demo_world : world (Pipeline := list cell) :=
  {| the_pipeline := []; tables := {[ 0 := demo_train ]} |}.

Definition demo_meta_columns : list string := ["filename"; "redshift"; "MWEBV"; "type"].
Definition demo_fill_value (name : string) : value := VStr "N/A".

Definition results_row (filename sntype : string) (masked : bool)
    (probabilities : list Q) : list cell :=
  [Scalar (VStr filename) false; Scalar (VStr sntype) masked; Array probabilities].

Definition results_table (rows : list (list cell)) : Table :=
  {| colnames := ["filename"; "type"; "probabilities"]; rows := rows |}.

(** One supernova, most probably of type Ia among three classes, with less
    than half of the probability. *)
Definition three_class_results : Table :=
  results_table [results_row "sn1" "SNIa" false [(3 # 10)%Q; (4 # 10)%Q; (3 # 10)%Q]].

Definition three_classes : list value := [VStr "SNII"; VStr "SNIa"; VStr "SNIbc"].

(** Two supernovae of type Ia, classified as such, and an unlabelled one;
    the classifier knows the classes SNII and SNIa. *)
Definition only_SNIa_results : Table :=
  results_table
    [results_row "sn1" "SNIa" false [(1 # 10)%Q; (9 # 10)%Q];
     results_row "sn2" "SNIa" false [(2 # 10)%Q; (8 # 10)%Q];
     results_row "sn3" "" true [(2 # 10)%Q; (8 # 10)%Q]].

Definition two_classes : list value := [VStr "SNII"; VStr "SNIa"].

(** One draw of a supernova without a known type. *)
Definition unlabelled_results : Table :=
  results_table [results_row "sn1" "" true [(1 # 4)%Q; (3 # 4)%Q]].

(** Two draws of one supernova and one draw of another. *)
Definition draws_results : Table :=
  results_table
    [results_row "sn2" "SNII" false [(3 # 4)%Q; (1 # 4)%Q];
     results_row "sn1" "SNIa" false [(1 # 4)%Q; (3 # 4)%Q];
     results_row "sn1" "SNIa" false [(3 # 4)%Q; (1 # 4)%Q]].

(** One row per supernova, not in the order of the file names. *)
Definition unsorted_results : Table :=
  results_table
    [results_row "sn2" "SNII" false [(3 # 4)%Q; (1 # 4)%Q];
     results_row "sn1" "SNIa" false [(1 # 4)%Q; (3 # 4)%Q]].

(** ** Sums of rationals

    The sum of a vector, in which the facts about probability vectors and
    normalized matrices are stated. *)

Definition Qsum (xs : list Q) : Q := foldr Qplus 0%Q xs.

(** ** Result files: [write_results] and [load_results]

    The two functions meet at a text file.  [write_results] is taken up to
    the table it hands to [output.write], with the format string of each
    column; [load_results] from the table that [Table.read] returns. *)

(** [t.remove_columns(names)] *)
Definition remove_columns (names : list string) (t : Table) : result Table :=
  _ ← mapM (λ n, column_index n t) names;
  Ok {| colnames := filter (λ c, c ∉ names) (colnames t);
        rows := (λ r, fst <$> filter (λ p, p.2 ∉ names) (zip r (colnames t)))
                <$> rows t |}.

(** A float as the entry of a one-dimensional column. *)
Definition float_cell (q : Q) : cell := Scalar (VNum (Q2Qc q)) false.

(** The number in a cell of a numeric column ([column.data], which leaves
    the mask behind), if the cell holds a number. *)
Definition cell_number (c : cell) : option Q :=
  match c with
  | Scalar (VNum q) _ => Some (this q)
  | _ => None
  end.

Definition number_of (c : cell) : Q := default 0%Q (cell_number c).

(** [np.stack(columns).T] for one-dimensional numeric columns of [nrows]
    entries: row [i] of the result holds entry [i] of every column.  Without
    any column [np.stack] raises. *)
Definition np_stack_T (nrows : nat) (columns : list (list Q)) :
    result (list (list Q)) :=
  match columns with
  | [] => Raise (ValueError "need at least one array to stack")
  | _ => Ok ((λ i, (λ col, default 0%Q (col !! i)) <$> columns) <$> seq 0 nrows)
  end.

(** The positions, counted from [off], of the elements of a list that
    satisfy [P]. *)
Fixpoint positions {A} (P : A → Prop) `{!∀ a, Decision (P a)} (off : nat)
    (l : list A) : list nat :=
  match l with
  | [] => []
  | a :: l =>
      if decide (P a) then off :: positions P (S off) l
      else positions P (S off) l
  end.

Section ResultFiles.
Variable meta_columns : list string.

(** The cells of a row in the metadata columns, and its other cells, for a
    table with the columns [cols]. *)
Definition meta_cells (cols : list string) (r : list cell) : list cell :=
  fst <$> filter (λ p, p.2 ∈ meta_columns) (zip r cols).

Definition class_cells (cols : list string) (r : list cell) : list cell :=
  fst <$> filter (λ p, p.2 ∉ meta_columns) (zip r cols).

(** One iteration of the loop of [write_results]: column [i] of the
    probabilities is stored under the name of class [i], with its format.
    ([x[:, i]] is taken row by row; a table without rows gives an empty
    column.) *)
Definition write_class_column (test_data : Table)
    (acc : result (Table * gmap string string)) (item : nat * string) :
    result (Table * gmap string string) :=
  '(output, formats) ← acc;
  probabilities ← get_column "probabilities" test_data;
  column ← mapM (λ p, np_index (cell_array p) item.1) probabilities;
  output ← set_column item.2 (float_cell <$> column) output;
  Ok (output, <[item.2 := "%.3f"]> formats).

(** [write_results], up to the call of [output.write]: the table that is
    written and the format of its columns. *)
Definition write_results (test_data : Table) (classes : list string) :
    result (Table * gmap string string) :=
  output ← select_columns
              (filter (λ col, col ∈ meta_columns) (colnames test_data)) test_data;
  _ ← column_index "MWEBV" output;
  let formats : gmap string string := {[ "MWEBV" := "%.4f" ]} in
  _ ← column_index "redshift" output;
  let formats := <["redshift" := "%.4f"]> formats in
  foldl (write_class_column test_data) (Ok (output, formats)) (imap pair classes).

(** [load_results], from the table read.  Every column that is not a
    metadata column is taken for the probabilities of a class.  The result
    is [None] where such a column holds strings: numpy would then build an
    array of strings, which [cell] does not represent. *)
Definition load_results (results : Table) : option (result Table) :=
  let retyped :=
    if decide ("type" ∈ colnames results) then
      col ← get_column "type" results; set_column "type" col results
    else Ok results in
  match retyped with
  | Raise e => Some (Raise e)
  | Ok results =>
      let classes := filter (λ col, col ∉ meta_columns) (colnames results) in
      match mapM (λ sntype, get_column sntype results) classes with
      | Raise e => Some (Raise e)
      | Ok columns =>
          numbers ← mapM (mapM cell_number) columns;
          Some (stacked ← np_stack_T (length (rows results)) numbers;
                results ← set_column "probabilities" (Array <$> stacked) results;
                remove_columns classes results)
      end
  end.
End ResultFiles.

(** ** Feature extraction: [superphot/extract.py] *)

(** [np.isfinite] *)
Definition np_isfinite (x : np_float) : bool :=
  match x with Finite _ => true | _ => false end.

(** [k] consecutive pieces of [n] elements. *)
Fixpoint chunks {A} (n k : nat) (l : list A) : list (list A) :=
  match k with
  | 0 => []
  | S k => take n l :: chunks n k (drop n l)
  end.

(** [x.reshape(-1, ncols)] of a one-dimensional array: numpy needs a
    positive number of columns that divides the size. *)
Definition np_reshape_rows {A} (x : list A) (ncols : Z) : result (list (list A)) :=
  if ((0 <? ncols) && (Z.of_nat (length x) mod ncols =? 0))%Z then
    Ok (chunks (Z.to_nat ncols) (length x / Z.to_nat ncols) x)
  else Raise (ValueError "cannot reshape array into shape (-1, ncols)").

(** [np.repeat(x, repeats)] *)
Definition np_repeat {A} (x : list A) (repeats : Z) : result (list A) :=
  if (repeats <? 0)%Z then
    Raise (ValueError "repeats may not contain negative values.")
  else Ok (concat (replicate (Z.to_nat repeats) <$> x)).

(** [t.meta[key]] *)
Definition meta_lookup (meta : gmap string Z) (key : string) : result Z :=
  match meta !! key with
  | Some v => Ok v
  | None => Raise (KeyError key)
  end.

(** [select_good_events]: [data] has one entry per row of [t], the model
    light curves of that draw in every filter; [meta] is [t.meta], which the
    selected table keeps. *)
Definition select_good_events (meta : gmap string Z) (t : Table)
    (data : list (list (list np_float))) :
    result (Table * list (list (list np_float))) :=
  let finite_values : list (list (list bool)) :=
    (λ draw : list (list np_float),
       (λ lc : list np_float, np_isfinite <$> lc) <$> draw) <$> data in
  let finite_draws : list bool :=
    (λ draw, forallb (forallb id) draw) <$> finite_values in
  ndraws ← meta_lookup meta "ndraws";
  events_with_finite_draws ← np_reshape_rows finite_draws ndraws;
  let finite_events : list bool := forallb id <$> events_with_finite_draws in
  ndraws ← meta_lookup meta "ndraws";
  draws_from_finite_events ← np_repeat finite_events ndraws;
  t_good ← select_rows draws_from_finite_events t;
  good_data ← np_select draws_from_finite_events data;
  Ok (t_good, good_data).

(** The ratios of total to selective extinction, [R_FILTERS]. *)
Definition R_FILTERS : gmap string Q :=
  list_to_map
    [("g", 3.57585511%Q); ("r", 2.54033913%Q); ("i", 1.88284171%Q);
     ("z", 1.49033933%Q); ("y", 1.24431944%Q);
     ("U", 4.78442941%Q); ("B", 4.05870021%Q); ("V", 3.02182672%Q);
     ("R", 2.34507832%Q); ("I", 1.69396924%Q)].

Definition unrecognized_filter (fltr : string) : exception :=
  ValueError ("Unrecognized filter " ++ fltr
              ++ ". Please specify the extinction correction using `R_filters`.").

(** The filter is a key of the dictionary given as [R_filters]:
    [R_filters is not None and fltr in R_filters]. *)
Definition overridden (R_filters : option (gmap string Q)) (fltr : string) : Prop :=
  is_Some (R_filters ≫= lookup fltr).

(** The loop of [extract_features] that collects the extinction ratio of
    every filter in the list [R_filter].  Where the filter is a key of
    [R_filters], the code indexes that list, not the dictionary, with the
    name of the filter. *)
Definition R_filter_step (R_filters : option (gmap string Q))
    (acc : result (list Q)) (fltr : string) : result (list Q) :=
  R_filter ← acc;
  if bool_decide (overridden R_filters fltr) then
    Raise (TypeError "list indices must be integers or slices, not str")
  else
    match R_FILTERS !! fltr with
    | Some R => Ok (R_filter ++ [R])
    | None => Raise (unrecognized_filter fltr)
    end.

Definition R_filter (filters : list string) (R_filters : option (gmap string Q)) :
    result (list Q) :=
  foldl (R_filter_step R_filters) (Ok []) filters.

(** A draw all of whose values are finite, and the events of [n] draws
    each into which a table with its data is cut. *)
Definition finite_draw (draw : list (list np_float)) : bool :=
  forallb (forallb np_isfinite) draw.

Definition finite_event {A} (event : list (A * list (list np_float))) : bool :=
  forallb (λ p, finite_draw p.2) event.

(** ** Further inputs for the examples *)

(** Two classified supernovae with their metadata. *)
Definition classified_row (filename sntype : string) (redshift MWEBV : Q)
    (probabilities : list Q) : list cell :=
  [Scalar (VStr filename) false; float_cell redshift; float_cell MWEBV;
   Scalar (VStr sntype) false; Array probabilities].

Definition demo_classified : Table :=
  {| colnames := ["filename"; "redshift"; "MWEBV"; "type"; "probabilities"];
     rows := [classified_row "sn1" "SNIa" (1 # 10) (2 # 100) [(1 # 4)%Q; (3 # 4)%Q];
              classified_row "sn2" "SNII" (2 # 10) (3 # 100) [(3 # 4)%Q; (1 # 4)%Q]] |}.

Definition demo_classes : list string := ["SNII"; "SNIa"].

(** The same results as a table read back from a file: one column per
    class. *)
Definition demo_read : Table :=
  {| colnames := ["filename"; "redshift"; "MWEBV"; "type"; "SNII"; "SNIa"];
     rows := [[Scalar (VStr "sn1") false; float_cell (1 # 10); float_cell (2 # 100);
               Scalar (VStr "SNIa") false; float_cell (1 # 4); float_cell (3 # 4)];
              [Scalar (VStr "sn2") false; float_cell (2 # 10); float_cell (3 # 100);
               Scalar (VStr "SNII") false; float_cell (3 # 4); float_cell (1 # 4)]] |}.

(** Two events of two draws each; one draw of the second event has a value
    that is not finite. *)
Definition demo_events : Table :=
  {| colnames := ["filename"];
     rows := [[Scalar (VStr "sn1") false]; [Scalar (VStr "sn1") false];
              [Scalar (VStr "sn2") false]; [Scalar (VStr "sn2") false]] |}.

Definition demo_models : list (list (list np_float)) :=
  [[[Finite 1; Finite 2]]; [[Finite 2; Finite 3]];
   [[Finite 1; NaN]]; [[Finite 1; Finite 1]]].

Definition demo_meta : gmap string Z := {[ "ndraws" := 2%Z ]}.

(** A table without rows, in a world of its own. *)
Definition empty_world : world (Pipeline := list cell) :=
  {| the_pipeline := [];
     tables := {[ 0 := {| colnames := ["filename"; "type"; "features"]; rows := [] |} ]} |}.

(** * Facts about the embedding *)

(** ** Orders *)

Section OrdFacts.
Context `{OrdLaws A}.

Lemma cmp_refl (x : A) : cmp x x = Eq.
Proof. by apply cmp_eq. Qed.

Lemma cmp_gt_lt (x y : A) : cmp x y = Gt ↔ cmp y x = Lt.
Proof. rewrite (cmp_antisym x y). destruct (cmp x y); naive_solver. Qed.


Lemma le_refl x : ord_le x x.
Proof. unfold ord_le. by rewrite cmp_refl. Qed.

Lemma lt_le x y : ord_lt x y → ord_le x y.
Proof. unfold ord_lt, ord_le. congruence. Qed.

Lemma le_cases x y : ord_le x y ↔ ord_lt x y ∨ x = y.
Proof.
  unfold ord_le, ord_lt. rewrite <- cmp_eq. destruct (cmp x y); intuition congruence.
Qed.

Lemma lt_irrefl x : ¬ ord_lt x x.
Proof. unfold ord_lt. by rewrite cmp_refl. Qed.

Lemma lt_trans x y z : ord_lt x y → ord_lt y z → ord_lt x z.
Proof. apply cmp_lt_trans. Qed.

Lemma le_lt_trans x y z : ord_le x y → ord_lt y z → ord_lt x z.
Proof.
  rewrite le_cases. intros [Hxy | ->] Hyz; [by eapply lt_trans | done].
Qed.

Lemma lt_le_trans x y z : ord_lt x y → ord_le y z → ord_lt x z.
Proof.
  rewrite le_cases. intros Hxy [Hyz | <-]; [by eapply lt_trans | done].
Qed.

Lemma le_trans x y z : ord_le x y → ord_le y z → ord_le x z.
Proof.
  intros Hxy. rewrite !le_cases. intros [Hyz | <-].
  - left. by eapply le_lt_trans.
  - by apply le_cases.
Qed.

Lemma not_le_lt x y : ¬ ord_le x y ↔ ord_lt y x.
Proof.
  unfold ord_le, ord_lt. rewrite <- cmp_gt_lt. destruct (cmp x y); naive_solver.
Qed.

Lemma le_antisym x y : ord_le x y → ord_le y x → x = y.
Proof.
  rewrite !le_cases. intros [Hxy | ->] [Hyx | Heq]; try done.
  destruct (lt_irrefl x). by eapply lt_trans.
Qed.

Definition ord_eq_dec : EqDecision A.
Proof.
  intros x y. destruct (cmp x y) eqn:E.
  - left. by apply cmp_eq.
  - right. intros ->. by rewrite cmp_refl in E.
  - right. intros ->. by rewrite cmp_refl in E.
Defined.
End OrdFacts.

(** Strings. *)
Lemma string_lt_irrefl (x : string) : ¬ String_as_OT.lt x x.
Proof. apply (irreflexivity String_as_OT.lt). Qed.

Lemma string_lt_asym (x y : string) :
  String_as_OT.lt x y → String_as_OT.lt y x → False.
Proof.
  intros L L'. apply (string_lt_irrefl x).
  exact (transitivity (R := String_as_OT.lt) L L').
Qed.

#[global] Instance string_ord : OrdLaws string.
Proof.
  split; unfold cmp, string_cmp.
  - intros x y. destruct (String_as_OT.compare_spec x y) as [E | L | L].
    + done.
    + split; [done | intros ->]. by apply string_lt_irrefl in L.
    + split; [done | intros ->]. by apply string_lt_irrefl in L.
  - intros x y.
    destruct (String_as_OT.compare_spec x y) as [E | L | L],
             (String_as_OT.compare_spec y x) as [E' | L' | L'];
      unfold String_as_OT.eq in *; subst; try done;
      solve [ by apply string_lt_irrefl in L
            | by apply string_lt_irrefl in L'
            | destruct (string_lt_asym _ _ L L') ].
  - intros x y z. apply (transitivity (R := String_as_OT.lt)).
Qed.


(** Metadata values: strings before numbers, each in its own order. *)
#[global] Instance value_ord : OrdLaws value.
Proof.
  split.
  - intros [s|p] [t|q]; unfold cmp; cbn; try done.
    + rewrite (cmp_eq (A := string)). split; congruence.
    + rewrite <- Qceq_alt. split; congruence.
  - intros [s|p] [t|q]; unfold cmp; cbn; try done.
    + apply (cmp_antisym (A := string)).
    + unfold Qccompare. by rewrite <- Qcompare_antisym.
  - intros [s|p] [t|q] [u|r]; unfold cmp; cbn; try done.
    + apply (cmp_lt_trans (A := string)).
    + rewrite <- !Qclt_alt. apply Qclt_trans.
Qed.

(** Tuples, field by field. *)
#[global] Instance list_ord `{OrdLaws A} : OrdLaws (list A).
Proof.
  split.
  - intros x. induction x as [|a x IH]; intros [|b y]; unfold cmp; cbn; try done.
    destruct (cmp a b) eqn:E.
    + apply cmp_eq in E as ->. unfold cmp in IH. rewrite IH. split; congruence.
    + split; [done|]. intros [= -> _]. by rewrite cmp_refl in E.
    + split; [done|]. intros [= -> _]. by rewrite cmp_refl in E.
  - intros x. induction x as [|a x IH]; intros [|b y]; unfold cmp; cbn; try done.
    rewrite (cmp_antisym a b). destruct (cmp a b); cbn; try done. apply IH.
  - intros x. induction x as [|a x IH]; intros [|b y] [|c z]; unfold cmp; cbn;
      try done.
    destruct (cmp a b) eqn:Eab; try done.
    + apply cmp_eq in Eab as ->. destruct (cmp b c); try done. apply IH.
    + intros _. destruct (cmp b c) eqn:Ebc; try done.
      * apply cmp_eq in Ebc as ->. by rewrite Eab.
      * by rewrite (cmp_lt_trans a b c Eab Ebc).
Qed.

(** ** Sorting and runs *)

Lemma StronglySorted_weaken {A} (R S : A → A → Prop) (l : list A) :
  (∀ x y, R x y → S x y) → StronglySorted R l → StronglySorted S l.
Proof.
  intros HRS. induction 1 as [|x l Hs IH Hx]; constructor; [done|].
  eapply Forall_impl; [exact Hx|]. intros y. apply HRS.
Qed.

Lemma filter_none {A} (P : A → Prop) `{!∀ a, Decision (P a)} (l : list A) :
  (∀ a, a ∈ l → ¬ P a) → filter P l = [].
Proof.
  induction l as [|x l IH]; intros Hl; [done|].
  rewrite filter_cons_False by (apply Hl; left).
  apply IH. intros a Ha. apply Hl. by right.
Qed.

Section SortByFacts.
Context {A K : Type} `{OrdLaws K} `{!EqDecision K} (key : A → K).

Local Abbreviation insert_by_id := (insert_by (@id K)).
Local Abbreviation sort_by_id := (sort_by (@id K)).
Local Abbreviation runs_id := (runs (@id K)).
Local Abbreviation insert_by := (insert_by key).
Local Abbreviation sort_by := (sort_by key).
Local Abbreviation runs := (runs key).
Local Abbreviation key_le := (key_le key).
Local Abbreviation key_lt := (key_lt key).

Lemma insert_by_perm x l : insert_by x l ≡ₚ x :: l.
Proof.
  induction l as [|h t IH]; simpl; [done|].
  destruct (cmp (key x) (key h)); try done.
  rewrite IH. apply Permutation_swap.
Qed.

Lemma sort_by_perm l : sort_by l ≡ₚ l.
Proof.
  induction l as [|x l IH]; simpl; [done|].
  by rewrite insert_by_perm, IH.
Qed.

Lemma sort_by_length l : length (sort_by l) = length l.
Proof. by rewrite sort_by_perm. Qed.

Lemma insert_by_sorted x l :
  StronglySorted key_le l → StronglySorted key_le (insert_by x l).
Proof.
  induction 1 as [|h t Hs IH Hh]; simpl.
  - repeat constructor.
  - destruct (cmp (key x) (key h)) eqn:E.
    + constructor; [by constructor|].
      assert (key_le x h) by (unfold key_le, ord_le; congruence).
      constructor; [done|].
      eapply Forall_impl; [exact Hh|]. intros b Hb.
      by eapply le_trans.
    + constructor; [by constructor|].
      assert (key_le x h) by (unfold key_le, ord_le; congruence).
      constructor; [done|].
      eapply Forall_impl; [exact Hh|]. intros b Hb.
      by eapply le_trans.
    + constructor; [done|].
      rewrite insert_by_perm. constructor; [|done].
      apply lt_le. by apply cmp_gt_lt.
Qed.

Lemma sort_by_sorted l : StronglySorted key_le (sort_by l).
Proof.
  induction l; simpl; [constructor | by apply insert_by_sorted].
Qed.

(** Stability: rows with one key keep their order. *)
Lemma insert_by_filter k x l :
  filter (λ a, key a = k) (insert_by x l) = filter (λ a, key a = k) (x :: l).
Proof.
  induction l as [|h t IH]; simpl; [done|].
  destruct (cmp (key x) (key h)) eqn:E; try done.
  rewrite (filter_cons _ h), IH, !filter_cons.
  destruct (decide (key h = k)) as [Hh|Hh], (decide (key x = k)) as [Hx|Hx];
    try done.
  rewrite Hh, Hx, cmp_refl in E. done.
Qed.

Lemma sort_by_filter k l :
  filter (λ a, key a = k) (sort_by l) = filter (λ a, key a = k) l.
Proof.
  induction l as [|x l IH]; simpl; [done|].
  by rewrite insert_by_filter, !filter_cons, IH.
Qed.

Lemma sort_by_sorted_id l : StronglySorted key_le l → sort_by l = l.
Proof.
  induction 1 as [|h t Hs IH Hh]; simpl; [done|].
  rewrite IH. destruct t as [|h' t']; simpl; [done|].
  apply Forall_cons in Hh as [Hh _].
  unfold key_le, ord_le in Hh. by destruct (cmp (key h) (key h')).
Qed.

(** *** Runs *)

Lemma runs_nil_inv l : runs l = [] → l = [].
Proof.
  destruct l as [|x t]; simpl; [done|].
  destruct (runs t) as [|[y g] gs]; [done|].
  by destruct (cmp (key x) (key y)).
Qed.

Lemma runs_head x t :
  ∃ g gs, runs (x :: t) = (x, g) :: gs.
Proof.
  simpl. destruct (runs t) as [|[y g] gs]; [by eauto|].
  destruct (cmp (key x) (key y)); eauto.
Qed.

Lemma runs_concat l : concat (map (λ r, r.1 :: r.2) (runs l)) = l.
Proof.
  induction l as [|x t IH]; simpl; [done|].
  destruct (runs t) as [|[y g] gs]; simpl in *.
  - by rewrite <- IH.
  - destruct (cmp (key x) (key y)); simpl; by rewrite <- IH.
Qed.

Lemma runs_length l : length (runs l) ≤ length l.
Proof.
  induction l as [|x t IH]; simpl; [done|].
  destruct (runs t) as [|[y g] gs]; simpl in *; [lia|].
  destruct (cmp (key x) (key y)); simpl; lia.
Qed.

Lemma runs_elem_of r l : r ∈ runs l → r.1 ∈ l.
Proof.
  revert r. induction l as [|x t IH]; intros r; simpl.
  { by intros ?%elem_of_nil. }
  destruct (runs t) as [|[y g] gs].
  - intros ->%list_elem_of_singleton. left.
  - assert (Hin : r ∈ (x, y :: g) :: gs ∨ r ∈ (x, @nil A) :: (y, g) :: gs →
                  r.1 ∈ x :: t).
    { intros [Hr | Hr]; apply elem_of_cons in Hr as [-> | Hr];
        try (by left); right; apply IH; [by right | done]. }
    destruct (cmp (key x) (key y)); intros Hr; apply Hin; auto.
Qed.

Lemma runs_cover a l : a ∈ l → ∃ r, r ∈ runs l ∧ key r.1 = key a.
Proof.
  induction l as [|x t IH]; [by intros ?%elem_of_nil|].
  intros [-> | Ha]%elem_of_cons.
  - destruct (runs_head x t) as (g & gs & ->). exists (x, g). split; [left|done].
  - destruct (IH Ha) as (r & Hr & Hk). simpl.
    destruct (runs t) as [|[y g] gs]; [by apply elem_of_nil in Hr|].
    destruct (cmp (key x) (key y)) eqn:E.
    + apply cmp_eq in E. apply elem_of_cons in Hr as [-> | Hr].
      * exists (x, y :: g). split; [left | simpl in *; congruence].
      * exists r. split; [by right | done].
    + exists r. split; [by right | done].
    + exists r. split; [by right | done].
Qed.

(** On a sorted list the runs have strictly increasing keys, and each run
    is the whole class of its key. *)
Lemma runs_sorted l :
  StronglySorted key_le l →
  StronglySorted (λ r s, key_lt r.1 s.1) (runs l) ∧
  Forall (λ r, r.1 :: r.2 = filter (λ a, key a = key r.1) l) (runs l).
Proof.
  induction 1 as [|x t Hs [IHs IHf] Hx]; simpl; [by split; constructor|].
  assert (Hfresh : ∀ r, r ∈ runs t → key x ≠ key r.1 →
            key_lt (x, @nil A).1 r.1).
  { intros r Hr Hne. simpl. apply runs_elem_of in Hr.
    rewrite Forall_forall in Hx. specialize (Hx _ Hr).
    apply le_cases in Hx as [Hx | Hx]; [done | by destruct Hne]. }
  assert (Hshift : ∀ r, r ∈ runs t → key x ≠ key r.1 →
            r.1 :: r.2 = filter (λ a, key a = key r.1) (x :: t)).
  { intros r Hr Hne. rewrite filter_cons_False by done.
    rewrite Forall_forall in IHf. by apply IHf. }
  destruct (runs t) as [|[y g] gs] eqn:Er.
  - apply runs_nil_inv in Er as ->. split; repeat constructor.
    simpl. by rewrite filter_cons_True, filter_nil.
  - apply StronglySorted_inv in IHs as [IHs IHy].
    apply Forall_cons in IHf as [IHfy IHf]. simpl in IHfy.
    assert (Hlater : ∀ r, r ∈ gs → key_lt (y, g).1 r.1).
    { by apply Forall_forall. }
    destruct (cmp (key x) (key y)) eqn:E.
    + apply cmp_eq in E. split.
      * constructor; [done|]. apply Forall_forall. intros r Hr.
        unfold key_lt; simpl. rewrite E. by apply Hlater.
      * constructor.
        -- simpl. rewrite filter_cons_True by done. by rewrite E, <- IHfy.
        -- apply Forall_forall. intros r Hr. apply Hshift; [by right|].
           rewrite E. intros Heq. specialize (Hlater _ Hr).
           unfold key_lt in Hlater; simpl in Hlater.
           rewrite Heq in Hlater. by apply lt_irrefl in Hlater.
    + assert (Hxy : key x ≠ key y).
      { intros Heq. rewrite Heq, cmp_refl in E. done. }
      assert (Hall : ∀ r, r ∈ (y, g) :: gs → key x ≠ key r.1).
      { intros r [-> | Hr]%elem_of_cons; [done|].
        specialize (Hlater _ Hr). unfold key_lt in Hlater; simpl in *.
        intros Heq. rewrite <- Heq in Hlater.
        apply (lt_irrefl (key x)). eapply lt_trans; [exact E | done]. }
      split.
      * constructor; [by constructor|]. apply Forall_forall.
        intros r Hr. apply Hfresh; [done | by apply Hall].
      * constructor.
        -- simpl. rewrite filter_cons_True by done. f_equal.
           symmetry. apply filter_none. intros a Ha Heq.
           destruct (runs_cover a t Ha) as (r & Hr & Hk). rewrite Er in Hr.
           apply (Hall r Hr). congruence.
        -- apply Forall_forall. intros r Hr. apply Hshift; [done | by apply Hall].
    + exfalso. destruct (runs_head y []) as (g' & gs' & _).
      assert (Hy : y ∈ t).
      { apply (runs_elem_of (y, g)). rewrite Er. left. }
      rewrite Forall_forall in Hx. specialize (Hx _ Hy).
      unfold key_le, ord_le in Hx. done.
Qed.

Lemma runs_keys_elem k l :
  k ∈ (λ r, key r.1) <$> runs l ↔ k ∈ key <$> l.
Proof.
  rewrite !list_elem_of_fmap. split.
  - intros (r & -> & Hr). exists r.1. split; [done | by apply runs_elem_of].
  - intros (a & -> & Ha). destruct (runs_cover a l Ha) as (r & Hr & Hk).
    by exists r.
Qed.

Lemma runs_keys_sorted l :
  StronglySorted key_le l →
  StronglySorted ord_lt ((λ r, key r.1) <$> runs l).
Proof.
  intros [Hs _]%runs_sorted.
  induction Hs as [|r rs Hs IH Hr]; simpl; constructor; [done|].
  by apply Forall_fmap.
Qed.

Lemma lt_sorted_nodup (ks : list K) : StronglySorted ord_lt ks → NoDup ks.
Proof.
  induction 1 as [|k ks Hs IH Hk]; constructor; [|done].
  intros Hin. rewrite Forall_forall in Hk.
  by apply (lt_irrefl k), Hk.
Qed.

Lemma runs_keys_nodup l :
  StronglySorted key_le l → NoDup ((λ r, key r.1) <$> runs l).
Proof. intros. by apply lt_sorted_nodup, runs_keys_sorted. Qed.

(** Sorting and cutting by key, seen from the keys. *)
Lemma insert_by_fmap (x : A) (l : list A) :
  insert_by_id (key x) (key <$> l) = key <$> insert_by x l.
Proof.
  induction l as [|h t IH]; [done|]. rewrite fmap_cons. cbn [insert_by].
  unfold id at 1 2.
  destruct (cmp (key x) (key h)); by rewrite ?fmap_cons, ?IH.
Qed.

Lemma sort_by_fmap (l : list A) : sort_by_id (key <$> l) = key <$> sort_by l.
Proof.
  unfold sort_by. induction l as [|x l IH]; [done|].
  rewrite fmap_cons. cbn [foldr]. by rewrite IH, insert_by_fmap.
Qed.

Lemma runs_fmap (l : list A) :
  runs_id (key <$> l) = (λ r : A * list A, (key r.1, key <$> r.2)) <$> runs l.
Proof.
  induction l as [|x l IH]; [done|]. rewrite fmap_cons. cbn [runs].
  rewrite IH. destruct (runs l) as [|[y g] gs]; [done|].
  rewrite fmap_cons. cbn [fst snd]. unfold id at 1 2.
  by destruct (cmp (key x) (key y)).
Qed.

Lemma np_unique_keys (l : list A) :
  np_unique (key <$> l) = (λ r : A * list A, key r.1) <$> runs (sort_by l).
Proof.
  unfold np_unique, unique_counts.
  rewrite sort_by_fmap, runs_fmap, <- !list_fmap_compose.
  by apply list_fmap_ext.
Qed.

(** The groups of a table grouped by key: one per distinct key, in the
    order of the keys, each holding the rows of its key in their original
    order. *)
Lemma runs_sort_by_groups (l : list A) :
  (λ r : A * list A, (key r.1, r.1 :: r.2)) <$> runs (sort_by l)
  = (λ k, (k, filter (λ a, key a = k) l)) <$> np_unique (key <$> l).
Proof.
  rewrite np_unique_keys, <- list_fmap_compose.
  apply Forall_fmap_ext. destruct (runs_sorted (sort_by l)) as [_ HF].
  { apply sort_by_sorted. }
  eapply Forall_impl; [exact HF|]. intros r Hr. cbn.
  by rewrite Hr, sort_by_filter.
Qed.
End SortByFacts.

(** *** Facts about [numpy.unique] *)

Section Unique.
Context `{OrdLaws K} `{!EqDecision K}.

Lemma unique_counts_keys (l : list K) :
  (unique_counts l).*1 = (λ r, id r.1) <$> runs id (sort_by id l).
Proof. unfold unique_counts. by rewrite <- list_fmap_compose. Qed.

Lemma np_unique_nodup (l : list K) : NoDup (np_unique l).
Proof.
  unfold np_unique. rewrite unique_counts_keys.
  apply runs_keys_nodup, sort_by_sorted.
Qed.

Lemma np_unique_elem (c : K) (l : list K) : c ∈ np_unique l ↔ c ∈ l.
Proof.
  unfold np_unique. rewrite unique_counts_keys, runs_keys_elem.
  by rewrite list_fmap_id, sort_by_perm.
Qed.

Lemma np_unique_increasing (l : list K) : StronglySorted ord_lt (np_unique l).
Proof.
  unfold np_unique. rewrite unique_counts_keys.
  apply (runs_keys_sorted id), sort_by_sorted.
Qed.

Lemma np_unique_length (l : list K) : length (np_unique l) ≤ length l.
Proof.
  unfold np_unique, unique_counts. rewrite !length_fmap.
  etrans; [apply runs_length|]. by rewrite sort_by_length.
Qed.

Lemma np_unique_length_nodup (l : list K) :
  length (np_unique l) = length l ↔ NoDup l.
Proof.
  split.
  - intros Hlen. apply NoDup_ListNoDup.
    eapply NoDup_incl_NoDup.
    + apply NoDup_ListNoDup, (np_unique_nodup l).
    + lia.
    + intros x Hx. apply list_elem_of_In, np_unique_elem. by apply list_elem_of_In.
  - intros Hnd. apply Permutation_length, NoDup_Permutation.
    + apply np_unique_nodup.
    + done.
    + intros x. apply np_unique_elem.
Qed.

(** A strictly increasing list is its own [numpy.unique]. *)
Lemma np_unique_sorted (l : list K) : StronglySorted ord_lt l → np_unique l = l.
Proof.
  intros Hs. unfold np_unique, unique_counts.
  rewrite sort_by_sorted_id.
  2:{ eapply StronglySorted_weaken; [|exact Hs]. intros x y. apply lt_le. }
  rewrite <- list_fmap_compose.
  induction Hs as [|x l Hs IH Hx]; [done|]. cbn [runs].
  destruct (runs id l) as [|[y g] gs] eqn:Er.
  - apply runs_nil_inv in Er as ->. done.
  - assert (Hy : y ∈ l).
    { apply (runs_elem_of id (y, g)). rewrite Er. left. }
    rewrite Forall_forall in Hx. specialize (Hx y Hy). unfold ord_lt in Hx.
    unfold id at 1 2. rewrite Hx. rewrite fmap_cons. by rewrite IH.
Qed.
End Unique.

Lemma sampling_strategy_all_keys (y : list string) :
(sampling_strategy_all y).*1 = np_unique y.
Proof.
unfold sampling_strategy_all, np_unique. by rewrite <- list_fmap_compose.
Qed.

(** ** The resampler *)

Lemma unique_counts_count (l : list string) :
  unique_counts l = (λ k, (k, count k l)) <$> np_unique l.
Proof.
  pose proof (runs_sort_by_groups (@id string) l) as Hg.
  rewrite list_fmap_id in Hg.
  apply (f_equal (fmap (λ p : string * list string, (p.1, length p.2)))) in Hg.
  rewrite <- !list_fmap_compose in Hg.
  unfold unique_counts. etrans; [|etrans; [exact Hg|]].
  - apply list_fmap_ext. by intros i [x g] _.
  - by apply list_fmap_ext.
Qed.

(** The size of the largest class of [y]. *)
Lemma majority_bound (cs : list (string * nat)) :
  let M := foldr Z.max 0%Z ((λ s, Z.of_nat s.2) <$> cs) in
  (0 ≤ M)%Z ∧
  (∀ s, s ∈ cs → (Z.of_nat s.2 ≤ M)%Z) ∧
  (cs ≠ [] → ∃ s, s ∈ cs ∧ Z.of_nat s.2 = M).
Proof.
  induction cs as [|s cs (IH0 & IHle & IHex)]; cbn [fmap list_fmap foldr].
  { split; [done|]. split; [by intros s ?%elem_of_nil | done]. }
  split; [lia|]. split.
  - intros s' [->|Hs']%elem_of_cons; [lia|]. specialize (IHle s' Hs'). lia.
  - intros _. destruct (Z.max_spec (Z.of_nat s.2)
        (foldr Z.max 0%Z ((λ s, Z.of_nat s.2) <$> cs))) as [[Hlt ->]|[Hle ->]].
    + destruct cs as [|s' cs']; [cbn in Hlt; lia|].
      destruct IHex as (s'' & Hin & Heq); [done|].
      exists s''. split; [by right | done].
    + exists s. split; [left | done].
Qed.

Lemma sampling_strategy_all_spec (y : list string) :
  ∃ M : nat,
    sampling_strategy_all y
      = (λ c, (c, (Z.of_nat M - Z.of_nat (count c y))%Z)) <$> np_unique y ∧
    (∀ c, count c y ≤ M) ∧
    (y ≠ [] → ∃ c, c ∈ y ∧ count c y = M).
Proof.
  destruct (majority_bound (unique_counts y)) as (H0 & Hle & Hex).
  set (M := foldr Z.max 0%Z ((λ s, Z.of_nat s.2) <$> unique_counts y)) in *.
  exists (Z.to_nat M). split; [|split].
  - unfold sampling_strategy_all. fold M. rewrite unique_counts_count.
    rewrite <- list_fmap_compose. apply list_fmap_ext. intros i c _. cbn.
    by rewrite Z2Nat.id.
  - intros c. destruct (decide (c ∈ y)) as [Hc|Hc].
    + specialize (Hle (c, count c y)). cbn in Hle.
      assert (Z.of_nat (count c y) ≤ M)%Z; [|lia].
      apply Hle. rewrite unique_counts_count. apply list_elem_of_fmap.
      exists c. split; [done|]. by apply np_unique_elem.
    + assert (count c y = 0); [|lia].
      destruct (count c y) eqn:E; [done|]. destruct Hc.
      unfold count in E. destruct (filter _ y) as [|x ?] eqn:Ef; [done|].
      assert (Hx : x ∈ filter (λ l, l = c) y) by (rewrite Ef; left).
      by apply list_elem_of_filter in Hx as [-> ?].
  - intros Hy. destruct Hex as ([c k] & Hin & Heq).
    { rewrite unique_counts_count. destruct y as [|l y']; [done|].
      assert (Hl : l ∈ np_unique (l :: y')) by (apply np_unique_elem; left).
      intros Hnil. apply fmap_nil_inv in Hnil. rewrite Hnil in Hl.
      by apply elem_of_nil in Hl. }
    rewrite unique_counts_count in Hin.
    apply list_elem_of_fmap in Hin as (c' & [= -> ->] & Hc').
    exists c'. split; [by apply np_unique_elem|]. cbn in Heq. lia.
Qed.

Section ResamplerFacts.
Context {Features Mean Cov RandomState Seed : Type}.
Variable np_mean : list Features → Mean.
Variable np_cov : list Features → Cov.
Variable check_random_state : Seed → RandomState.
Variable multivariate_normal :
  RandomState → Mean → Cov → nat → (list Features + string) * RandomState.

(** What is assumed of numpy, for feature rows of two or more finite
    columns: a draw that returns gives as many rows as were asked for, and
    a draw from the mean and the covariance of two rows or more returns. *)
Hypothesis multivariate_normal_shape :
  ∀ rs m c n rows, (multivariate_normal rs m c n).1 = inl rows → length rows = n.
Hypothesis multivariate_normal_two_rows :
  ∀ rs X_class n, 2 ≤ length X_class →
    ∃ rows, (multivariate_normal rs (np_mean X_class) (np_cov X_class) n).1 = inl rows.

Local Abbreviation sampler := (@MultivariateGaussian Mean Cov RandomState Seed).
Local Abbreviation draw' := (draw multivariate_normal).
Local Abbreviation step :=
  (fit_resample_step np_mean np_cov check_random_state multivariate_normal).
Local Abbreviation loop :=
  (fit_resample_loop np_mean np_cov check_random_state multivariate_normal).
Local Abbreviation fit_resample' :=
  (_fit_resample np_mean np_cov check_random_state multivariate_normal).
Local Abbreviation more_samples' := (more_samples multivariate_normal).

Lemma class_rows_app (X1 X2 : list Features) (y1 y2 : list string) c :
  length X1 = length y1 →
  class_rows (X1 ++ X2) (y1 ++ y2) c = class_rows X1 y1 c ++ class_rows X2 y2 c.
Proof.
  intros Hlen. unfold class_rows.
  by rewrite zip_with_app, filter_app, fmap_app.
Qed.

Lemma class_rows_replicate (Xn : list Features) c c' :
  class_rows Xn (replicate (length Xn) c) c' = if decide (c = c') then Xn else [].
Proof.
  unfold class_rows.
  induction Xn as [|x Xn IH]; [by destruct (decide _)|].
  cbn [length replicate zip_with]. rewrite filter_cons. cbn [snd].
  destruct (decide (c = c')); [rewrite fmap_cons|]; by rewrite IH.
Qed.

Lemma class_rows_length (X : list Features) (y : list string) c :
  length X = length y → length (class_rows X y c) = count c y.
Proof.
  unfold class_rows, count. revert y.
  induction X as [|x X IH]; intros [|l y] Hlen; try done.
  cbn [zip_with]. rewrite !filter_cons. cbn [snd].
  injection Hlen as Hlen.
  destruct (decide (l = c)); [rewrite fmap_cons|]; cbn [length];
    by rewrite IH.
Qed.

Lemma count_app (c : string) (y1 y2 : list string) :
  count c (y1 ++ y2) = count c y1 + count c y2.
Proof. unfold count. by rewrite filter_app, length_app. Qed.

Lemma count_replicate (c c' : string) n :
  count c' (replicate n c) = if decide (c = c') then n else 0.
Proof.
  unfold count. induction n as [|n IH]; [by destruct (decide _)|].
  cbn [replicate]. rewrite filter_cons.
  destruct (decide (c = c')); cbn [length]; by rewrite IH.
Qed.

Lemma count_pos (c : string) (y : list string) : c ∈ y ↔ 0 < count c y.
Proof.
  unfold count. induction y as [|l y IH].
  - rewrite elem_of_nil. cbn. lia.
  - rewrite elem_of_cons, filter_cons.
    destruct (decide (l = c)); cbn [length]; [intuition (auto; lia)|].
    rewrite IH. intuition congruence.
Qed.

(** A draw returns its rows or raises a [ValueError]. *)
Lemma draw_cases rs m v n :
  (∃ rows, (multivariate_normal rs m v n).1 = inl rows ∧
           (draw' rs m v n).1 = Ok rows ∧ length rows = n) ∨
  (∃ msg, (multivariate_normal rs m v n).1 = inr msg ∧
          (draw' rs m v n).1 = Raise (ValueError msg)).
Proof.
  unfold draw. cbn [fst].
  destruct (multivariate_normal rs m v n).1 as [rows|msg] eqn:E.
  - left. exists rows. repeat split. by eapply multivariate_normal_shape.
  - right. by exists msg.
Qed.

Lemma draw_two_rows rs (X_class : list Features) n :
  2 ≤ length X_class →
  ∃ rows, (multivariate_normal rs (np_mean X_class) (np_cov X_class) n).1 = inl rows ∧
          (draw' rs (np_mean X_class) (np_cov X_class) n).1 = Ok rows ∧
          length rows = n.
Proof.
  intros H2.
  destruct (multivariate_normal_two_rows rs X_class n H2) as [rows Hrows].
  destruct (draw_cases rs (np_mean X_class) (np_cov X_class) n)
    as [(rows' & Hraw & Hdraw & Hlen) | (msg & Hraw & _)]; [|congruence].
  by exists rows'.
Qed.

(** What one iteration stores in the sampler, whatever its outcome. *)
Lemma fit_resample_step_state (X : list Features) (y : list string)
    (self : sampler) Xr yr c n0 :
  let X_class := class_rows X y c in
  let out := step X y (self, Xr, yr) (c, n0) in
  samples_per_class out.1 = samples_per_class self ∧
  random_state out.1 = random_state self ∧
  sampling_strategy_ out.1 = sampling_strategy_ self ∧
  mean_ out.1 = <[c := np_mean X_class]> (mean_ self) ∧
  cov_ out.1 = <[c := np_cov X_class]> (cov_ self).
Proof.
  cbv zeta. unfold fit_resample_step.
  destruct (_ <=? 0)%Z; [done|].
  by destruct (draw _ _ _ _ _).1.
Qed.

(** What one iteration does to the sampler, and to the arrays if its draw
    returns. *)
Lemma fit_resample_step_cases (X : list Features) (y : list string)
    (self : sampler) Xr yr c n0 :
  let X_class := class_rows X y c in
  let n := n_samples_for self X_class n0 in
  let out := step X y (self, Xr, yr) (c, n0) in
  samples_per_class out.1 = samples_per_class self ∧
  random_state out.1 = random_state self ∧
  sampling_strategy_ out.1 = sampling_strategy_ self ∧
  mean_ out.1 = <[c := np_mean X_class]> (mean_ self) ∧
  cov_ out.1 = <[c := np_cov X_class]> (cov_ self) ∧
  ((n ≤ 0)%Z → out.2 = Ok (Xr, yr) ∧ rs_ out.1 = rs_ self) ∧
  ((0 < n)%Z →
     is_Some (rs_ out.1) ∧
     let rs := check_random_state (random_state self) in
     let drawn := (multivariate_normal rs (np_mean X_class) (np_cov X_class)
                     (Z.to_nat n)).1 in
     match drawn with
     | inl rows =>
         length rows = Z.to_nat n ∧
         out.2 = Ok (Xr ++ rows, yr ++ replicate (length rows) c)
     | inr msg => out.2 = Raise (ValueError msg)
     end).
Proof.
  intros X_class n. cbv zeta. unfold fit_resample_step.
  change (class_rows X y c) with X_class.
  change (n_samples_for (set_distribution self c _ _) X_class n0) with n.
  destruct (n <=? 0)%Z eqn:E.
  - apply Z.leb_le in E. cbn. repeat split; try done; lia.
  - apply Z.leb_gt in E. unfold draw. cbn [fst snd].
    destruct (multivariate_normal _ _ _ _).1 as [rows|msg] eqn:Ed;
      cbn; repeat split; try done; try lia.
    + by eapply multivariate_normal_shape.
    + by rewrite (multivariate_normal_shape _ _ _ _ _ Ed).
Qed.

(** An iteration on a class that has two rows or more if it needs any. *)
Lemma fit_resample_step_spec (X : list Features) (y : list string)
    (self : sampler) Xr yr c n0 :
  let n := n_samples_for self (class_rows X y c) n0 in
  let X_class := class_rows X y c in
  ((0 < n)%Z → 2 ≤ length X_class) →
  ∃ self' Xs,
    step X y (self, Xr, yr) (c, n0)
      = (self', Ok (Xr ++ Xs, yr ++ replicate (length Xs) c)) ∧
    samples_per_class self' = samples_per_class self ∧
    random_state self' = random_state self ∧
    sampling_strategy_ self' = sampling_strategy_ self ∧
    mean_ self' = <[c := np_mean X_class]> (mean_ self) ∧
    cov_ self' = <[c := np_cov X_class]> (cov_ self) ∧
    length Xs = Z.to_nat n ∧
    ((n ≤ 0)%Z → Xs = [] ∧ rs_ self' = rs_ self) ∧
    ((0 < n)%Z →
       is_Some (rs_ self') ∧
       ∃ rs, (multivariate_normal rs (np_mean X_class) (np_cov X_class)
                (Z.to_nat n)).1 = inl Xs).
Proof.
  intros n X_class Htwo.
  destruct (fit_resample_step_cases X y self Xr yr c n0)
    as (Hspc & Hseed & Hss & Hmean & Hcov & Hle & Hgt).
  cbv zeta in Hle, Hgt. fold n in Hle, Hgt.
  fold X_class in Hmean, Hcov, Hle, Hgt.
  destruct (step X y (self, Xr, yr) (c, n0)) as [self' out] eqn:Estep.
  cbn [fst snd] in *.
  destruct (Z.le_gt_cases n 0) as [Hn | Hn].
  - destruct (Hle Hn) as [-> Hrs]. exists self', [].
    rewrite !app_nil_r. repeat split; try done; try lia. cbn. lia.
  - destruct (Hgt Hn) as [Hrs Hdraw].
    destruct (multivariate_normal_two_rows
                (check_random_state (random_state self)) X_class (Z.to_nat n)
                (Htwo Hn)) as [rows Hrows].
    rewrite Hrows in Hdraw. destruct Hdraw as [Hlen ->].
    exists self', rows. repeat split; try done; try lia. by eexists.
Qed.

Lemma n_samples_for_ext (self self' : sampler) (Xc : list Features) n0 :
  samples_per_class self' = samples_per_class self →
  n_samples_for self' Xc n0 = n_samples_for self Xc n0.
Proof. unfold n_samples_for. by intros ->. Qed.

(** The loop of [_fit_resample] over classes with distinct names, each with
    two rows or more if it needs any: what it appends to the arrays, class
    by class. *)
Lemma fit_loop_arrays (X : list Features) (y : list string) items :
  ∀ (self : sampler) Xr yr,
  NoDup items.*1 →
  (∀ c n0, (c, n0) ∈ items →
     (0 < n_samples_for self (class_rows X y c) n0)%Z →
     2 ≤ length (class_rows X y c)) →
  ∃ self' Xs ys,
    loop X y (self, Xr, yr) items = (self', Ok (Xr ++ Xs, yr ++ ys)) ∧
    length Xs = length ys ∧
    samples_per_class self' = samples_per_class self ∧
    (∀ c, c ∉ items.*1 → class_rows Xs ys c = [] ∧ count c ys = 0) ∧
    (∀ c n0, (c, n0) ∈ items →
       let X_class := class_rows X y c in
       let n := n_samples_for self X_class n0 in
       count c ys = Z.to_nat n ∧
       length (class_rows Xs ys c) = Z.to_nat n ∧
       ((0 < n)%Z →
          ∃ rs, (multivariate_normal rs (np_mean X_class) (np_cov X_class)
                   (Z.to_nat n)).1 = inl (class_rows Xs ys c))).
Proof.
  induction items as [|[c n0] items IH]; intros self Xr yr Hnd Htwo.
  { exists self, [], []. rewrite !app_nil_r.
    split; [done|]. split; [done|]. split; [done|]. split; [done|].
    intros c n0 Hin. by apply elem_of_nil in Hin. }
  rewrite fmap_cons in Hnd. apply NoDup_cons in Hnd as [Hc Hnd].
  cbn [fit_resample_loop fst] in *.
  destruct (fit_resample_step_spec X y self Xr yr c n0)
    as (self1 & Xs1 & -> & Hspc1 & _ & _ & _ & _ & Hlen1 & Hle1 & Hgt1).
  { apply Htwo. left. }
  destruct (IH self1 (Xr ++ Xs1) (yr ++ replicate (length Xs1) c) Hnd)
    as (self' & Xs2 & ys2 & -> & Hlen2 & Hspc2 & Hout & Hin).
  { intros c' n0' Hin'. rewrite (n_samples_for_ext self self1) by done.
    apply Htwo. by right. }
  exists self', (Xs1 ++ Xs2), (replicate (length Xs1) c ++ ys2).
  rewrite <- !(assoc_L (++)). split; [done|].
  split; [by rewrite !length_app, length_replicate, Hlen2|].
  split; [congruence|].
  assert (Hsplit : ∀ c', class_rows (Xs1 ++ Xs2) (replicate (length Xs1) c ++ ys2) c'
            = (if decide (c = c') then Xs1 else []) ++ class_rows Xs2 ys2 c').
  { intros c'. rewrite class_rows_app by by rewrite length_replicate.
    by rewrite class_rows_replicate. }
  split.
  - intros c' Hc'. apply not_elem_of_cons in Hc' as [Hne Hc'].
    destruct (Hout c' Hc') as [Hrows Hcnt].
    rewrite Hsplit, count_app, count_replicate, Hrows, Hcnt.
    by destruct (decide (c = c')) as [->|_].
  - intros c' n0' [Heq | Hin']%elem_of_cons; cbv zeta in *.
    + injection Heq as -> ->.
      destruct (Hout c Hc) as [Hrows Hcnt].
      rewrite Hsplit, count_app, count_replicate, Hrows, Hcnt.
      destruct (decide (c = c)); [|done]. rewrite app_nil_r.
      split; [lia|]. split; [lia|]. intros Hn. by apply Hgt1.
    + assert (c ≠ c').
      { intros ->. apply Hc. apply list_elem_of_fmap. by exists (c', n0'). }
      destruct (Hin c' n0' Hin') as (Hcnt & Hlen & Hdraw).
      rewrite (n_samples_for_ext self self1) in * by done.
      rewrite Hsplit, count_app, count_replicate.
      destruct (decide (c = c')); [done|]. cbn [app]. by repeat split.
Qed.

(** The attributes of the sampler after a loop that returned. *)
Lemma fit_loop_state (X : list Features) (y : list string) items :
  ∀ (self self' : sampler) Xr yr Xr' yr',
  loop X y (self, Xr, yr) items = (self', Ok (Xr', yr')) →
  sampling_strategy_ self' = sampling_strategy_ self ∧
  random_state self' = random_state self ∧
  (∀ c, mean_ self' !! c =
        if decide (c ∈ items.*1) then Some (np_mean (class_rows X y c))
        else mean_ self !! c) ∧
  (∀ c, cov_ self' !! c =
        if decide (c ∈ items.*1) then Some (np_cov (class_rows X y c))
        else cov_ self !! c) ∧
  ((Xr' = Xr ∧ yr' = yr ∧ rs_ self' = rs_ self) ∨
   (length Xr < length Xr' ∧ is_Some (rs_ self'))).
Proof.
  induction items as [|[c n0] items IH]; intros self self' Xr yr Xr' yr' Hloop.
  { injection Hloop as <- <- <-. repeat split; try done. by left. }
  cbn [fit_resample_loop] in Hloop.
  destruct (fit_resample_step_cases X y self Xr yr c n0)
    as (_ & Hseed1 & Hss1 & Hmean1 & Hcov1 & Hle1 & Hgt1).
  cbv zeta in Hle1, Hgt1.
  set (n := n_samples_for self (class_rows X y c) n0) in *.
  destruct (step X y (self, Xr, yr) (c, n0)) as [self1 [[Xr1 yr1]|e]] eqn:Estep;
    [|done].
  cbn [fst snd] in *.
  destruct (IH _ _ _ _ _ _ Hloop) as (Hss & Hseed & Hmean & Hcov & Hrs).
  split; [congruence|]. split; [congruence|]. split; [|split].
  - intros c'. rewrite Hmean, Hmean1, fmap_cons. cbn [fst].
    destruct (decide (c' ∈ items.*1)) as [Hin|Hin].
    + rewrite decide_True; [done | by right].
    + destruct (decide (c = c')) as [->|Hne].
      * rewrite lookup_insert_eq, decide_True; [done | left].
      * rewrite lookup_insert_ne by done. rewrite decide_False; [done|].
        intros [?|?]%elem_of_cons; congruence.
  - intros c'. rewrite Hcov, Hcov1, fmap_cons. cbn [fst].
    destruct (decide (c' ∈ items.*1)) as [Hin|Hin].
    + rewrite decide_True; [done | by right].
    + destruct (decide (c = c')) as [->|Hne].
      * rewrite lookup_insert_eq, decide_True; [done | left].
      * rewrite lookup_insert_ne by done. rewrite decide_False; [done|].
        intros [?|?]%elem_of_cons; congruence.
  - destruct (Z.le_gt_cases n 0) as [Hn | Hn].
    + destruct (Hle1 Hn) as [[= -> ->] Hrs1].
      destruct Hrs as [(-> & -> & ->) | Hrs]; [left | right]; done.
    + right. destruct (Hgt1 Hn) as [Hsome Hdraw].
      destruct (multivariate_normal _ _ _ _).1 as [rows|msg]; [|done].
      destruct Hdraw as [Hlen [= -> ->]].
      assert (length Xr < length (Xr ++ rows)) by (rewrite length_app; lia).
      destruct Hrs as [(-> & -> & ->) | [Hlt Hrs]]; [done|].
      split; [lia | done].
Qed.

(** Whatever the outcome of the loop, the distributions that the sampler
    held are still there, and after one iteration or more some class has
    one. *)
Lemma fit_loop_stored (X : list Features) (y : list string) items :
  ∀ (self : sampler) Xr yr,
  let self' := (loop X y (self, Xr, yr) items).1 in
  sampling_strategy_ self' = sampling_strategy_ self ∧
  (mean_ self ≠ ∅ ∨ items ≠ [] → mean_ self' ≠ ∅) ∧
  (cov_ self ≠ ∅ ∨ items ≠ [] → cov_ self' ≠ ∅).
Proof.
  induction items as [|[c n0] items IH]; intros self Xr yr; cbv zeta.
  { cbn. split; [done|]. split; by intros [?|?]. }
  cbn [fit_resample_loop].
  destruct (fit_resample_step_state X y self Xr yr c n0)
    as (_ & _ & Hss1 & Hmean1 & Hcov1).
  destruct (step X y (self, Xr, yr) (c, n0)) as [self1 [[Xr1 yr1]|e]] eqn:Estep;
    cbn [fst snd] in *.
  - destruct (IH self1 Xr1 yr1) as (Hss & Hmean & Hcov).
    split; [congruence|]. split; intros _.
    + apply Hmean. left. rewrite Hmean1. apply insert_non_empty.
    + apply Hcov. left. rewrite Hcov1. apply insert_non_empty.
  - split; [done|]. split; intros _.
    + rewrite Hmean1. apply insert_non_empty.
    + rewrite Hcov1. apply insert_non_empty.
Qed.

(** Whatever the outcome of the loop, it assigns [rs_] without ever
    deleting it, and the arrays do not shrink. *)
Lemma fit_loop_grows (X : list Features) (y : list string) items :
  ∀ (self : sampler) Xr yr,
  let out := loop X y (self, Xr, yr) items in
  (is_Some (rs_ self) → is_Some (rs_ out.1)) ∧
  (∀ Xr' yr', out.2 = Ok (Xr', yr') → length Xr ≤ length Xr').
Proof.
  induction items as [|[c n0] items IH]; intros self Xr yr; cbv zeta.
  { cbn. split; [done|]. by intros Xr' yr' [= <- <-]. }
  cbn [fit_resample_loop].
  destruct (fit_resample_step_cases X y self Xr yr c n0)
    as (_ & _ & _ & _ & _ & Hle1 & Hgt1).
  cbv zeta in Hle1, Hgt1.
  set (n := n_samples_for self (class_rows X y c) n0) in *.
  destruct (step X y (self, Xr, yr) (c, n0)) as [self1 out1] eqn:Estep.
  cbn [fst snd] in *.
  destruct (Z.le_gt_cases n 0) as [Hn | Hn].
  - destruct (Hle1 Hn) as [-> Hrs1].
    destruct (IH self1 Xr yr) as [Hrs Hlen].
    split; [|done]. intros Hsome. apply Hrs. by rewrite Hrs1.
  - destruct (Hgt1 Hn) as [Hsome1 Hdraw].
    destruct (multivariate_normal _ _ _ _).1 as [rows|msg].
    + destruct Hdraw as [_ ->].
      destruct (IH self1 (Xr ++ rows) (yr ++ replicate (length rows) c))
        as [Hrs Hlen].
      split; [by intros _; apply Hrs|].
      intros Xr' yr' Hout. apply Hlen in Hout. rewrite length_app in Hout. lia.
    + rewrite Hdraw. cbn [fst snd]. by split.
Qed.

(** Whatever the outcome of the loop: when no class needs rows it returns
    the arrays as they are and leaves [rs_] alone; when some class needs
    rows it assigns [rs_], and it does not return the arrays as they are. *)
Lemma fit_loop_draws (X : list Features) (y : list string) items :
  ∀ (self : sampler) Xr yr,
  let out := loop X y (self, Xr, yr) items in
  ((∀ c n0, (c, n0) ∈ items →
      (n_samples_for self (class_rows X y c) n0 ≤ 0)%Z) →
   out.2 = Ok (Xr, yr) ∧ rs_ out.1 = rs_ self) ∧
  ((∃ c n0, (c, n0) ∈ items ∧
      (0 < n_samples_for self (class_rows X y c) n0)%Z) →
   is_Some (rs_ out.1) ∧ out.2 ≠ Ok (Xr, yr)).
Proof.
  induction items as [|[c n0] items IH]; intros self Xr yr; cbv zeta.
  { cbn. split; [done|]. by intros (c & n0 & ?%elem_of_nil & _). }
  cbn [fit_resample_loop].
  destruct (fit_resample_step_cases X y self Xr yr c n0)
    as (Hspc1 & _ & _ & _ & _ & Hle1 & Hgt1).
  cbv zeta in Hle1, Hgt1.
  set (n := n_samples_for self (class_rows X y c) n0) in *.
  destruct (step X y (self, Xr, yr) (c, n0)) as [self1 out1] eqn:Estep.
  cbn [fst snd] in *.
  destruct (Z.le_gt_cases n 0) as [Hn | Hn].
  - destruct (Hle1 Hn) as [-> Hrs1].
    destruct (IH self1 Xr yr) as [Hnone Hsome]. split.
    + intros Hall. destruct Hnone as [Hout Hrs].
      { intros c' n0' Hin. rewrite (n_samples_for_ext self self1) by done.
        apply Hall. by right. }
      split; [done | congruence].
    + intros (c' & n0' & [[= -> ->]|Hin]%elem_of_cons & Hpos); [fold n in Hpos; lia|].
      apply Hsome. exists c', n0'. split; [done|].
      by rewrite (n_samples_for_ext self self1).
  - split; [intros Hall; specialize (Hall c n0); fold n in Hall;
            assert ((n ≤ 0)%Z) by (apply Hall; left); lia|].
    intros _. destruct (Hgt1 Hn) as [Hsome1 Hdraw].
    destruct (multivariate_normal _ _ _ _).1 as [rows|msg].
    + destruct Hdraw as [Hrows ->].
      destruct (fit_loop_grows X y items self1 (Xr ++ rows)
                  (yr ++ replicate (length rows) c)) as [Hrs Hlen].
      split; [by apply Hrs|].
      intros Hout. apply Hlen in Hout. rewrite length_app in Hout. lia.
    + rewrite Hdraw. cbn [fst snd]. by split.
Qed.

(** The draws of [more_samples] return when every class has a stored
    distribution from which numpy can draw, and give [n_samples] rows per
    class. *)
Lemma draw_classes_ok (means : gmap string Mean) (covs : gmap string Cov)
    n classes :
  (∀ c, c ∈ classes →
     ∃ X_class, 2 ≤ length X_class ∧
       means !! c = Some (np_mean X_class) ∧ covs !! c = Some (np_cov X_class)) →
  ∀ rs, ∃ Xs,
    (draw_classes multivariate_normal means covs n rs classes).1 = Ok Xs ∧
    length (concat Xs) = n * length classes.
Proof.
  induction classes as [|c classes IH]; intros Hall rs.
  { exists []. split; [done | cbn; lia]. }
  destruct (Hall c) as (X_class & Htwo & Hm & Hv); [left|].
  cbn [draw_classes]. rewrite Hm, Hv.
  destruct (draw_two_rows rs X_class n Htwo) as (rows & _ & -> & Hrows).
  destruct (IH (λ c' Hc', Hall c' (list_elem_of_further _ _ _ Hc'))
              (draw' rs (np_mean X_class) (np_cov X_class) n).2) as (Xs & -> & Hlen).
  eexists. split; [done|].
  cbn [concat length]. rewrite length_app, Hlen, Hrows. lia.
Qed.

(** The exceptions of the draws of [more_samples]. *)
Lemma draw_classes_raise (means : gmap string Mean) (covs : gmap string Cov)
    n classes :
  ∀ rs e,
  (draw_classes multivariate_normal means covs n rs classes).1 = Raise e →
  (∃ c, e = KeyError c) ∨ (∃ msg, e = ValueError msg).
Proof.
  induction classes as [|c classes IH]; intros rs e; [done|].
  cbn [draw_classes].
  destruct (means !! c); [|intros [= <-]; left; by eexists].
  destruct (covs !! c); [|intros [= <-]; left; by eexists].
  unfold draw at 1. cbn [fst].
  destruct (multivariate_normal rs m c0 n).1 as [rows|msg].
  - cbn [fst].
    destruct (draw_classes _ _ _ _ _ classes).1 as [Xs|e'] eqn:Ed; [done|].
    intros [= <-]. by eapply IH.
  - intros [= <-]. right. by eexists.
Qed.

Lemma count_zero_nil (ys : list string) : (∀ c, count c ys = 0) → ys = [].
Proof.
  destruct ys as [|l ys]; [done|]. intros Hall. specialize (Hall l).
  unfold count in Hall. by rewrite filter_cons_True in Hall.
Qed.

Lemma sampling_strategy_all_elem (y : list string) c :
  c ∈ y ↔ ∃ n0, (c, n0) ∈ sampling_strategy_all y.
Proof.
  rewrite <- np_unique_elem, <- sampling_strategy_all_keys, list_elem_of_fmap.
  split.
  - intros ([c' n0] & -> & Hin). by exists n0.
  - intros [n0 Hin]. by exists (c, n0).
Qed.

(** [_fit_resample] as a whole, on data in which every class that needs
    rows has two or more: the arrays it returns and the sampler it
    leaves. *)
Lemma fit_resample_unfold (self : sampler) (X : list Features) (y : list string) :
  two_rows_where_drawn self X y →
  ∃ self' Xs ys,
    fit_resample' self X y = (self', Ok (X ++ Xs, y ++ ys)) ∧
    loop X y (fit self y, X, y) (sampling_strategy_all y)
      = (self', Ok (X ++ Xs, y ++ ys)) ∧
    length Xs = length ys ∧
    samples_per_class self' = samples_per_class self ∧
    (∀ c, c ∉ y → count c ys = 0) ∧
    (∀ c n0, (c, n0) ∈ sampling_strategy_all y →
       let X_class := class_rows X y c in
       let n := n_samples_for self X_class n0 in
       count c ys = Z.to_nat n ∧
       length (class_rows Xs ys c) = Z.to_nat n ∧
       ((0 < n)%Z →
          ∃ rs, (multivariate_normal rs (np_mean X_class) (np_cov X_class)
                   (Z.to_nat n)).1 = inl (class_rows Xs ys c))).
Proof.
  intros Htwo.
  destruct (fit_loop_arrays X y (sampling_strategy_all y) (fit self y) X y)
    as (self' & Xs & ys & Hloop & Hlen & Hspc & Hout & Hin).
  { rewrite sampling_strategy_all_keys. apply np_unique_nodup. }
  { exact Htwo. }
  exists self', Xs, ys. unfold _fit_resample.
  cbn [fit sampling_strategy_ default id].
  change (fit_resample_loop _ _ _ _ X y _ (sampling_strategy_all y))
    with (loop X y (fit self y, X, y) (sampling_strategy_all y)).
  rewrite Hloop.
  split; [done|]. split; [done|]. split; [done|]. split; [done|]. split.
  - intros c Hc. apply Hout.
    by rewrite sampling_strategy_all_keys, np_unique_elem.
  - exact Hin.
Qed.

(** When some class needs rows, a class of a single row needs rows as
    well: if every class that needs rows has two or more, every class
    has. *)
Lemma two_rows_everywhere (self : sampler) (X : list Features) (y : list string)
    c0 n0 :
  length X = length y →
  two_rows_where_drawn self X y →
  (c0, n0) ∈ sampling_strategy_all y →
  (0 < n_samples_for self (class_rows X y c0) n0)%Z →
  ∀ c, c ∈ y → 2 ≤ length (class_rows X y c).
Proof.
  intros HXy Htwo Hitem0 Hpos c Hc.
  destruct (sampling_strategy_all_spec y) as (M & Hitems & Hle & _).
  assert (Hitem : (c, (Z.of_nat M - Z.of_nat (count c y))%Z) ∈ sampling_strategy_all y).
  { rewrite Hitems. apply list_elem_of_fmap. exists c. split; [done|].
    by apply np_unique_elem. }
  specialize (Htwo _ _ Hitem).
  rewrite Hitems in Hitem0.
  apply list_elem_of_fmap in Hitem0 as (c0' & [= <- ->] & Hc0).
  apply (proj1 (np_unique_elem c0 y)) in Hc0.
  apply count_pos in Hc0. apply count_pos in Hc.
  unfold n_samples_for in Htwo, Hpos.
  rewrite !(class_rows_length X y _ HXy) in *.
  pose proof (Hle c0). pose proof (Hle c).
  destruct (samples_per_class self) as [k|]; lia.
Qed.


Lemma sort_by_id_nonempty (l : list string) : l ≠ [] → sort_by id l ≠ [].
Proof.
  intros Hl Hs. apply Hl, Permutation_nil_r. by rewrite <- (sort_by_perm id l), Hs.
Qed.

(** [more_samples] on a sampler with stored distributions and classes, but
    no [rs_]. *)
Lemma more_samples_no_rs (self : sampler) items n :
  mean_ self ≠ ∅ → cov_ self ≠ ∅ →
  sampling_strategy_ self = Some items →
  items ≠ [] →
  rs_ self = None →
  more_samples' self n = (Raise (AttributeError "rs_"), self).
Proof.
  intros Hmean Hcov Hss Hne Hrs. unfold more_samples.
  rewrite bool_decide_eq_false_2.
  2:{ by intros [Hz | Hz]; apply map_size_empty_iff in Hz. }
  rewrite Hss, Hrs.
  assert (Hcl : sort_by id items.*1 ≠ []).
  { apply sort_by_id_nonempty. by destruct items. }
  by destruct (sort_by id items.*1).
Qed.

(** [more_samples] on a sampler whose [sampling_strategy_] lists at least one
    class, all with a stored distribution: it raises [AttributeError] when
    [rs_] was never assigned; otherwise, if the distributions are those of
    classes of two rows or more, it returns [n_samples] rows per class. *)
Lemma more_samples_fitted (self : sampler) items n :
  sampling_strategy_ self = Some items →
  items ≠ [] →
  (∀ c, c ∈ items.*1 → is_Some (mean_ self !! c) ∧ is_Some (cov_ self !! c)) →
  match rs_ self with
  | None => more_samples' self n = (Raise (AttributeError "rs_"), self)
  | Some _ =>
      (∀ c, c ∈ items.*1 →
         ∃ X_class, 2 ≤ length X_class ∧
           mean_ self !! c = Some (np_mean X_class) ∧
           cov_ self !! c = Some (np_cov X_class)) →
      ∃ Xn yn, (more_samples' self n).1 = Ok (Xn, yn) ∧
        length Xn = n * length items ∧
        yn = concat ((λ c, replicate n c) <$> sort_by id items.*1)
  end.
Proof.
  intros Hss Hne Hall. unfold more_samples. rewrite Hss.
  destruct items as [|[c0 n0] items0] eqn:Eitems; [done|]. rewrite <- Eitems in *.
  assert (Hc0 : c0 ∈ items.*1) by (rewrite Eitems, fmap_cons; left).
  destruct (Hall c0 Hc0) as [[m Hm] [v Hv]].
  rewrite bool_decide_eq_false_2.
  2:{ intros [Hz | Hz]; apply map_size_empty_iff in Hz; rewrite Hz in *;
        by rewrite lookup_empty in *. }
  assert (Hcl : sort_by id items.*1 ≠ []).
  { apply sort_by_id_nonempty. by rewrite Eitems. }
  destruct (sort_by id items.*1) as [|c1 cl] eqn:Ecl; [done|].
  destruct (rs_ self) as [rs|]; [|done].
  intros Htwo.
  destruct (draw_classes_ok (mean_ self) (cov_ self) n (c1 :: cl)) with (rs := rs)
    as (Xs & Hdraw & Hlen).
  { intros c Hc. apply Htwo. by rewrite <- (sort_by_perm id items.*1), Ecl. }
  cbn [fst]. rewrite Hdraw. eexists _, _. split; [done|]. split; [|done].
  rewrite Hlen, <- Ecl, sort_by_length. by rewrite length_fmap.
Qed.


(** C3, at an input where the code falls short of it: two classes of two
    rows each, resampled to two rows per class.  [fit_resample] stores both
    distributions and returns the data unchanged; [more_samples] then
    raises [AttributeError] instead of returning rows. *)
Theorem more_samples_after_balanced_fit (seed : Seed)
    (x1 x2 x3 x4 : Features) (n : nat) :
  let X := [x1; x2; x3; x4] in
  let y := ["SNII"; "SNIa"; "SNII"; "SNIa"] in
  let fitted :=
    fit_resample' (MultivariateGaussian_init (StrategyInt 2) seed) X y in
  fitted.2 = Ok (X, y) ∧
  mean_ fitted.1 !! "SNIa" = Some (np_mean [x2; x4]) ∧
  cov_ fitted.1 !! "SNIa" = Some (np_cov [x2; x4]) ∧
  mean_ fitted.1 !! "SNII" = Some (np_mean [x1; x3]) ∧
  cov_ fitted.1 !! "SNII" = Some (np_cov [x1; x3]) ∧
  more_samples' fitted.1 n = (Raise (AttributeError "rs_"), fitted.1).
Proof. repeat split; vm_compute; reflexivity. Qed.

End ResamplerFacts.

(** The stand-in for numpy draws as is assumed of numpy. *)
Lemma demo_multivariate_normal_shape (rs : nat) (m : Z) (c n : nat)
    (rows : list Z) :
  (demo_multivariate_normal rs m c n).1 = inl rows → length rows = n.
Proof.
  unfold demo_multivariate_normal. destruct (c <? 2); [done|].
  intros [= <-]. apply length_replicate.
Qed.

Lemma demo_multivariate_normal_two_rows (rs : nat) (X_class : list Z) (n : nat) :
  2 ≤ length X_class →
  ∃ rows, (demo_multivariate_normal rs (demo_mean X_class) (demo_cov X_class) n).1
          = inl rows.
Proof.
  intros Htwo. unfold demo_multivariate_normal, demo_cov.
  destruct (Nat.ltb_spec (length X_class) 2) as [Hlt|_]; [lia|]. by eexists.
Qed.

(** Two classes of two rows each. *)
Lemma two_classes_of_two_rows (c : string) :
  c ∈ ["SNIa"; "SNII"; "SNIa"; "SNII"] →
  2 ≤ count c ["SNIa"; "SNII"; "SNIa"; "SNII"].
Proof.
  intros Hc. repeat (apply elem_of_cons in Hc as [->|Hc]); try (vm_compute; lia).
  by apply elem_of_nil in Hc.
Qed.

Lemma two_classes_two_rows_where_drawn
    (self : MultivariateGaussian (Mean := Z) (Cov := nat) (RandomState := nat)
              (Seed := nat)) :
  two_rows_where_drawn self [1; 2; 5; 7]%Z ["SNIa"; "SNII"; "SNIa"; "SNII"].
Proof.
  intros c n0 Hitem _.
  assert (Hc : c ∈ ["SNII"; "SNIa"]).
  { apply (list_elem_of_fmap_2 fst) in Hitem. exact Hitem. }
  repeat (apply elem_of_cons in Hc as [->|Hc]); try (vm_compute; lia).
  by apply elem_of_nil in Hc.
Qed.





(** ** Normalizing the confusion matrix *)

Lemma sum_nonneg_zero (r : list Z) (c : Z) :
  Forall (λ x, (0 ≤ x)%Z) r → foldr Z.add 0%Z r = 0%Z → c ∈ r → c = 0%Z.
Proof.
  induction 1 as [|x r Hx Hr IH]; cbn [foldr]; intros Hsum Hc.
  { by apply elem_of_nil in Hc. }
  assert (0 ≤ foldr Z.add 0 r)%Z.
  { clear -Hr. induction Hr; cbn [foldr]; lia. }
  apply elem_of_cons in Hc as [-> | Hc]; [lia|]. apply IH; [lia | done].
Qed.

Lemma true_divide_total (c total : Z) :
  (total = 0%Z → c = 0%Z) →
  true_divide c total =
  if decide (total = 0%Z) then NaN else Finite (inject_Z c / inject_Z total)%Q.
Proof.
  intros Hc. unfold true_divide.
  destruct (decide (total = 0%Z)) as [->|Hne].
  - by rewrite (Hc eq_refl).
  - by destruct (Z.eqb_spec total 0).
Qed.

Lemma foldl_zip_add_lookup (n j : nat) (rest : list (list Z)) :
  ∀ (r0 : list Z) (x : Z),
  Forall (λ r, length r = n) rest → j < n → r0 !! j = Some x →
  foldl (zip_with Z.add) r0 rest !! j
    = Some (x + foldr Z.add 0 (np_column j rest))%Z.
Proof.
  induction rest as [|r1 rest IH]; intros r0 x Hrect Hj Hx; cbn [foldl].
  { cbn. by rewrite Hx, Z.add_0_r. }
  apply Forall_cons in Hrect as [Hr1 Hrect].
  destruct (lookup_lt_is_Some_2 r1 j) as [x1 Hx1]; [lia|].
  rewrite (IH _ (x + x1)%Z Hrect Hj).
  - unfold np_column. rewrite fmap_cons. cbn [foldr]. rewrite Hx1. cbn [default].
    by rewrite Z.add_assoc.
  - by rewrite lookup_zip_with, Hx, Hx1.
Qed.

Lemma sum_axis0_lookup (n j : nat) (m : list (list Z)) :
  Forall (λ r, length r = n) m → m ≠ [] → j < n →
  sum_axis0 m !! j = Some (foldr Z.add 0%Z (np_column j m)).
Proof.
  destruct m as [|r0 rest]; [done|]. intros [Hr0 Hrect]%Forall_cons _ Hj.
  destruct (lookup_lt_is_Some_2 r0 j) as [x Hx]; [lia|].
  cbn [sum_axis0]. rewrite (foldl_zip_add_lookup n j rest r0 x) by done.
  unfold np_column. rewrite fmap_cons. cbn [foldr]. by rewrite Hx.
Qed.

(** C8: dividing a confusion matrix (non-negative counts, [n] columns) by
    its row totals (completeness) or its column totals (purity) is defined
    for every such matrix and keeps its shape: the cell of a class whose
    total is zero is not-a-number, every other cell is the count over the
    total.  No total raises an error. *)
Theorem normalize_zero_total_gives_nan (m : list (list Z)) (n : nat)
    (purity : bool) :
  Forall (λ r, length r = n) m →
  Forall (Forall (λ c, (0 ≤ c)%Z)) m →
  length (normalize m purity) = length m ∧
  ∀ i j r c, m !! i = Some r → r !! j = Some c →
    let total :=
      if purity then foldr Z.add 0%Z (np_column j m) else foldr Z.add 0%Z r in
    ∃ r', normalize m purity !! i = Some r' ∧
          length r' = n ∧
          r' !! j = Some (if decide (total = 0%Z) then NaN
                          else Finite (inject_Z c / inject_Z total)%Q).
Proof.
  intros Hrect Hpos. unfold normalize. destruct purity.
  - split; [by rewrite length_fmap|]. intros i j r c Hr Hc. cbv zeta.
    set (total := foldr Z.add 0%Z (np_column j m)).
    assert (Hlen : length r = n).
    { rewrite Forall_forall in Hrect. apply Hrect. by eapply list_elem_of_lookup_2. }
    assert (Hj : j < n).
    { rewrite <- Hlen. apply lookup_lt_is_Some. by eexists. }
    assert (Htot : sum_axis0 m !! j = Some total).
    { apply (sum_axis0_lookup n); [done | | done]. intros ->. done. }
    exists (zip_with true_divide r (sum_axis0 m)). split; [|split].
    + by rewrite list_lookup_fmap, Hr.
    + rewrite length_zip_with. apply lookup_lt_Some in Htot.
      assert (length (sum_axis0 m) = n); [|lia].
      destruct m as [|r0 rest]; [done|]. cbn [sum_axis0].
      apply Forall_cons in Hrect as [Hr0 Hrest]. clear -Hr0 Hrest.
      revert r0 Hr0. induction Hrest as [|r1 rest Hr1 _ IH]; intros r0 Hr0; [done|].
      cbn [foldl]. apply IH. rewrite length_zip_with. lia.
    + rewrite lookup_zip_with, Hc, Htot. cbn. f_equal.
      apply true_divide_total. intros Hz.
      apply (sum_nonneg_zero (np_column j m)); [|done|].
      * unfold np_column. apply Forall_fmap, Forall_forall. intros r1 Hr1. cbn.
        rewrite Forall_forall in Hpos. specialize (Hpos _ Hr1).
        destruct (r1 !! j) as [x|] eqn:Ex; cbn; [|done].
        rewrite Forall_forall in Hpos. apply Hpos. by eapply list_elem_of_lookup_2.
      * unfold np_column. apply list_elem_of_fmap. exists r.
        split; [by rewrite Hc | by eapply list_elem_of_lookup_2].
  - unfold sum_axis1. rewrite zip_with_fmap_r, zip_with_diag.
    split; [by rewrite length_fmap|]. intros i j r c Hr Hc. cbv zeta.
    set (total := foldr Z.add 0%Z r).
    exists ((λ c, true_divide c total) <$> r). split; [|split].
    + by rewrite list_lookup_fmap, Hr.
    + rewrite length_fmap. rewrite Forall_forall in Hrect. apply Hrect.
      by eapply list_elem_of_lookup_2.
    + rewrite list_lookup_fmap, Hc. cbn. f_equal.
      apply true_divide_total. intros Hz.
      apply (sum_nonneg_zero r); [|done|by eapply list_elem_of_lookup_2].
      rewrite Forall_forall in Hpos. apply Hpos. by eapply list_elem_of_lookup_2.
Qed.

(** [normalize_zero_total_gives_nan] applies to a matrix whose first class
    has no true sample. *)
Lemma normalize_zero_total_gives_nan_witness :
  let m := [[0; 0]; [1; 2]]%Z in
  Forall (λ r, length r = 2) m ∧
  Forall (Forall (λ c, (0 ≤ c)%Z)) m ∧
  length (normalize m false) = length m.
Proof.
  intros m.
  assert (Hrect : Forall (λ r, length r = 2) m) by (repeat constructor).
  assert (Hpos : Forall (Forall (λ c, (0 ≤ c)%Z)) m) by (repeat constructor; lia).
  split; [exact Hrect|]. split; [exact Hpos|].
  exact (proj1 (normalize_zero_total_gives_nan m 2 false Hrect Hpos)).
Defined.

(** ** The confusion matrix *)

(** C7, at inputs where the code falls short of it.  The matrix that
    [confusion_matrix] builds has one row and one column per label that
    occurs among the true and predicted types, not per class of the class
    list: with the classes SNII and SNIa and only SNIa supernovae, the
    multiclass matrix is 1x1 (and its only row is labelled with the first
    class of the list, SNII), and so is the binary matrix, whose class list
    is CCSN, SNIa. *)
Theorem confusion_matrix_misses_absent_class :
  (∀ y_true y_pred,
     length (confusion_matrix y_true y_pred) = length (unique_labels y_true y_pred) ∧
     Forall (λ r, length r = length (unique_labels y_true y_pred))
            (confusion_matrix y_true y_pred)) ∧
  make_confusion_matrix only_SNIa_results (Some two_classes) 0%Q false false
    = Ok {| cm := [[Finite (2 # 2)]];
            counts := [[2%Z]];
            xticklabels := [(VStr "SNII", 2%Z)];
            yticklabels := [(VStr "SNII", 2%Z)] |} ∧
  make_confusion_matrix only_SNIa_results (Some two_classes) 0%Q false true
    = Ok {| cm := [[Finite (2 # 2)]];
            counts := [[2%Z]];
            xticklabels := [(CCSN, 2%Z)];
            yticklabels := [(CCSN, 2%Z)] |}.
Proof.
  split; [|split; vm_compute; reflexivity].
  intros y_true y_pred. unfold confusion_matrix. split.
  - by rewrite length_fmap.
  - apply Forall_fmap, Forall_forall. intros t _. cbn. by rewrite length_fmap.
Qed.

(** C4 fails in binary mode: for a supernova whose largest probability is
    that of SNIa, but below one half, the class at the argmax is SNIa (the
    multiclass prediction), and relabelling it keeps SNIa, while the binary
    prediction of the code is CCSN. *)
Lemma binary_prediction_is_not_relabelled_argmax :
  confusion_inputs three_class_results (Some three_classes) 0%Q false
    = Ok (three_classes, [SNIa], [SNIa]) ∧
  confusion_inputs three_class_results (Some three_classes) 0%Q true
    = Ok ([CCSN; SNIa], [SNIa], [CCSN]) ∧
  binary_type <$> [SNIa] ≠ [CCSN].
Proof. repeat split; vm_compute; congruence. Qed.

(** *** Arrays: mapping a function that may raise, boolean masks *)

Lemma mapM_result {A B} (f : A → result B) (l : list A) :
  (∀ x, x ∈ l → is_ok (f x)) →
  ∃ k, mapM f l = Ok k ∧ Forall2 (λ x y, f x = Ok y) l k.
Proof.
  induction l as [|x l IH]; intros Hall.
  { exists []. by split; [|constructor]. }
  destruct IH as (k & Hk & HF).
  { intros y Hy. apply Hall. by right. }
  pose proof (Hall x (list_elem_of_here _ _)) as Hx.
  destruct (f x) as [y|e] eqn:E; [|done].
  exists (y :: k). split; [|by constructor].
  cbn. rewrite E. cbn. by rewrite Hk.
Qed.

Lemma mapM_result_fmap {A B} (f : A → result B) (g : A → B) (l : list A) :
  (∀ x, x ∈ l → f x = Ok (g x)) → mapM f l = Ok (g <$> l).
Proof.
  induction l as [|x l IH]; intros Hall; [done|].
  cbn. rewrite (Hall x) by left. cbn. rewrite IH; [done|].
  intros y Hy. apply Hall. by right.
Qed.

Lemma mapM_result_fmap' {A B C} (f : B → result C) (h : A → B) (g : A → C)
    (l : list A) :
  (∀ x, x ∈ l → f (h x) = Ok (g x)) → mapM f (h <$> l) = Ok (g <$> l).
Proof.
  induction l as [|x l IH]; intros Hall; [done|].
  cbn. rewrite (Hall x) by left. cbn. rewrite IH; [done|].
  intros y Hy. apply Hall. by right.
Qed.

Lemma np_select_fmap {A B} (b : A → bool) (f : A → B) (l : list A) :
  np_select (b <$> l) (f <$> l) = Ok (f <$> filter (λ x, b x = true) l).
Proof.
  unfold np_select. rewrite decide_True by by rewrite !length_fmap.
  f_equal. induction l as [|x l IH]; [done|].
  cbn [fmap list_fmap zip_with]. rewrite !filter_cons. cbn [snd].
  destruct (decide (b x = true)); cbn [fmap list_fmap fst]; by rewrite <- IH.
Qed.

Lemma np_select_Forall2 {A B} (R : A → B → Prop) (b : A → bool)
    (l : list A) (k : list B) :
  Forall2 R l k →
  ∃ k', np_select (b <$> l) k = Ok k' ∧ Forall2 R (filter (λ x, b x = true) l) k'.
Proof.
  intros HF. unfold np_select.
  rewrite decide_True by (rewrite length_fmap; by eapply Forall2_length).
  eexists. split; [done|].
  induction HF as [|x y l k Hxy HF IH]; [constructor|].
  cbn [fmap list_fmap zip_with]. rewrite !filter_cons. cbn [snd].
  destruct (decide (b x = true)); cbn [fmap list_fmap fst]; [by constructor | done].
Qed.

Lemma Forall2_compose {A B C} (R : A → B → Prop) (S : B → C → Prop)
    (l : list A) (k : list B) (m : list C) :
  Forall2 R l k → Forall2 S k m → Forall2 (λ x z, ∃ y, R x y ∧ S y z) l m.
Proof.
  intros HR. revert m. induction HR as [|x y l k Hxy HR IH]; intros m HS.
  - inversion HS. constructor.
  - inversion HS as [|? z ? m' Hyz HS']; subst. constructor; eauto.
Qed.

(** *** Argmax and rounding *)

Lemma argmax_from_bound (xs : list Q) :
  ∀ best_i best i, best_i < i → (argmax_from best_i best i xs).1 < i + length xs.
Proof.
  induction xs as [|x xs IH]; intros best_i best i Hi; cbn [argmax_from length].
  { cbn. lia. }
  destruct (Qltb best x).
  - specialize (IH i x (S i)). lia.
  - specialize (IH best_i best (S i)). lia.
Qed.

Lemma np_argmax_bound (xs : list Q) :
  xs ≠ [] → ∃ i, np_argmax xs = Ok i ∧ i < length xs.
Proof.
  destruct xs as [|x xs]; [done|]. intros _. eexists. split; [done|].
  cbn [length]. apply (argmax_from_bound xs 0 x 1). lia.
Qed.

Lemma Qltb_true (a b : Q) : Qltb a b = true ↔ (a < b)%Q.
Proof.
  unfold Qltb. destruct (Qlt_le_dec a b) as [H | H]; split; try done.
  intros H'. by apply Qle_not_lt in H.
Qed.

(** On a probability, rounding to the nearest integer (halves to even) is
    the comparison with one half. *)
Lemma np_round_probability (p : Q) :
  (0 <= p)%Q → (p <= 1)%Q →
  np_round p = if Qltb (1 # 2) p then 1%Z else 0%Z.
Proof.
  intros H0 H1. unfold np_round.
  destruct (Qlt_le_dec p 1) as [Hlt | Hge].
  - assert (Hf : Qfloor p = 0%Z).
    { pose proof (Qfloor_le p) as Hle. pose proof (Qlt_floor p) as Hup.
      assert (inject_Z (Qfloor p) < inject_Z 1)%Q as Hf1.
      { eapply Qle_lt_trans; [exact Hle | exact Hlt]. }
      assert (inject_Z 0 < inject_Z (Qfloor p + 1))%Q as Hf0.
      { eapply Qle_lt_trans; [exact H0 | exact Hup]. }
      rewrite <- Zlt_Qlt in Hf1, Hf0. lia. }
    rewrite Hf.
    assert (Heq : (p - inject_Z 0 == p)%Q) by (unfold inject_Z; ring).
    rewrite Heq.
    destruct (Qcompare_spec p (1 # 2)) as [He | Hl | Hg].
    + cbn. destruct (Qltb (1 # 2) p) eqn:E; [|done].
      apply Qltb_true in E. rewrite He in E. by apply Qlt_irrefl in E.
    + destruct (Qltb (1 # 2) p) eqn:E; [|done].
      apply Qltb_true in E. destruct (Qlt_irrefl p). by eapply Qlt_trans.
    + assert (E : Qltb (1 # 2) p = true) by by apply Qltb_true.
      by rewrite E.
  - assert (Hp : (p == 1)%Q) by by apply Qle_antisym.
    assert (Hf : Qfloor p = 1%Z) by by rewrite Hp.
    rewrite Hf.
    assert (Heq : (p - inject_Z 1 == 0)%Q) by (rewrite Hp; unfold inject_Z; ring).
    rewrite Heq.
    assert (E : Qltb (1 # 2) p = true) by (apply Qltb_true; by rewrite Hp).
    by rewrite E.
Qed.

(** *** The rows that enter the matrix *)

Lemma get_column_rows (name : string) (t : Table) (i : nat) :
  column_index name t = Ok i → get_column name t = Ok (cell_at i <$> rows t).
Proof. unfold get_column. by intros ->. Qed.

Lemma select_unmasked (results : Table) (ti : nat) :
  select_rows ((λ c, negb (cell_mask c)) <$> (cell_at ti <$> rows results)) results
  = Ok {| colnames := colnames results;
          rows := filter (λ r, cell_mask (cell_at ti r) = false) (rows results) |}.
Proof.
  unfold select_rows. rewrite <- list_fmap_compose.
  rewrite <- (list_fmap_id (rows results)) at 2.
  rewrite np_select_fmap. cbn. rewrite list_fmap_id. do 2 f_equal.
  apply list_filter_iff. intros r. cbn. by destruct (cell_mask (cell_at ti r)).
Qed.

(** C4, as the code has it.  Rows whose true type is masked are left out.
    In multiclass mode, for probability vectors that fit the class list, the
    rows that enter the matrix are those whose largest probability exceeds
    [p_min], each with its true type and, as predicted type, the class at the
    argmax of its probabilities.  In binary mode, with SNIa at index [j] of
    the class list and probabilities between 0 and 1, the class list
    becomes CCSN, SNIa, the rows are those whose SNIa probability exceeds
    [p_min] or is below [1 - p_min], each with its true type relabelled
    (every type but SNIa becomes CCSN) and, as predicted type, SNIa when its
    SNIa probability exceeds one half and CCSN otherwise. *)
Theorem confusion_inputs_spec (results : Table) (classes : option (list value))
    (p_min : Q) (ti pi : nat) :
  column_index "type" results = Ok ti →
  column_index "probabilities" results = Ok pi →
  let sntype r := cell_value (cell_at ti r) in
  let probs r := cell_array (cell_at pi r) in
  let labelled := filter (λ r, cell_mask (cell_at ti r) = false) (rows results) in
  let cls := default (np_unique (sntype <$> labelled)) classes in
  ((∀ r, r ∈ labelled → probs r ≠ [] ∧ length (probs r) ≤ length cls) →
   let entering := filter (λ r, confident p_min (probs r) = true) labelled in
   ∃ y_pred,
     confusion_inputs results classes p_min false
       = Ok (cls, sntype <$> entering, y_pred) ∧
     Forall2 (λ r c, ∃ i, np_argmax (probs r) = Ok i ∧ cls !! i = Some c)
             entering y_pred) ∧
  (∀ j, list_find (λ c, c = SNIa) cls = Some (j, SNIa) →
   (∀ r, r ∈ labelled → ∃ p, probs r !! j = Some p ∧ (0 <= p)%Q ∧ (p <= 1)%Q) →
   let entering := filter (λ r, confident_binary p_min j (probs r) = true) labelled in
   ∃ y_pred,
     confusion_inputs results classes p_min true
       = Ok ([CCSN; SNIa], (λ r, binary_type (sntype r)) <$> entering, y_pred) ∧
     Forall2 (λ r c, ∃ p, probs r !! j = Some p ∧
                          c = if Qltb (1 # 2) p then SNIa else CCSN)
             entering y_pred).
Proof.
  intros Hti Hpi sntype probs labelled cls.
  set (results' := {| colnames := colnames results; rows := labelled |}).
  assert (Hti' : column_index "type" results' = Ok ti) by exact Hti.
  assert (Hpi' : column_index "probabilities" results' = Ok pi) by exact Hpi.
  assert (Hprefix : ∀ binary,
    confusion_inputs results classes p_min binary =
    (let types := sntype <$> labelled in
     let probabilities := probs <$> labelled in
     if binary then
       let types := binary_type <$> types in
       i ← match list_find (λ c, c = SNIa) cls return result nat with
           | Some (i, _) => Ok i
           | None => Raise IndexError
           end;
       SNIa_probs ← mapM (λ p, np_index p i) probabilities;
       let classes := [CCSN; SNIa] in
       predicted_types ← mapM (λ p, np_choose (np_round p) classes) SNIa_probs;
       let include :=
         (λ p, Qltb p_min p || Qltb p (1 - p_min)%Q) <$> SNIa_probs in
       y_true ← np_select include types;
       y_pred ← np_select include predicted_types;
       Ok (classes, y_true, y_pred)
     else
       best ← mapM np_argmax probabilities;
       predicted_types ← mapM (np_index cls) best;
       top ← mapM np_max probabilities;
       let include := (λ p, Qltb p_min p) <$> top in
       y_true ← np_select include types;
       y_pred ← np_select include predicted_types;
       Ok (cls, y_true, y_pred))).
  { intros binary. unfold confusion_inputs.
    rewrite (get_column_rows _ _ _ Hti). cbn [mbind result_bind].
    rewrite select_unmasked. fold labelled. fold results'.
    cbn [mbind result_bind].
    rewrite (get_column_rows _ _ _ Hti'), (get_column_rows _ _ _ Hpi').
    cbn [mbind result_bind rows results'].
    by rewrite <- !list_fmap_compose. }
  split.
  - intros Hfit entering. rewrite Hprefix. cbv zeta.
    destruct (mapM_result np_argmax (probs <$> labelled)) as (best & -> & Hbest).
    { intros xs (r & -> & Hr)%list_elem_of_fmap.
      destruct (np_argmax_bound (probs r)) as (i & -> & _); [by apply Hfit | done]. }
    destruct (mapM_result (np_index cls) best) as (predicted & Hpred & HF).
    { intros i Hi. apply list_elem_of_lookup in Hi as [n Hn].
      destruct (Forall2_lookup_r _ _ _ _ _ Hbest Hn) as (xs & Hxs & Hi).
      apply list_lookup_fmap_Some in Hxs as (r & -> & Hr).
      apply list_elem_of_lookup_2 in Hr.
      destruct (np_argmax_bound (probs r)) as (i' & Hi' & Hlt); [by apply Hfit|].
      assert (i' = i) as -> by congruence.
      destruct (lookup_lt_is_Some_2 cls i) as [c Hc].
      { destruct (Hfit r Hr). lia. }
      unfold np_index. by rewrite Hc. }
    cbn [mbind result_bind]. rewrite Hpred. cbn [mbind result_bind].
    rewrite (mapM_result_fmap np_max
               (λ xs, match np_max xs with Ok m => m | Raise _ => 0%Q end)).
    2:{ intros xs (r & -> & Hr)%list_elem_of_fmap.
        destruct (probs r) as [|x xs'] eqn:E; [by destruct (Hfit r Hr)|done]. }
    cbn [mbind result_bind]. rewrite <- !list_fmap_compose.
    assert (Hincl : ∀ r, r ∈ labelled →
              (Qltb p_min ∘ (λ xs, match np_max xs with Ok m => m | Raise _ => 0%Q end) ∘ probs) r
              = confident p_min (probs r)).
    { intros r Hr. unfold confident. cbn.
      destruct (probs r) as [|x xs'] eqn:E; [by destruct (Hfit r Hr)|done]. }
    rewrite (list_fmap_ext _ (λ r, confident p_min (probs r)) labelled)
      by (intros ? r Hr; apply Hincl; by eapply list_elem_of_lookup_2).
    rewrite np_select_fmap. cbn [mbind result_bind].
    assert (HF' : Forall2 (λ r c, ∃ i, np_argmax (probs r) = Ok i ∧ cls !! i = Some c)
                    labelled predicted).
    { apply Forall2_fmap_l in Hbest.
      eapply Forall2_impl; [exact (Forall2_compose _ _ _ _ _ Hbest HF)|].
      intros r c (i & Hi & Hc). exists i. split; [done|].
      unfold np_index in Hc. by destruct (cls !! i); simplify_eq. }
    destruct (np_select_Forall2 _ (λ r, confident p_min (probs r)) _ _ HF')
      as (y_pred & -> & Hy).
    exists y_pred. by split.
  - intros j Hj Hprob entering. rewrite Hprefix. cbv zeta. rewrite Hj.
    cbn [mbind result_bind].
    set (SNIa_prob := λ r, default 0%Q (probs r !! j)).
    assert (Hp : ∀ r, r ∈ labelled →
               probs r !! j = Some (SNIa_prob r) ∧
               (0 <= SNIa_prob r)%Q ∧ (SNIa_prob r <= 1)%Q).
    { intros r Hr. destruct (Hprob r Hr) as (p & Hp & H0 & H1).
      unfold SNIa_prob. by rewrite Hp. }
    rewrite (mapM_result_fmap _ (λ xs, default 0%Q (xs !! j))).
    2:{ intros xs (r & -> & Hr)%list_elem_of_fmap. unfold np_index.
        by rewrite (proj1 (Hp r Hr)). }
    cbn [mbind result_bind]. rewrite <- !list_fmap_compose.
    change ((λ xs : list Q, default 0%Q (xs !! j)) ∘ probs) with SNIa_prob.
    rewrite (mapM_result_fmap' _ SNIa_prob
               (λ r, if Qltb (1 # 2) (SNIa_prob r) then SNIa else CCSN)).
    2:{ intros r Hr. destruct (Hp r Hr) as (_ & H0 & H1). cbn.
        rewrite (np_round_probability _ H0 H1). by destruct (Qltb (1 # 2) (SNIa_prob r)). }
    cbn [mbind result_bind].
    rewrite (list_fmap_ext _ (λ r, confident_binary p_min j (probs r)) labelled).
    2:{ intros ? r Hr%list_elem_of_lookup_2. cbn. unfold confident_binary.
        by rewrite (proj1 (Hp r Hr)). }
    rewrite !np_select_fmap. cbn [mbind result_bind].
    eexists. split; [done|].
    apply Forall2_fmap_r, Forall_Forall2_diag, Forall_forall.
    intros r [_ Hr]%list_elem_of_filter. exists (SNIa_prob r).
    split; [by apply Hp | done].
Qed.

(** [confusion_inputs_spec] applies to the table of one supernova and three
    classes. *)
Lemma confusion_inputs_spec_witness :
  column_index "type" three_class_results = Ok 1 ∧
  column_index "probabilities" three_class_results = Ok 2 ∧
  ∃ y_true y_pred,
    confusion_inputs three_class_results (Some three_classes) 0%Q false
      = Ok (three_classes, y_true, y_pred).
Proof.
  split; [reflexivity|]. split; [reflexivity|].
  destruct (confusion_inputs_spec three_class_results (Some three_classes) 0%Q
              1 2 eq_refl eq_refl) as [Hmulti _].
  destruct Hmulti as (y_pred & Heq & _).
  - intros r Hr. apply list_elem_of_singleton in Hr as ->.
    split; [discriminate | vm_compute; lia].
  - eexists _, y_pred. exact Heq.
Defined.

(** ** Classification and cross-validation *)

Lemma column_index_lt (name : string) (t : Table) (i : nat) :
  column_index name t = Ok i → i < length (colnames t) ∧ colnames t !! i = Some name.
Proof.
  unfold column_index.
  destruct (list_find _ _) as [[j c]|] eqn:E; [|done].
  intros [= ->]. apply list_find_Some in E as (Hj & -> & _).
  split; [by eapply lookup_lt_Some | done].
Qed.

Lemma fmap_zip_with_cancel {A B C} (f : A → B → C) (g : C → B)
    (l : list A) (k : list B) :
  length k = length l → (∀ a b, a ∈ l → g (f a b) = b) →
  g <$> zip_with f l k = k.
Proof.
  revert k. induction l as [|a l IH]; intros [|b k] Hlen Hfg; try done.
  cbn. rewrite Hfg by left. f_equal. apply IH; [by injection Hlen|].
  intros a' b' Ha'. apply Hfg. by right.
Qed.

Lemma cell_at_insert (i : nat) (v : cell) (r : list cell) :
  i < length r → cell_at i (<[i := v]> r) = v.
Proof. intros Hi. unfold cell_at. by rewrite list_lookup_insert_eq. Qed.

Lemma cell_at_snoc (v : cell) (r : list cell) : cell_at (length r) (r ++ [v]) = v.
Proof. unfold cell_at. by rewrite list_lookup_middle. Qed.

Lemma get_column_ok (name : string) (t : Table) :
  is_ok (get_column name t) ↔ is_Some (list_find (λ c, c = name) (colnames t)).
Proof.
  unfold get_column, column_index.
  destruct (list_find _ _) as [[i c]|]; cbn; split; done.
Qed.

(** Assigning a column of the right length to a well-formed table: the
    table stays well formed, the column holds the new entries, and the
    columns that could be read before can still be read. *)
Lemma set_column_spec (name : string) (vals : list cell) (t : Table) :
  well_formed t → length vals = length (rows t) →
  ∃ t', set_column name vals t = Ok t' ∧
        well_formed t' ∧
        length (rows t') = length (rows t) ∧
        get_column name t' = Ok vals ∧
        (∀ other, is_ok (get_column other t) → is_ok (get_column other t')).
Proof.
  unfold well_formed. intros Hwf Hlen. unfold set_column.
  destruct (colnames t) as [|c0 cs] eqn:Ecols.
  { eexists. split; [done|]. split; [|split; [|split]].
    - apply Forall_fmap, Forall_forall. by intros.
    - cbn. by rewrite length_fmap.
    - unfold get_column, column_index. cbn. rewrite decide_True by done. cbn.
      rewrite <- list_fmap_compose. by rewrite list_fmap_id.
    - intros other [[i c] Hfind]%get_column_ok. by rewrite Ecols in Hfind. }
  rewrite <- Ecols in *. clear Ecols c0 cs. rewrite decide_True by done.
  rewrite Forall_forall in Hwf.
  destruct (list_find (λ c, c = name) (colnames t)) as [[i c]|] eqn:E.
  - pose proof E as (Hi%lookup_lt_Some & _ & _)%list_find_Some.
    eexists. split; [done|]. split; [|split; [|split]].
    + apply Forall_forall. intros r' (r & v & -> & Hr & _)%elem_of_zip_with.
      rewrite length_insert. by apply Hwf.
    + cbn. rewrite length_zip_with. lia.
    + unfold get_column, column_index. cbn [colnames rows]. rewrite E. cbn.
      apply f_equal, fmap_zip_with_cancel; [done|].
      intros r v Hr. apply cell_at_insert. by rewrite (Hwf r Hr).
    + intros other. by rewrite !get_column_ok.
  - eexists. split; [done|]. split; [|split; [|split]].
    + apply Forall_forall. intros r' (r & v & -> & Hr & _)%elem_of_zip_with.
      cbn. rewrite !length_app. cbn. by rewrite (Hwf r Hr).
    + cbn. rewrite length_zip_with. lia.
    + unfold get_column, column_index. cbn [colnames rows].
      rewrite (list_find_app_r _ _ _ E). cbn. rewrite decide_True by done. cbn.
      apply f_equal, fmap_zip_with_cancel; [done|].
      intros r v Hr. rewrite <- (Hwf r Hr). apply cell_at_snoc.
    + intros other. rewrite !get_column_ok. cbn [colnames].
      intros [[j c] Hfind]. exists (j, c). by apply list_find_app_l.
Qed.

Section EngineFacts.
Context {Pipeline : Type}.
Variable pipeline_fit : Pipeline → list (list Q) → list cell → Pipeline.
Variable predict_proba : Pipeline → list (list Q) → list (list Q).
Variable meta_columns : list string.
Variable fill_value : string → value.
Hypothesis predict_proba_shape : ∀ p X, length (predict_proba p X) = length X.

Local Abbreviation world := (@world Pipeline).
Local Abbreviation train_classifier := (train_classifier pipeline_fit).
Local Abbreviation write_probabilities := (write_probabilities predict_proba).
Local Abbreviation finish := (finish meta_columns fill_value).
Local Abbreviation classify := (classify predict_proba meta_columns fill_value).
Local Abbreviation cross_validation_step :=
  (cross_validation_step pipeline_fit predict_proba).
Local Abbreviation cross_validation :=
  (cross_validation pipeline_fit predict_proba).
Local Abbreviation validate_classifier :=
  (validate_classifier pipeline_fit predict_proba meta_columns fill_value).

Lemma features_2d_ok (t : Table) (X : list (list Q)) :
  features_2d t = Ok X → length X = length (rows t) ∧ rows t ≠ [].
Proof.
  unfold features_2d, get_column.
  destruct (column_index "features" t) as [i|e]; [|done]. cbn.
  destruct (rows t) as [|r rs] eqn:Er; [done|].
  intros [= <-]. split; [|done]. cbn. by rewrite !length_fmap.
Qed.

(** Writing the predictions into the table at [test_data]. *)
Lemma write_probabilities_spec (w : world) (test_data : loc) (test : Table)
    (X : list (list Q)) :
  tables w !! test_data = Some test → well_formed test → features_2d test = Ok X →
  let predicted := Array <$> predict_proba (the_pipeline w) X in
  ∃ test',
    set_column "probabilities" predicted test = Ok test' ∧
    get_column "probabilities" test' = Ok predicted ∧
    length (rows test') = length (rows test) ∧
    (∀ other, is_ok (get_column other test) → is_ok (get_column other test')) ∧
    write_probabilities test_data w
      = (Ok (), {| the_pipeline := the_pipeline w;
                   tables := <[test_data := test']> (tables w) |}).
Proof.
  intros Hlook Hwf HX predicted.
  destruct (features_2d_ok _ _ HX) as [HlenX _].
  destruct (set_column_spec "probabilities" predicted test Hwf)
    as (test' & Hset & _ & Hlen & Hget & Hother).
  { unfold predicted. by rewrite length_fmap, predict_proba_shape. }
  exists test'. repeat split; try done.
  unfold write_probabilities.
  rewrite (lookup_total_correct _ _ _ Hlook), HX. cbn [mbind result_bind].
  fold predicted. by rewrite Hset.
Qed.

(** The body of the cross-validation loop never completes: whatever the
    tables hold, it raises and leaves the world as it was. *)
Lemma cross_validation_step_raises (train_data test_data : loc) (w : world)
    (filename : cell) :
  ∃ e, cross_validation_step train_data test_data w filename = (Raise e, w).
Proof.
  unfold cross_validation_step.
  destruct (get_column "filename" (tables w !!! train_data)) as [train_names|e];
    cbn [mbind result_bind]; [|by eexists].
  destruct (get_column "filename" (tables w !!! test_data)) as [test_names|e];
    cbn [mbind result_bind]; [|by eexists].
  destruct (select_rows _ _) as [fold|e]; cbn [mbind result_bind]; by eexists.
Qed.

Lemma cross_validation_step_type_error (train_data test_data : loc) (w : world)
    (filename : cell) :
  is_ok (get_column "filename" (tables w !!! train_data)) →
  is_ok (get_column "filename" (tables w !!! test_data)) →
  cross_validation_step train_data test_data w filename
    = (Raise missing_train_data, w).
Proof.
  intros Htrain Htest.
  unfold cross_validation_step.
  destruct (get_column "filename" (tables w !!! train_data)) as [train_names|e] eqn:E;
    [|done].
  destruct (get_column "filename" (tables w !!! test_data)) as [test_names|e'];
    [|done].
  cbn [mbind result_bind].
  unfold select_rows, np_select. rewrite decide_True; [done|].
  unfold get_column in E. destruct (column_index _ _); [|done].
  injection E as <-. by rewrite !length_fmap.
Qed.

Lemma cross_validation_world (train_data test_data : loc) (w : world)
    (filenames : list cell) :
  ∃ r, cross_validation train_data test_data w filenames = (r, w).
Proof.
  destruct filenames as [|filename rest]; [by eexists|].
  cbn [cross_validation].
  destruct (cross_validation_step_raises train_data test_data w filename)
    as [e He].
  rewrite He. by eexists.
Qed.

(** [finish] leaves the tables that exist as they are. *)
Lemma finish_tables (test_data : loc) (aggregate : bool) (w : world) :
  ∃ r w', finish test_data aggregate w = (r, w') ∧
    the_pipeline w' = the_pipeline w ∧
    (aggregate = false → r = Ok test_data ∧ w' = w) ∧
    (∀ l, l ∈ dom (tables w) → tables w' !! l = tables w !! l).
Proof.
  unfold finish. destruct aggregate.
  - destruct (aggregate_probabilities _ _ _) as [results|e].
    + eexists _, _. split; [done|]. repeat split; try done.
      intros l Hl. cbn. apply lookup_insert_ne. intros <-.
      by apply (is_fresh (dom (tables w))).
    + eexists _, _. split; [done|]. by repeat split.
  - eexists _, _. split; [done|]. by repeat split.
Qed.

(** [validate_classifier] from start to end: it fits the pipeline on the
    whole training table, writes that pipeline's predictions into the
    evaluation table and, as soon as the training table has a row, raises
    in the first iteration of its loop. *)
Lemma validate_classifier_run (w : world) (train_data : loc)
    (test_data : option loc) (aggregate : bool) (train test : Table)
    (X_train : list (list Q)) (y_train : list cell) (X_test : list (list Q)) :
  let evaluated := default train_data test_data in
  let fitted := pipeline_fit (the_pipeline w) X_train y_train in
  let predicted := Array <$> predict_proba fitted X_test in
  tables w !! train_data = Some train →
  tables w !! evaluated = Some test →
  well_formed test →
  features_2d train = Ok X_train →
  get_column "type" train = Ok y_train →
  features_2d test = Ok X_test →
  ∃ test' r w',
    set_column "probabilities" predicted test = Ok test' ∧
    get_column "probabilities" test' = Ok predicted ∧
    validate_classifier train_data test_data aggregate w = (r, w') ∧
    the_pipeline w' = fitted ∧
    tables w' !! evaluated = Some test' ∧
    (∀ l, l ∈ dom (tables w) → l ≠ evaluated → tables w' !! l = tables w !! l) ∧
    (is_ok (get_column "filename" train) →
     is_ok (get_column "filename" test) →
     r = Raise missing_train_data ∧
     w' = {| the_pipeline := fitted; tables := <[evaluated := test']> (tables w) |}).
Proof.
  intros evaluated fitted predicted Htrain Htest Hwf HXtrain Hy HXtest.
  set (w0 := {| the_pipeline := fitted; tables := tables w |}).
  destruct (write_probabilities_spec w0 evaluated test X_test Htest Hwf HXtest)
    as (test' & Hset & Hget & Hlen & Hother & Hwrite).
  set (w1 := {| the_pipeline := the_pipeline w0;
                tables := <[evaluated := test']> (tables w0) |}) in *.
  assert (Hev : tables w1 !! evaluated = Some test') by apply lookup_insert_eq.
  assert (Hframe : ∀ l, l ≠ evaluated → tables w1 !! l = tables w !! l).
  { intros l Hl. by apply lookup_insert_ne. }
  assert (Hdom : ∀ l, l ∈ dom (tables w) → l ∈ dom (tables w1)).
  { intros l Hl. cbn. rewrite dom_insert. set_solver. }
  exists test'.
  unfold validate_classifier.
  fold evaluated. cbn [train_classifier].
  rewrite (lookup_total_correct _ _ _ Htrain), HXtrain, Hy.
  cbn [mbind result_bind]. fold fitted. fold w0.
  rewrite Hwrite.
  set (T := tables w1 !!! train_data).
  assert (HT : is_ok (get_column "filename" train) →
               is_ok (get_column "filename" test) →
               is_ok (get_column "filename" T) ∧ rows T ≠ []).
  { intros Hf Hf'. unfold T. destruct (decide (train_data = evaluated)) as [Heq|Hne].
    - rewrite Heq, (lookup_total_correct _ _ _ Hev).
      split; [by apply Hother|]. intros Hnil.
      rewrite Hnil in Hlen. destruct (features_2d_ok _ _ HXtest) as [_ Hrows].
      by destruct (rows test).
    - rewrite (lookup_total_correct _ _ train).
      + split; [done|]. by destruct (features_2d_ok _ _ HXtrain).
      + by rewrite Hframe. }
  destruct (get_column "filename" T) as [filenames|e] eqn:Efn.
  2:{ eexists _, _.
      split; [done|]. split; [done|]. split; [done|]. split; [done|].
      split; [done|]. split.
      - intros l _ Hl. by apply Hframe.
      - intros Hf Hf'. by destruct (HT Hf Hf') as [? _]. }
  destruct (cross_validation_world train_data evaluated w1 filenames) as [r Hr].
  rewrite Hr.
  destruct r as [[]|e].
  - destruct (finish_tables evaluated aggregate w1) as (r & w' & Hfin & Hp & _ & Hkeep).
    rewrite Hfin. exists r, w'.
    split; [done|]. split; [done|]. split; [done|]. split; [done|].
    split; [|split].
    + rewrite Hkeep; [done|]. apply elem_of_dom. by eexists.
    + intros l Hl Hne. rewrite Hkeep by by apply Hdom. by apply Hframe.
    + intros Hf Hf'. exfalso. destruct (HT Hf Hf') as [_ Hrows].
      destruct filenames as [|filename rest].
      * unfold get_column in Efn. destruct (column_index _ _); [|done].
        injection Efn as Efn. apply fmap_nil_inv in Efn. done.
      * cbn [cross_validation] in Hr.
        destruct (cross_validation_step_raises train_data evaluated w1 filename)
          as [e He].
        by rewrite He in Hr.
  - exists (Raise e), w1.
    split; [done|]. split; [done|]. split; [done|]. split; [done|].
    split; [done|]. split.
    + intros l _ Hl. by apply Hframe.
    + intros Hf Hf'. destruct (HT Hf Hf') as [Hok Hrows].
      destruct filenames as [|filename rest]; [done|].
      cbn [cross_validation] in Hr.
      rewrite (cross_validation_step_type_error train_data evaluated w1 filename) in Hr.
      * by injection Hr as <-.
      * fold T. by rewrite Efn.
      * rewrite (lookup_total_correct _ _ _ Hev). by apply Hother.
Qed.

(** C1, where the code falls short of it.  For every training table with
    at least one row (and the columns the function reads) and every
    evaluation table, [validate_classifier] fits the pipeline on the whole
    training table and fills the probabilities with that pipeline's
    predictions; the first iteration of its loop then calls
    [train_classifier] with one argument and raises [TypeError].  No fold is
    ever refit: the function does not return, the pipeline stays the one
    trained on every group, and every evaluation row keeps the prediction of
    that pipeline. *)
Theorem validate_classifier_raises_before_refit (w : world) (train_data : loc)
    (test_data : option loc) (aggregate : bool) (train test : Table)
    (X_train : list (list Q)) (y_train : list cell) (X_test : list (list Q)) :
  let evaluated := default train_data test_data in
  let fitted := pipeline_fit (the_pipeline w) X_train y_train in
  let predicted := Array <$> predict_proba fitted X_test in
  tables w !! train_data = Some train →
  tables w !! evaluated = Some test →
  well_formed test →
  features_2d train = Ok X_train →
  get_column "type" train = Ok y_train →
  is_ok (get_column "filename" train) →
  features_2d test = Ok X_test →
  is_ok (get_column "filename" test) →
  ∃ test',
    validate_classifier train_data test_data aggregate w
      = (Raise missing_train_data,
         {| the_pipeline := fitted;
            tables := <[evaluated := test']> (tables w) |}) ∧
    set_column "probabilities" predicted test = Ok test' ∧
    get_column "probabilities" test' = Ok predicted.
Proof.
  intros evaluated fitted predicted Htrain Htest Hwf HXtrain Hy Hf HXtest Hf'.
  destruct (validate_classifier_run w train_data test_data aggregate train test
              X_train y_train X_test Htrain Htest Hwf HXtrain Hy HXtest)
    as (test' & r & w' & Hset & Hget & Hrun & _ & _ & _ & Herr).
  destruct (Herr Hf Hf') as [-> ->]. exists test'. by repeat split.
Qed.

(** C9: [classify] and [validate_classifier] write the ['probabilities']
    column into the table object they are given, whatever it held before;
    the caller's table is changed whether the function returns or raises,
    the other tables are not touched, and without aggregation [classify]
    returns that same object. *)
Theorem predictions_are_written_in_place (w : world) (test_data : loc)
    (aggregate : bool) (test : Table) (X : list (list Q)) :
  tables w !! test_data = Some test →
  well_formed test →
  features_2d test = Ok X →
  (∃ test' r w',
     classify test_data aggregate w = (r, w') ∧
     tables w' !! test_data = Some test' ∧
     get_column "probabilities" test'
       = Ok (Array <$> predict_proba (the_pipeline w) X) ∧
     (aggregate = false → r = Ok test_data) ∧
     (∀ l, l ∈ dom (tables w) → l ≠ test_data → tables w' !! l = tables w !! l)) ∧
  (∀ train_data test_arg train X_train y_train,
     default train_data test_arg = test_data →
     tables w !! train_data = Some train →
     features_2d train = Ok X_train →
     get_column "type" train = Ok y_train →
     ∃ test' r w',
       validate_classifier train_data test_arg aggregate w = (r, w') ∧
       tables w' !! test_data = Some test' ∧
       get_column "probabilities" test'
         = Ok (Array <$> predict_proba
                 (pipeline_fit (the_pipeline w) X_train y_train) X) ∧
       (∀ l, l ∈ dom (tables w) → l ≠ test_data → tables w' !! l = tables w !! l)).
Proof.
  intros Htest Hwf HX. split.
  - destruct (write_probabilities_spec w test_data test X Htest Hwf HX)
      as (test' & Hset & Hget & _ & _ & Hwrite).
    set (w1 := {| the_pipeline := the_pipeline w;
                  tables := <[test_data := test']> (tables w) |}) in *.
    destruct (finish_tables test_data aggregate w1) as (r & w' & Hfin & _ & Hsame & Hkeep).
    exists test', r, w'. unfold classify. rewrite Hwrite.
    split; [done|]. split; [|split; [done|split]].
    + rewrite Hkeep; [apply lookup_insert_eq|]. cbn. rewrite dom_insert.
      apply elem_of_union_l, elem_of_singleton_2. done.
    + intros Hagg. by destruct (Hsame Hagg).
    + intros l Hl Hne. rewrite Hkeep.
      * by apply lookup_insert_ne.
      * cbn. rewrite dom_insert. by apply elem_of_union_r.
  - intros train_data test_arg train X_train y_train Hev Htrain HXtrain Hy.
    rewrite <- Hev in Htest.
    destruct (validate_classifier_run w train_data test_arg aggregate train test
                X_train y_train X Htrain Htest Hwf HXtrain Hy HX)
      as (test' & r & w' & _ & Hget & Hrun & _ & Hlook & Hframe & _).
    rewrite Hev in Hlook, Hframe. by exists test', r, w'.
Qed.

End EngineFacts.

Lemma demo_predict_proba_shape (p : list cell) (X : list (list Q)) :
  length (demo_predict_proba p X) = length X.
Proof. apply length_fmap. Qed.

Lemma demo_train_well_formed : well_formed demo_train.
Proof. repeat constructor. Qed.

(** [validate_classifier_raises_before_refit] applies to a training table
    of three draws of two supernovae, validated on itself. *)
Lemma validate_classifier_raises_before_refit_witness :
  ∃ test',
    validate_classifier demo_fit demo_predict_proba demo_meta_columns
      demo_fill_value 0 None true demo_world
    = (Raise missing_train_data,
       {| the_pipeline := cell_at 1 <$> rows demo_train;
          tables := <[0 := test']> (tables demo_world) |}).
Proof.
  destruct (validate_classifier_raises_before_refit demo_fit demo_predict_proba
              demo_meta_columns demo_fill_value demo_predict_proba_shape
              demo_world 0 None true demo_train demo_train
              [[1%Q]; [2%Q]; [3%Q]] (cell_at 1 <$> rows demo_train)
              [[1%Q]; [2%Q]; [3%Q]]
              eq_refl eq_refl demo_train_well_formed eq_refl eq_refl I eq_refl I)
    as (test' & Hrun & _).
  exists test'. exact Hrun.
Defined.

(** [predictions_are_written_in_place] applies to the same table. *)
Lemma predictions_are_written_in_place_witness :
  ∃ test' r w',
    classify demo_predict_proba demo_meta_columns demo_fill_value 0 false demo_world
      = (r, w') ∧
    tables w' !! 0 = Some test' ∧
    r = Ok 0.
Proof.
  destruct (predictions_are_written_in_place (Pipeline := list cell) demo_fit
              demo_predict_proba demo_meta_columns demo_fill_value
              demo_predict_proba_shape demo_world 0 false demo_train
              [[1%Q]; [2%Q]; [3%Q]] eq_refl demo_train_well_formed eq_refl)
    as [(test' & r & w' & Hrun & Hlook & _ & Hret & _) _].
  exists test', r, w'. split; [exact Hrun|]. split; [exact Hlook|]. by apply Hret.
Defined.

(** ** Aggregation *)

Lemma mapM_result_Forall2 {A B} (f : A → result B) (l : list A) (k : list B) :
  Forall2 (λ x y, f x = Ok y) l k → mapM f l = Ok k.
Proof.
  induction 1 as [|x y l k Hxy _ IH]; [done|]. cbn. rewrite Hxy. cbn. by rewrite IH.
Qed.

Lemma filter_fmap {A B} (P : B → Prop) `{!∀ b, Decision (P b)} (f : A → B)
    (l : list A) :
  filter P (f <$> l) = f <$> filter (λ a, P (f a)) l.
Proof.
  induction l as [|a l IH]; [done|]. rewrite fmap_cons, !filter_cons.
  destruct (decide (P (f a))); by rewrite ?fmap_cons, IH.
Qed.

Lemma filter_ext_in {A} (P Q : A → Prop) `{!∀ a, Decision (P a)}
    `{!∀ a, Decision (Q a)} (l : list A) :
  (∀ a, a ∈ l → P a ↔ Q a) → filter P l = filter Q l.
Proof.
  induction l as [|a l IH]; intros Hall; [done|].
  rewrite !filter_cons.
  destruct (decide (P a)) as [HP|HP], (decide (Q a)) as [HQ|HQ].
  - f_equal. apply IH. intros b Hb. apply Hall. by right.
  - destruct HQ. by apply (Hall a); [left|].
  - destruct HP. by apply (Hall a); [left|].
  - apply IH. intros b Hb. apply Hall. by right.
Qed.

Lemma filter_eq_nodup {A} `{!EqDecision A} (l : list A) (x : A) :
  NoDup l → x ∈ l → filter (λ y, y = x) l = [x].
Proof.
  induction 1 as [|y l Hy Hnd IH]; [by intros ?%elem_of_nil|].
  rewrite filter_cons. intros [-> | Hx]%elem_of_cons.
  - rewrite decide_True by done. f_equal. apply filter_none.
    intros z Hz ->. done.
  - rewrite decide_False by (intros ->; done). by apply IH.
Qed.

Lemma list_find_nodup (l : list string) (j : nat) (n : string) :
  NoDup l → l !! j = Some n → list_find (λ c, c = n) l = Some (j, n).
Proof.
  intros Hnd Hj. apply list_find_Some. split; [done|]. split; [done|].
  intros i y Hi Hlt ->. pose proof (NoDup_lookup _ _ _ _ Hnd Hi Hj). lia.
Qed.

Lemma mapM_column_index_prefix (metas rest : list string) (rs : list (list cell)) :
  NoDup (metas ++ rest) →
  mapM (λ n, column_index n {| colnames := metas ++ rest; rows := rs |}) metas
  = Ok (seq 0 (length metas)).
Proof.
  intros Hnd. apply mapM_result_Forall2.
  apply Forall2_same_length_lookup_2; [by rewrite length_seq|].
  intros i n j Hn Hj. apply lookup_seq in Hj as [-> _].
  unfold column_index. cbn [colnames].
  by rewrite (list_find_nodup _ i n Hnd) by by apply lookup_app_l_Some.
Qed.

Lemma row_key_seq (cells rest : list cell) :
  row_key (seq 0 (length cells)) (cells ++ rest) = cell_value <$> cells.
Proof.
  unfold row_key. apply list_eq. intros i.
  rewrite !list_lookup_fmap.
  destruct (decide (i < length cells)) as [Hi|Hi].
  - rewrite lookup_seq_lt by done. cbn. unfold cell_at.
    rewrite lookup_app_l by done.
    by destruct (lookup_lt_is_Some_2 cells i Hi) as [c ->].
  - rewrite lookup_seq_ge by lia. by rewrite lookup_ge_None_2 by lia.
Qed.

Lemma imap_cell_at {A} (cells rest : list cell) (names : list A) :
  length names = length cells →
  imap (λ j _, cell_at j (cells ++ rest)) names = cells.
Proof.
  intros Hlen. apply list_eq. intros i. rewrite list_lookup_imap.
  destruct (decide (i < length cells)) as [Hi|Hi].
  - destruct (lookup_lt_is_Some_2 names i) as [n ->]; [lia|]. cbn.
    unfold cell_at. rewrite lookup_app_l by done.
    by destruct (lookup_lt_is_Some_2 cells i Hi) as [c ->].
  - by rewrite !lookup_ge_None_2 by lia.
Qed.

Lemma cell_array_filled (fill_value : string → value) (c : cell) (name : string) :
  cell_array (filled_cell fill_value c name) = cell_array c.
Proof. by destruct c as [d []|xs]. Qed.

(** The mean of a single probability vector is that vector. *)
Lemma mean_axis0_singleton (xs : list Q) : mean_axis0 [xs] = xs.
Proof.
  unfold mean_axis0. cbn [foldl length].
  rewrite <- (list_fmap_id xs) at 2. apply list_fmap_ext. intros _ [n d] _.
  unfold Qdiv, Qmult, Qinv, inject_Z. cbn.
  by rewrite Z.mul_1_r, Pos.mul_1_r.
Qed.

Section AggregationFacts.
Variable meta_columns : list string.
Variable fill_value : string → value.

Local Abbreviation metadata := (metadata fill_value).
Local Abbreviation aggregate_probabilities :=
  (aggregate_probabilities meta_columns fill_value).

Local Abbreviation selected := (selected fill_value).

Lemma metadata_length (metas : list string) (t : Table) (r : list cell) :
  length (metadata metas t r) = length metas.
Proof. unfold metadata. by rewrite length_fmap. Qed.

Lemma metadata_cells (metas : list string) (midx : list nat) (t : Table)
    (r : list cell) :
  Forall2 (λ n i, column_index n t = Ok i) metas midx →
  (∀ name, name ∈ metas → scalar_column name t) →
  r ∈ rows t →
  zip_with (filled_cell fill_value) ((λ i, cell_at i r) <$> midx) metas
  = (λ v, Scalar v false) <$> metadata metas t r.
Proof.
  intros HF Hscalar Hr. unfold metadata.
  induction HF as [|n i metas midx Hn _ IH]; [done|].
  cbn. rewrite Hn. rewrite IH by (intros name Hname; apply Hscalar; by right).
  f_equal.
  destruct (Hscalar n (list_elem_of_here _ _) i r Hn Hr) as (d & m & Hcell).
  unfold cell_at. rewrite Hcell. cbn. by destruct m.
Qed.

Lemma select_fill (t : Table) (pi : nat) :
  NoDup (colnames t) →
  column_index "probabilities" t = Ok pi →
  "probabilities" ∉ meta_columns →
  (∀ name, name ∈ meta_columns → scalar_column name t) →
  let metas := filter (λ c, c ∈ meta_columns) (colnames t) in
  NoDup (metas ++ ["probabilities"]) ∧
  ∃ table,
    select_columns (metas ++ ["probabilities"]) t = Ok table ∧
    colnames table = metas ++ ["probabilities"] ∧
    filled fill_value table
    = {| colnames := metas ++ ["probabilities"];
         rows := selected metas t pi <$> rows t |}.
Proof.
  intros Hnd Hpi Hp Hscalar metas.
  assert (Hnames : NoDup (metas ++ ["probabilities"])).
  { apply NoDup_app. split; [by apply NoDup_filter|]. split; [|apply NoDup_singleton].
    intros n [Hn _]%list_elem_of_filter ->%list_elem_of_singleton. done. }
  split; [done|].
  destruct (mapM_result (λ n, column_index n t) metas) as (midx & Hmidx & HF).
  { intros n [_ Hn]%list_elem_of_filter. apply list_elem_of_lookup in Hn as [j Hj].
    unfold column_index. by rewrite (list_find_nodup _ j n Hnd Hj). }
  assert (Hidx : mapM (λ n, column_index n t) (metas ++ ["probabilities"])
                 = Ok (midx ++ [pi])).
  { apply mapM_result_Forall2, Forall2_app; [done|]. by repeat constructor. }
  eexists. unfold select_columns. rewrite decide_True by done.
  rewrite Hidx. cbn [mbind result_bind]. split; [done|]. split; [done|].
  unfold filled. cbn [colnames rows]. f_equal.
  rewrite <- list_fmap_compose. apply Forall_fmap_ext, Forall_forall.
  intros r Hr. unfold selected. cbn. rewrite fmap_app.
  rewrite zip_with_app by (rewrite length_fmap; symmetry; by eapply Forall2_length).
  f_equal. apply (metadata_cells metas midx t r HF); [|done].
  intros name [Hname _]%list_elem_of_filter. by apply Hscalar.
Qed.

Lemma selected_key (metas : list string) (t : Table) (pi : nat) (r : list cell) :
  row_key (seq 0 (length metas)) (selected metas t pi r) = metadata metas t r.
Proof.
  unfold selected.
  rewrite <- (metadata_length metas t r) at 1.
  rewrite <- (length_fmap (λ v, Scalar v false)).
  rewrite row_key_seq, <- list_fmap_compose. apply list_fmap_id.
Qed.

Lemma aggregate_group (metas : list string) (t : Table) (pi : nat)
    (r : list cell) (rest : list (list cell)) :
  "probabilities" ∉ metas →
  let first := selected metas t pi r in
  imap (λ j name,
          if decide (name ∈ metas) then cell_at j first
          else Array (mean_axis0 ((λ r, cell_array (cell_at j r)) <$> first :: rest)))
       (metas ++ ["probabilities"])
  = aggregated (length metas)
      (row_key (seq 0 (length metas)) first, first :: rest).
Proof.
  intros Hp first. rewrite imap_app. unfold aggregated. cbn [fst snd]. f_equal.
  - subst first. rewrite selected_key.
    transitivity (imap (λ j (_ : string), cell_at j (selected metas t pi r)) metas).
    + apply imap_ext. intros j name Hj. cbn.
      rewrite decide_True; [done | by eapply list_elem_of_lookup_2].
    + unfold selected. apply imap_cell_at.
      by rewrite length_fmap, metadata_length.
  - cbn. rewrite decide_False by done. by rewrite Nat.add_0_r.
Qed.

(** Wrapping a column without masked entries into a masked array and
    assigning it back changes nothing. *)
Lemma set_column_unmasked (name : string) (T : Table) (i : nat) :
  list_find (λ c, c = name) (colnames T) = Some (i, name) →
  (∀ r, r ∈ rows T → ∃ v, r !! i = Some (Scalar v false)) →
  (col ← get_column name T; set_column name (ma_array col) T) = Ok T.
Proof.
  intros Hfind Hcells. unfold get_column, column_index. rewrite Hfind.
  cbn [mbind result_bind]. unfold set_column.
  destruct (colnames T) as [|c cs] eqn:Ecols; [done|]. rewrite <- Ecols in *.
  rewrite Hfind.
  rewrite decide_True by (unfold ma_array; by rewrite !length_fmap).
  unfold ma_array. rewrite !zip_with_fmap_r, zip_with_diag.
  destruct T as [cols rs]. cbn [colnames rows] in *. do 2 f_equal.
  rewrite <- (list_fmap_id rs) at 2. apply Forall_fmap_ext, Forall_forall.
  intros r Hr. destruct (Hcells r Hr) as [v Hv]. cbn.
  apply list_insert_id. unfold cell_at. by rewrite Hv.
Qed.

(** The rows of the aggregated table, read off the table aggregated. *)
Lemma aggregate_probabilities_rows (t : Table) (pi : nat) :
  NoDup (colnames t) →
  column_index "probabilities" t = Ok pi →
  "probabilities" ∉ meta_columns →
  (∀ name, name ∈ meta_columns → scalar_column name t) →
  let metas := filter (λ c, c ∈ meta_columns) (colnames t) in
  let key := metadata metas t in
  aggregate_probabilities t
  = Ok {| colnames := metas ++ ["probabilities"];
          rows :=
            (λ k, ((λ v, Scalar v false) <$> k)
                  ++ [Array (mean_axis0
                               ((λ r, cell_array (cell_at pi r))
                                <$> filter (λ r, key r = k) (rows t)))])
            <$> np_unique (key <$> rows t) |}.
Proof.
  intros Hnd Hpi Hp Hscalar metas key.
  destruct (select_fill t pi Hnd Hpi Hp Hscalar) as (Hnames & table & Hsel & Hcols & Hfill).
  fold metas in Hnames, Hsel, Hcols, Hfill.
  assert (Hpm : "probabilities" ∉ metas).
  { by intros [? _]%list_elem_of_filter. }
  set (m := length metas).
  set (K' := row_key (seq 0 m)).
  set (L := selected metas t pi <$> rows t).
  set (target := (λ k, ((λ v, Scalar v false) <$> k)
                  ++ [Array (mean_axis0
                               ((λ r, cell_array (cell_at pi r))
                                <$> filter (λ r, key r = k) (rows t)))])
                 <$> np_unique (key <$> rows t)).
  assert (HK : ∀ r, K' (selected metas t pi r) = key r).
  { intros r. apply selected_key. }
  assert (Hrows :
    (λ grp : list cell * list (list cell),
       imap (λ j name,
               if decide (name ∈ metas) then cell_at j grp.1
               else Array (mean_axis0
                             ((λ r, cell_array (cell_at j r)) <$> grp.1 :: grp.2)))
            (metas ++ ["probabilities"]))
    <$> runs K' (sort_by K' L) = target).
  { transitivity (aggregated m <$>
                  ((λ g : list cell * list (list cell), (K' g.1, g.1 :: g.2))
                   <$> runs K' (sort_by K' L))).
    - rewrite <- list_fmap_compose. apply Forall_fmap_ext, Forall_forall.
      intros grp Hgrp. apply runs_elem_of in Hgrp.
      rewrite sort_by_perm in Hgrp.
      apply list_elem_of_fmap in Hgrp as (r & Hr1 & Hr). cbn. rewrite Hr1.
      by apply aggregate_group.
    - rewrite runs_sort_by_groups, <- list_fmap_compose. unfold target.
      assert (HKL : K' <$> L = key <$> rows t).
      { unfold L. rewrite <- list_fmap_compose. apply list_fmap_ext.
        intros ? r _. apply HK. }
      rewrite HKL. apply list_fmap_ext. intros _ k _. unfold aggregated.
      cbn [fst snd compose].
      assert (Hmem :
        (λ r, cell_array (cell_at m r)) <$> filter (λ a, K' a = k) L
        = (λ r, cell_array (cell_at pi r)) <$> filter (λ r, key r = k) (rows t));
        [|by rewrite Hmem].
      unfold L. rewrite filter_fmap, <- list_fmap_compose.
      rewrite (list_filter_iff _ (λ r, key r = k)) by (intros r; by rewrite HK).
      apply list_fmap_ext. intros _ r _. cbn. unfold selected, m.
      rewrite <- (metadata_length metas t r).
      rewrite <- (length_fmap (λ v, Scalar v false)).
      by rewrite cell_at_snoc, cell_array_filled. }
  unfold aggregate_probabilities. fold metas. rewrite Hsel. cbn [mbind result_bind].
  rewrite Hcols, removelast_last, Hfill. unfold group_by.
  rewrite (mapM_column_index_prefix metas ["probabilities"]) by done.
  cbn [mbind result_bind]. unfold aggregate.
  cbn [g_colnames g_keys g_groups colnames rows].
  fold m. fold K'. fold L. rewrite Hrows.
  destruct (decide ("type" ∈ metas ++ ["probabilities"])) as [Hty|Hty]; [|done].
  apply list_elem_of_lookup in Hty as [i Hi].
  assert (Hlt : i < m).
  { destruct (decide (i < m)) as [?|Hge]; [done|].
    rewrite lookup_app_r in Hi by (fold m; lia).
    destruct (i - length metas) as [|?]; [|done]. done. }
  apply (set_column_unmasked "type" _ i).
  - cbn [colnames]. by apply list_find_nodup.
  - cbn [rows]. unfold target. intros r (k & -> & Hk)%list_elem_of_fmap.
    apply (proj1 (np_unique_elem k (key <$> rows t))) in Hk.
    apply list_elem_of_fmap in Hk as (r0 & -> & _).
    assert (Hik : i < length (key r0)) by by (unfold key; rewrite metadata_length).
    destruct (lookup_lt_is_Some_2 _ _ Hik) as [v Hv]. exists v.
    rewrite lookup_app_l by by rewrite length_fmap.
    by rewrite list_lookup_fmap, Hv.
Qed.

(** The aggregated table, aggregated again: its columns, the index of
    its probabilities and the metadata of its rows. *)
Lemma aggregated_table_shape (metas : list string) (U : list (list value))
    (f : list value → list Q) :
  NoDup (metas ++ ["probabilities"]) →
  (∀ name, name ∈ metas → name ∈ meta_columns) →
  "probabilities" ∉ meta_columns →
  (∀ k, k ∈ U → length k = length metas) →
  let out := {| colnames := metas ++ ["probabilities"];
                rows := (λ k, ((λ v, Scalar v false) <$> k) ++ [Array (f k)]) <$> U |} in
  filter (λ c, c ∈ meta_columns) (colnames out) = metas ∧
  column_index "probabilities" out = Ok (length metas) ∧
  (∀ name, name ∈ meta_columns → scalar_column name out) ∧
  (∀ k, k ∈ U →
     metadata metas out (((λ v, Scalar v false) <$> k) ++ [Array (f k)]) = k).
Proof.
  intros Hnd Hmeta Hp Hlen out.
  assert (Hidx : ∀ j name, metas !! j = Some name → column_index name out = Ok j).
  { intros j name Hj. unfold column_index. cbn [out colnames].
    by rewrite (list_find_nodup _ j name Hnd) by by apply lookup_app_l_Some. }
  split; [|split; [|split]].
  - cbn [out colnames]. rewrite filter_app.
    rewrite (filter_none _ ["probabilities"]).
    2:{ by intros c ->%list_elem_of_singleton. }
    rewrite app_nil_r. clear -Hmeta. induction metas as [|c cs IH]; [done|].
    rewrite filter_cons, decide_True by (apply Hmeta; left).
    f_equal. apply IH. intros name Hname. apply Hmeta. by right.
  - unfold column_index. cbn [out colnames].
    by rewrite (list_find_nodup _ (length metas) "probabilities" Hnd)
      by by apply list_lookup_middle.
  - intros name Hname i r Hi (k & -> & Hk)%list_elem_of_fmap.
    apply column_index_lt in Hi as [Hlt Hi]. cbn [out colnames] in Hlt, Hi.
    assert (i < length metas).
    { destruct (decide (i < length metas)) as [?|Hge]; [done|].
      rewrite lookup_app_r in Hi by lia.
      destruct (i - length metas) as [|?]; [|done].
      injection Hi as <-. done. }
    destruct (lookup_lt_is_Some_2 k i) as [v Hv]; [by rewrite Hlen|].
    exists v, false. rewrite lookup_app_l by (rewrite length_fmap, Hlen; done).
    by rewrite list_lookup_fmap, Hv.
  - intros k Hk. unfold metadata. apply list_eq. intros j.
    rewrite list_lookup_fmap.
    destruct (metas !! j) as [name|] eqn:Hj; cbn.
    + rewrite (Hidx j name Hj).
      assert (Hjk : j < length k).
      { rewrite (Hlen k Hk). by eapply lookup_lt_Some. }
      destruct (lookup_lt_is_Some_2 k j Hjk) as [v Hv]. rewrite Hv.
      unfold cell_at. rewrite lookup_app_l by by rewrite length_fmap.
      by rewrite list_lookup_fmap, Hv.
    + symmetry. apply lookup_ge_None. rewrite (Hlen k Hk).
      by apply lookup_ge_None.
Qed.

(** C5, as the code has it.  For a table with distinct column names, a
    ['probabilities'] column and one-dimensional metadata columns,
    [aggregate_probabilities] keeps the metadata columns and the
    probabilities, and returns one row per distinct metadata tuple, where
    the metadata of a row are its entries with each masked entry (a missing
    label too) replaced by the fill value of its column.  The rows come in
    the order of their tuples; each carries its tuple, with nothing masked,
    and the element-wise mean of the probability vectors of the input rows
    with that tuple.  So there are at most as many rows as in the input, and
    as many exactly when no two input rows have the same filled metadata. *)
Theorem aggregate_probabilities_spec (t : Table) (pi : nat) :
  NoDup (colnames t) →
  column_index "probabilities" t = Ok pi →
  "probabilities" ∉ meta_columns →
  (∀ name, name ∈ meta_columns → scalar_column name t) →
  let metas := filter (λ c, c ∈ meta_columns) (colnames t) in
  let key := metadata metas t in
  let groups := np_unique (key <$> rows t) in
  ∃ out,
    aggregate_probabilities t = Ok out ∧
    colnames out = metas ++ ["probabilities"] ∧
    rows out =
      (λ k, ((λ v, Scalar v false) <$> k)
            ++ [Array (mean_axis0
                         ((λ r, cell_array (cell_at pi r))
                          <$> filter (λ r, key r = k) (rows t)))])
      <$> groups ∧
    NoDup groups ∧
    (∀ k, k ∈ groups ↔ ∃ r, r ∈ rows t ∧ key r = k) ∧
    (∀ r j name i d m,
       metas !! j = Some name → column_index name t = Ok i →
       r !! i = Some (Scalar d m) →
       key r !! j = Some (if m then fill_value name else d)) ∧
    length (rows out) ≤ length (rows t) ∧
    (length (rows out) = length (rows t) ↔ NoDup (key <$> rows t)).
Proof.
  intros Hnd Hpi Hp Hscalar metas key groups.
  eexists. split; [by apply aggregate_probabilities_rows|].
  cbn [colnames rows]. fold metas key groups.
  split; [done|]. split; [done|]. split; [apply np_unique_nodup|].
  split; [|split; [|split]].
  - intros k. unfold groups. rewrite np_unique_elem, list_elem_of_fmap.
    split; intros (r & H1 & H2); exists r; by split.
  - intros r j name i d m Hj Hi Hcell. unfold key, metadata.
    rewrite list_lookup_fmap, Hj. cbn. rewrite Hi. unfold cell_at.
    rewrite Hcell. cbn. by destruct m.
  - rewrite length_fmap. unfold groups.
    etrans; [apply np_unique_length|]. by rewrite length_fmap.
  - rewrite length_fmap. unfold groups.
    rewrite <- (length_fmap key (rows t)). apply np_unique_length_nodup.
Qed.

(** C6, as the code has it: aggregation is idempotent.  Aggregating the
    table that [aggregate_probabilities] returns gives that table again. *)
Theorem aggregate_probabilities_idempotent (t : Table) (pi : nat) :
  NoDup (colnames t) →
  column_index "probabilities" t = Ok pi →
  "probabilities" ∉ meta_columns →
  (∀ name, name ∈ meta_columns → scalar_column name t) →
  ∃ out,
    aggregate_probabilities t = Ok out ∧
    aggregate_probabilities out = Ok out.
Proof.
  intros Hnd Hpi Hp Hscalar.
  pose proof (aggregate_probabilities_rows t pi Hnd Hpi Hp Hscalar) as Hout.
  cbv zeta in Hout.
  set (metas := filter (λ c, c ∈ meta_columns) (colnames t)) in *.
  set (key := metadata metas t) in *.
  set (U := np_unique (key <$> rows t)) in *.
  set (f := λ k, mean_axis0 ((λ r, cell_array (cell_at pi r))
                             <$> filter (λ r, key r = k) (rows t))) in *.
  set (row_of := λ k : list value, ((λ v, Scalar v false) <$> k) ++ [Array (f k)]).
  set (out := {| colnames := metas ++ ["probabilities"]; rows := row_of <$> U |}).
  change (aggregate_probabilities t = Ok out) in Hout.
  exists out. split; [done|].
  destruct (select_fill t pi Hnd Hpi Hp Hscalar) as [Hnames _]. fold metas in Hnames.
  assert (HU : ∀ k, k ∈ U → length k = length metas).
  { intros k Hk. apply (proj1 (np_unique_elem k (key <$> rows t))) in Hk.
    apply list_elem_of_fmap in Hk as (r & -> & _). apply metadata_length. }
  assert (Hshape :
    filter (λ c, c ∈ meta_columns) (colnames out) = metas ∧
    column_index "probabilities" out = Ok (length metas) ∧
    (∀ name, name ∈ meta_columns → scalar_column name out) ∧
    (∀ k, k ∈ U → metadata metas out (row_of k) = k)).
  { apply (aggregated_table_shape metas U f Hnames); try done.
    by intros name [? _]%list_elem_of_filter. }
  destruct Hshape as (Hmetas & Hidx & Hsc & Hkey).
  rewrite (aggregate_probabilities_rows out (length metas)); try done.
  cbv zeta. rewrite Hmetas. change (rows out) with (row_of <$> U).
  assert (Hkeys : metadata metas out <$> (row_of <$> U) = U).
  { rewrite <- list_fmap_compose. rewrite <- (list_fmap_id U) at 2.
    apply Forall_fmap_ext, Forall_forall. intros k Hk. by apply Hkey. }
  rewrite Hkeys, (np_unique_sorted U) by apply np_unique_increasing.
  match goal with
  | |- Ok {| colnames := _; rows := ?X |} = _ =>
      assert (Hrows : X = row_of <$> U); [|by rewrite Hrows]
  end.
  apply Forall_fmap_ext, Forall_forall. intros k Hk. unfold row_of at 2.
  do 3 f_equal.
  rewrite filter_fmap.
  rewrite (filter_ext_in _ (λ k', k' = k)).
  2:{ intros k' Hk'. by rewrite (Hkey k' Hk'). }
  rewrite filter_eq_nodup; [|apply np_unique_nodup|done].
  cbn. unfold row_of. rewrite <- (HU k Hk).
  rewrite <- (length_fmap (λ v, Scalar v false)), cell_at_snoc. cbn.
  apply mean_axis0_singleton.
Qed.

End AggregationFacts.

(** C5 fails for a row without a label: the table is filled before it is
    grouped, so the aggregated row carries the fill value of the column as
    its type, and that entry is not masked. *)
Lemma aggregated_label_is_not_masked :
  get_column "type" unlabelled_results = Ok [Scalar (VStr "") true] ∧
  aggregate_probabilities demo_meta_columns demo_fill_value unlabelled_results
  = Ok (results_table
          [[Scalar (VStr "sn1") false; Scalar (VStr "N/A") false;
            Array [(1 # 4)%Q; (3 # 4)%Q]]]).
Proof. split; vm_compute; reflexivity. Qed.

(** C6 fails for a table whose rows are not in the order of their
    metadata: it has one row per metadata tuple, and aggregation returns its
    rows in another order. *)
Lemma aggregation_sorts_rows :
  NoDup (metadata demo_fill_value ["filename"; "type"] unsorted_results
           <$> rows unsorted_results) ∧
  aggregate_probabilities demo_meta_columns demo_fill_value unsorted_results
  = Ok (results_table
          [results_row "sn1" "SNIa" false [(1 # 4)%Q; (3 # 4)%Q];
           results_row "sn2" "SNII" false [(3 # 4)%Q; (1 # 4)%Q]]) ∧
  results_table
    [results_row "sn1" "SNIa" false [(1 # 4)%Q; (3 # 4)%Q];
     results_row "sn2" "SNII" false [(3 # 4)%Q; (1 # 4)%Q]]
  ≠ unsorted_results.
Proof.
  split; [|split].
  - vm_compute. repeat constructor; intros H; repeat (apply elem_of_cons in H as [H|H]; try discriminate); by apply elem_of_nil in H.
  - vm_compute. reflexivity.
  - discriminate.
Qed.

Lemma draws_results_scalar (name : string) :
  name ∈ demo_meta_columns → scalar_column name draws_results.
Proof.
  intros Hname i r Hi Hr.
  unfold demo_meta_columns in Hname.
  repeat (apply elem_of_cons in Hname as [-> | Hname]);
    try (by apply elem_of_nil in Hname);
    try discriminate Hi;
    injection Hi as <-;
    cbn in Hr;
    repeat (apply elem_of_cons in Hr as [-> | Hr]);
    try (by apply elem_of_nil in Hr);
    by eexists _, _.
Qed.

(** [aggregate_probabilities_spec] applies to three draws of two
    supernovae. *)
Lemma aggregate_probabilities_spec_witness :
  NoDup (colnames draws_results) ∧
  column_index "probabilities" draws_results = Ok 2 ∧
  ("probabilities" ∉ demo_meta_columns) ∧
  ∃ out,
    aggregate_probabilities demo_meta_columns demo_fill_value draws_results = Ok out ∧
    length (rows out) ≤ length (rows draws_results).
Proof.
  assert (Hnd : NoDup (colnames draws_results)).
  { apply (bool_decide_unpack _). vm_compute. exact I. }
  assert (Hp : "probabilities" ∉ demo_meta_columns).
  { apply (bool_decide_unpack _). vm_compute. exact I. }
  split; [exact Hnd|]. split; [reflexivity|]. split; [exact Hp|].
  destruct (aggregate_probabilities_spec demo_meta_columns demo_fill_value
              draws_results 2 Hnd eq_refl Hp draws_results_scalar)
    as (out & Hout & _ & _ & _ & _ & _ & Hlen & _).
  exists out. split; [exact Hout | exact Hlen].
Defined.

(** [aggregate_probabilities_idempotent] applies to the same table. *)
Lemma aggregate_probabilities_idempotent_witness :
  NoDup (colnames draws_results) ∧
  column_index "probabilities" draws_results = Ok 2 ∧
  ("probabilities" ∉ demo_meta_columns) ∧
  ∃ out,
    aggregate_probabilities demo_meta_columns demo_fill_value draws_results = Ok out ∧
    aggregate_probabilities demo_meta_columns demo_fill_value out = Ok out.
Proof.
  assert (Hnd : NoDup (colnames draws_results)).
  { apply (bool_decide_unpack _). vm_compute. exact I. }
  assert (Hp : "probabilities" ∉ demo_meta_columns).
  { apply (bool_decide_unpack _). vm_compute. exact I. }
  split; [exact Hnd|]. split; [reflexivity|]. split; [exact Hp|].
  exact (aggregate_probabilities_idempotent demo_meta_columns demo_fill_value
           draws_results 2 Hnd eq_refl Hp draws_results_scalar).
Defined.

(** ** More about the resampler *)

Section ResamplerMoreFacts.
Context {Features Mean Cov RandomState Seed : Type}.
Variable np_mean : list Features → Mean.
Variable np_cov : list Features → Cov.
Variable check_random_state : Seed → RandomState.
Variable multivariate_normal :
  RandomState → Mean → Cov → nat → (list Features + string) * RandomState.

(** What is assumed of numpy, as above: a draw that returns gives as many
    rows as were asked for, and a draw from the mean and the covariance of
    two rows or more returns. *)
Hypothesis multivariate_normal_shape :
  ∀ rs m c n rows, (multivariate_normal rs m c n).1 = inl rows → length rows = n.
Hypothesis multivariate_normal_two_rows :
  ∀ rs X_class n, 2 ≤ length X_class →
    ∃ rows, (multivariate_normal rs (np_mean X_class) (np_cov X_class) n).1 = inl rows.

Local Abbreviation sampler := (@MultivariateGaussian Mean Cov RandomState Seed).
Local Abbreviation draw' := (draw multivariate_normal).
Local Abbreviation loop :=
  (fit_resample_loop np_mean np_cov check_random_state multivariate_normal).
Local Abbreviation fit_resample' :=
  (_fit_resample np_mean np_cov check_random_state multivariate_normal).
Local Abbreviation more_samples' := (more_samples multivariate_normal).
Local Abbreviation fit_resample_unfold' :=
  (fit_resample_unfold np_mean np_cov check_random_state multivariate_normal
     multivariate_normal_shape multivariate_normal_two_rows).
Local Abbreviation fit_loop_state' :=
  (fit_loop_state np_mean np_cov check_random_state multivariate_normal
     multivariate_normal_shape).
Local Abbreviation fit_loop_stored' :=
  (fit_loop_stored np_mean np_cov check_random_state multivariate_normal).
Local Abbreviation draw_two_rows' :=
  (draw_two_rows np_mean np_cov multivariate_normal multivariate_normal_shape
     multivariate_normal_two_rows).



(** The draws of [more_samples], class by class, from the distributions of
    classes of two rows or more. *)
Lemma draw_classes_rows (means : gmap string Mean) (covs : gmap string Cov)
    n classes :
  NoDup classes →
  (∀ c, c ∈ classes →
     ∃ X_class, 2 ≤ length X_class ∧
       means !! c = Some (np_mean X_class) ∧ covs !! c = Some (np_cov X_class)) →
  ∀ rs, ∃ Xs,
    (draw_classes multivariate_normal means covs n rs classes).1 = Ok Xs ∧
    let Xn := concat Xs in
    let yn := concat ((λ c, replicate n c) <$> classes) in
    length Xn = length yn ∧
    (∀ c, c ∉ classes → class_rows Xn yn c = []) ∧
    ∀ c, c ∈ classes →
      ∃ rs0 m v, means !! c = Some m ∧ covs !! c = Some v ∧
                 (multivariate_normal rs0 m v n).1 = inl (class_rows Xn yn c).
Proof.
  induction classes as [|c classes IH]; intros Hnd Hall rs.
  { exists []. split; [done|]. cbn. split; [done|]. split; [done|].
    by intros c ?%elem_of_nil. }
  apply NoDup_cons in Hnd as [Hc Hnd].
  destruct (Hall c) as (X_class & Htwo & Hm & Hv); [left|].
  cbn [draw_classes]. rewrite Hm, Hv.
  destruct (draw_two_rows' rs X_class n Htwo) as (chunk & Hraw & -> & Hchunk).
  destruct (IH Hnd (λ c' Hc', Hall c' (list_elem_of_further _ _ _ Hc'))
              (draw' rs (np_mean X_class) (np_cov X_class) n).2)
    as (Xs & -> & Hlen & Hout & Hin).
  eexists. split; [done|]. cbv zeta in *.
  rewrite fmap_cons. cbn [concat].
  assert (Hsplit : ∀ c',
    class_rows (chunk ++ concat Xs)
      (replicate n c ++ concat ((λ c, replicate n c) <$> classes)) c'
    = (if decide (c = c') then chunk else [])
      ++ class_rows (concat Xs) (concat ((λ c, replicate n c) <$> classes)) c').
  { intros c'. rewrite class_rows_app by by rewrite length_replicate.
    f_equal. rewrite <- Hchunk at 1. apply class_rows_replicate. }
  split; [by rewrite !length_app, Hlen, length_replicate, Hchunk|]. split.
  - intros c' [Hne Hc']%not_elem_of_cons.
    rewrite Hsplit, (Hout c' Hc'). by rewrite decide_False by done.
  - intros c' [->|Hc']%elem_of_cons.
    + exists rs, (np_mean X_class), (np_cov X_class).
      split; [done|]. split; [done|].
      rewrite Hsplit, (Hout c Hc), decide_True by done. by rewrite app_nil_r.
    + destruct (Hin c' Hc') as (rs0 & m' & v' & Hm' & Hv' & Hrows).
      exists rs0, m', v'. split; [done|]. split; [done|].
      rewrite Hsplit, decide_False; [done|]. by intros ->.
Qed.



(** The number of rows of a class after [fit_resample]: its own, or the
    number asked for if that is larger ([k] with an integer strategy, the
    size of the largest class otherwise). *)
Lemma fit_resample_counts (self : sampler) (X : list Features) (y : list string) :
  length X = length y →
  two_rows_where_drawn self X y →
  ∃ self' Xs ys (M : nat),
    fit_resample' self X y = (self', Ok (X ++ Xs, y ++ ys)) ∧
    length Xs = length ys ∧
    samples_per_class self' = samples_per_class self ∧
    (∀ c, count c y ≤ M) ∧
    (y ≠ [] → ∃ c, c ∈ y ∧ count c y = M) ∧
    (∀ c, c ∉ y → count c ys = 0) ∧
    ∀ c, c ∈ y →
      Z.of_nat (count c ys)
      = Z.max 0 (default (Z.of_nat M) (samples_per_class self) - Z.of_nat (count c y)).
Proof.
  intros HXy Htwo.
  destruct (fit_resample_unfold' self X y Htwo)
    as (self' & Xs & ys & Heq & Hloop & Hlen & Hspc & Hout & Hin).
  destruct (sampling_strategy_all_spec y) as (M & Hitems & Hle & Hex).
  exists self', Xs, ys, M.
  split; [done|]. split; [done|]. split; [done|]. split; [done|].
  split; [done|]. split; [done|].
  intros c Hc.
  assert (Hitem : (c, (Z.of_nat M - Z.of_nat (count c y))%Z) ∈ sampling_strategy_all y).
  { rewrite Hitems. apply list_elem_of_fmap. exists c. split; [done|].
    by apply np_unique_elem. }
  destruct (Hin _ _ Hitem) as (Hcnt & _ & _).
  unfold n_samples_for in Hcnt. cbn [fit samples_per_class] in Hcnt.
  rewrite (class_rows_length X y c HXy) in Hcnt. specialize (Hle c).
  destruct (samples_per_class self) as [k|]; cbn [default from_option];
    unfold id; lia.
Qed.

(** On data in which every class is at or above its target, [fit_resample]
    returns the arrays as they are. *)
Lemma fit_resample_at_target (self : sampler) (X : list Features) (y : list string) :
  at_or_above_target self X y →
  ∃ self', fit_resample' self X y = (self', Ok (X, y)).
Proof.
  intros Htarget.
  destruct (fit_resample_unfold' self X y)
    as (self' & Xs & ys & Heq & _ & Hlen & _ & Hout & Hin).
  { intros c n0 Hitem Hpos. specialize (Htarget c n0 Hitem). lia. }
  assert (ys = []) as ->.
  { apply count_zero_nil. intros c.
    destruct (decide (c ∈ y)) as [Hc | Hc]; [|by apply Hout].
    apply sampling_strategy_all_elem in Hc as [n0 Hitem].
    destruct (Hin c n0 Hitem) as (Hcnt & _).
    specialize (Htarget c n0 Hitem). lia. }
  destruct Xs; [|done]. exists self'. by rewrite !app_nil_r in Heq.
Qed.


End ResamplerMoreFacts.

(** ** More about training and classification *)

Section EngineMoreFacts.
Context {Pipeline : Type}.
Variable pipeline_fit : Pipeline → list (list Q) → list cell → Pipeline.
Variable predict_proba : Pipeline → list (list Q) → list (list Q).
Variable meta_columns : list string.
Variable fill_value : string → value.

Local Abbreviation world := (@world Pipeline).
Local Abbreviation classify := (classify predict_proba meta_columns fill_value).
Local Abbreviation validate_classifier :=
  (validate_classifier pipeline_fit predict_proba meta_columns fill_value).

Lemma column_index_missing (name : string) (t : Table) :
  name ∉ colnames t → column_index name t = Raise (KeyError name).
Proof.
  intros Hname. unfold column_index.
  destruct (list_find _ _) as [[i c]|] eqn:E; [|done].
  apply list_find_Some in E as (Hi & -> & _).
  destruct Hname. by eapply list_elem_of_lookup_2.
Qed.

Lemma column_index_present (name : string) (t : Table) :
  name ∈ colnames t → ∃ i, column_index name t = Ok i.
Proof.
  intros Hname. unfold column_index.
  destruct (list_find _ _) as [[i c]|] eqn:E; [by eexists|].
  apply list_find_None in E. rewrite Forall_forall in E. by destruct (E name).
Qed.

(** X6: A table without rows, or without a ['features'] column, cannot be
    classified: [classify] raises before it writes anything, and
    [validate_classifier], given it as training table, raises before it
    fits the pipeline.  The exception is numpy's [ValueError] for the
    reshape of an empty array, or the [KeyError] of the missing column, and
    the pipeline and all tables are as they were. *)
Theorem no_rows_no_prediction (w : world) (l : loc) (t : Table)
    (aggregate : bool) :
  tables w !! l = Some t →
  rows t = [] ∨ "features" ∉ colnames t →
  let e :=
    if decide ("features" ∈ colnames t)
    then ValueError "cannot reshape array of size 0 into shape (0,newaxis)"
    else KeyError "features" in
  classify l aggregate w = (Raise e, w) ∧
  ∀ test_data, validate_classifier l test_data aggregate w = (Raise e, w).
Proof.
  intros Hl Hcase e.
  assert (HX : features_2d t = Raise e).
  { unfold features_2d, get_column, e.
    destruct (decide ("features" ∈ colnames t)) as [Hin|Hout].
    - destruct (column_index_present _ _ Hin) as [i ->]. cbn.
      destruct Hcase as [->|?]; done.
    - by rewrite (column_index_missing _ _ Hout). }
  split.
  - unfold classify, write_probabilities.
    by rewrite (lookup_total_correct _ _ _ Hl), HX.
  - intros test_data. unfold validate_classifier. cbn [train_classifier].
    by rewrite (lookup_total_correct _ _ _ Hl), HX.
Qed.

End EngineMoreFacts.

(** ** More about the aggregation *)

Lemma filter_all {A} (P : A → Prop) `{!∀ a, Decision (P a)} (l : list A) :
  (∀ a, a ∈ l → P a) → filter P l = l.
Proof.
  induction l as [|a l IH]; intros Hall; [done|].
  rewrite filter_cons_True by (apply Hall; left).
  f_equal. apply IH. intros b Hb. apply Hall. by right.
Qed.

Lemma mapM_result_snoc_raise {A B} (f : A → result B) (l : list A) (k : list B)
    (x : A) (e : exception) :
  mapM f l = Ok k → f x = Raise e → mapM f (l ++ [x]) = Raise e.
Proof.
  revert k. induction l as [|a l IH]; intros k Hl Hx; cbn.
  { by rewrite Hx. }
  cbn in Hl. destruct (f a) as [b|e']; [|done]. cbn in *.
  destruct (mapM f l) as [k'|e'] eqn:E; [|done].
  by rewrite (IH k' eq_refl Hx).
Qed.

Lemma Qsum_zip_plus (xs ys : list Q) :
  length xs = length ys →
  (Qsum (zip_with Qplus xs ys) == Qsum xs + Qsum ys)%Q.
Proof.
  revert ys. induction xs as [|x xs IH]; intros [|y ys] Hlen; try done.
  cbn [zip_with Qsum foldr]. injection Hlen as Hlen.
  change (foldr Qplus 0%Q ?l) with (Qsum l). rewrite (IH ys Hlen). ring.
Qed.

Lemma Qsum_scale (c : Q) (xs : list Q) :
  (Qsum ((λ s, s / c) <$> xs) == Qsum xs / c)%Q.
Proof.
  induction xs as [|x xs IH]; cbn [fmap list_fmap Qsum foldr].
  { unfold Qdiv. ring. }
  change (foldr Qplus 0%Q ?l) with (Qsum l). rewrite IH. unfold Qdiv. ring.
Qed.

(** The column sums of a matrix with rows of length [n], as [mean_axis0]
    accumulates them. *)
Lemma foldl_zip_plus_spec (n : nat) (rest : list (list Q)) :
  ∀ r0 : list Q,
  length r0 = n → Forall (λ r, length r = n) rest →
  let total := foldl (zip_with Qplus) r0 rest in
  length total = n ∧
  (Qsum total == Qsum r0 + Qsum (Qsum <$> rest))%Q ∧
  (Forall (λ q, (0 <= q)%Q) r0 →
   Forall (Forall (λ q, (0 <= q)%Q)) rest →
   Forall (λ q, (0 <= q)%Q) total).
Proof.
  induction rest as [|r1 rest IH]; intros r0 Hr0 Hrest; cbn [foldl].
  { split; [done|]. split; [cbn; ring | done]. }
  apply Forall_cons in Hrest as [Hr1 Hrest].
  destruct (IH (zip_with Qplus r0 r1)) as (Hlen & Hsum & Hpos); [|done|].
  { rewrite length_zip_with. lia. }
  cbv zeta in *. split; [done|]. split.
  - rewrite Hsum, Qsum_zip_plus by congruence.
    rewrite fmap_cons. cbn [Qsum foldr].
    change (foldr Qplus 0%Q ?l) with (Qsum l). ring.
  - intros H0 [H1 Hall]%Forall_cons. apply Hpos; [|done].
    clear -H0 H1. revert r1 H1.
    induction H0 as [|x r0 Hx _ IH0]; intros [|y r1] Hr1; cbn; try constructor.
    + apply Forall_cons in Hr1 as [Hy _].
      replace 0%Q with (0 + 0)%Q by done. by apply Qplus_le_compat.
    + apply Forall_cons in Hr1 as [_ Hr1]. by apply IH0.
Qed.

Lemma Qsum_ones (l : list Q) :
  Forall (λ q, (q == 1)%Q) l → (Qsum l == inject_Z (Z.of_nat (length l)))%Q.
Proof.
  induction 1 as [|q l Hq _ IH]; [done|].
  cbn [Qsum foldr length]. change (foldr Qplus 0%Q ?l) with (Qsum l).
  rewrite IH, Hq, Nat2Z.inj_succ. unfold Z.succ. rewrite inject_Z_plus. ring.
Qed.

(** The mean of probability vectors is a probability vector. *)
Lemma mean_axis0_distribution (n : nat) (x : list (list Q)) :
  x ≠ [] →
  Forall (λ p, length p = n ∧ (Qsum p == 1)%Q ∧ Forall (λ q, (0 <= q)%Q) p) x →
  length (mean_axis0 x) = n ∧
  (Qsum (mean_axis0 x) == 1)%Q ∧
  Forall (λ q, (0 <= q)%Q) (mean_axis0 x).
Proof.
  destruct x as [|r rest]; [done|]. intros _ [(Hn & H1 & H0) Hrest]%Forall_cons.
  unfold mean_axis0.
  destruct (foldl_zip_plus_spec n rest r Hn) as (Hlen & Hsum & Hpos).
  { eapply Forall_impl; [exact Hrest|]. by intros p (? & _). }
  cbv zeta in *.
  set (k := inject_Z (Z.of_nat (length (r :: rest)))).
  assert (Hk : (0 < k)%Q).
  { unfold k. rewrite <- (Zlt_Qlt 0). cbn [length]. lia. }
  split; [by rewrite length_fmap|]. split.
  - rewrite Qsum_scale, Hsum, H1, Qsum_ones.
    + unfold k. cbn [length]. rewrite Nat2Z.inj_succ. unfold Z.succ.
      rewrite inject_Z_plus. rewrite length_fmap.
      field. change 1%Q with (inject_Z 1). rewrite <- inject_Z_plus. intros Hz.
      apply (Qlt_irrefl 0). rewrite <- Hz at 2. rewrite <- (Zlt_Qlt 0). lia.
    + apply Forall_fmap. eapply Forall_impl; [exact Hrest|]. by intros p (_ & ? & _).
  - apply Forall_fmap. eapply Forall_impl.
    + apply Hpos; [done|]. eapply Forall_impl; [exact Hrest|]. by intros p (_ & _ & ?).
    + intros q Hq. cbn. apply Qle_shift_div_l; [done|]. by rewrite Qmult_0_l.
Qed.

Section AggregationMoreFacts.
Variable meta_columns : list string.
Variable fill_value : string → value.

Local Abbreviation metadata := (metadata fill_value).
Local Abbreviation aggregate_probabilities :=
  (aggregate_probabilities meta_columns fill_value).
Local Abbreviation aggregate_probabilities_rows' :=
  (aggregate_probabilities_rows meta_columns fill_value).

(** X7: A table without a ['probabilities'] column cannot be aggregated: the
    selection of the columns raises [KeyError] for it. *)
Theorem aggregate_probabilities_needs_probabilities (t : Table) :
  NoDup (colnames t) →
  "probabilities" ∉ colnames t →
  aggregate_probabilities t = Raise (KeyError "probabilities").
Proof.
  intros Hnd Hp. unfold aggregate_probabilities, select_columns.
  set (metas := filter (λ c, c ∈ meta_columns) (colnames t)).
  rewrite decide_True.
  2:{ apply NoDup_app. split; [by apply NoDup_filter|].
      split; [|apply NoDup_singleton].
      intros n [_ Hn]%list_elem_of_filter ->%list_elem_of_singleton. done. }
  destruct (mapM_result (λ n, column_index n t) metas) as (midx & Hmidx & _).
  { intros n [_ Hn]%list_elem_of_filter. apply list_elem_of_lookup in Hn as [j Hj].
    unfold column_index. by rewrite (list_find_nodup _ j n Hnd Hj). }
  rewrite (mapM_result_snoc_raise _ _ midx _ (KeyError "probabilities")); [done..|].
  unfold column_index. destruct (list_find _ _) as [[i c]|] eqn:E; [|done].
  apply list_find_Some in E as (Hi & -> & _).
  destruct Hp. by eapply list_elem_of_lookup_2.
Qed.

(** X8: Aggregation keeps probability vectors what they are: when every row of
    the table carries [n] non-negative probabilities that sum to one, so
    does every row of the aggregated table. *)
Theorem aggregate_probabilities_keeps_distributions (t : Table) (pi n : nat) :
  NoDup (colnames t) →
  column_index "probabilities" t = Ok pi →
  "probabilities" ∉ meta_columns →
  (∀ name, name ∈ meta_columns → scalar_column name t) →
  (∀ r, r ∈ rows t →
     let p := cell_array (cell_at pi r) in
     length p = n ∧ (Qsum p == 1)%Q ∧ Forall (λ q, (0 <= q)%Q) p) →
  ∃ out po,
    aggregate_probabilities t = Ok out ∧
    column_index "probabilities" out = Ok po ∧
    ∀ r, r ∈ rows out →
      let p := cell_array (cell_at po r) in
      length p = n ∧ (Qsum p == 1)%Q ∧ Forall (λ q, (0 <= q)%Q) p.
Proof.
  intros Hnd Hpi Hp Hscalar Hdist.
  pose proof (aggregate_probabilities_rows' t pi Hnd Hpi Hp Hscalar) as Hout.
  cbv zeta in Hout.
  set (metas := filter (λ c, c ∈ meta_columns) (colnames t)) in *.
  eexists _, (length metas). split; [exact Hout|]. split.
  - unfold column_index. cbn [colnames].
    rewrite (list_find_nodup _ (length metas) "probabilities").
    + done.
    + apply NoDup_app. split; [by apply NoDup_filter|].
      split; [|apply NoDup_singleton].
      intros c [Hc _]%list_elem_of_filter ->%list_elem_of_singleton. done.
    + by apply list_lookup_middle.
  - cbn [rows]. intros r (k & -> & Hk)%list_elem_of_fmap. cbv zeta.
    assert (Hklen : length k = length metas).
    { apply (proj1 (np_unique_elem k _)), list_elem_of_fmap in Hk
        as (r0 & -> & _).
      apply metadata_length. }
    replace (cell_at (length metas) _)
      with (Array (mean_axis0 ((λ r, cell_array (cell_at pi r))
                               <$> filter (λ r, metadata metas t r = k) (rows t)))).
    2:{ unfold cell_at. rewrite lookup_app_r by (rewrite length_fmap; lia).
        by rewrite length_fmap, Hklen, Nat.sub_diag. }
    cbn [cell_array]. apply mean_axis0_distribution.
    + apply (proj1 (np_unique_elem k _)), list_elem_of_fmap in Hk
        as (r0 & -> & Hr0).
      intros Hnil%fmap_nil_inv.
      assert (Hin : r0 ∈ filter (λ r, metadata metas t r = metadata metas t r0) (rows t)).
      { by apply list_elem_of_filter. }
      rewrite Hnil in Hin. by apply elem_of_nil in Hin.
    + apply Forall_fmap, Forall_forall. intros r [_ Hr]%list_elem_of_filter.
      apply (Hdist r Hr).
Qed.

(** X9: An aggregated table has no masked entry, so the first step of
    [make_confusion_matrix], which drops the rows whose type is masked,
    keeps every row of it: a supernova without a label enters the confusion
    matrix with the fill value of the column as its true type. *)
Theorem aggregated_rows_pass_the_mask_filter (t : Table) (pi : nat) :
  NoDup (colnames t) →
  column_index "probabilities" t = Ok pi →
  "probabilities" ∉ meta_columns →
  (∀ name, name ∈ meta_columns → scalar_column name t) →
  ∃ out,
    aggregate_probabilities t = Ok out ∧
    (∀ r c, r ∈ rows out → c ∈ r → cell_mask c = false) ∧
    (∀ types, get_column "type" out = Ok types →
       select_rows ((λ c, negb (cell_mask c)) <$> types) out = Ok out).
Proof.
  intros Hnd Hpi Hp Hscalar.
  pose proof (aggregate_probabilities_rows' t pi Hnd Hpi Hp Hscalar) as Hout.
  cbv zeta in Hout. eexists. split; [exact Hout|].
  match goal with |- context [Ok ?o] => set (out := o) end.
  assert (Hmask : ∀ r c, r ∈ rows out → c ∈ r → cell_mask c = false).
  { intros r c (k & -> & _)%list_elem_of_fmap [Hc|Hc]%elem_of_app.
    - by apply list_elem_of_fmap in Hc as (v & -> & _).
    - by apply list_elem_of_singleton in Hc as ->. }
  split; [exact Hmask|].
  intros types Htypes. unfold get_column in Htypes.
  destruct (column_index "type" out) as [ti|e] eqn:Eti; [|done].
  cbn [mbind result_bind] in Htypes.
  assert (types = cell_at ti <$> rows out) as -> by congruence.
  rewrite select_unmasked. unfold out at 3. do 2 f_equal.
  apply filter_all. intros r Hr. unfold cell_at.
  destruct (r !! ti) as [c|] eqn:Ec; [|done]. cbn.
  apply (Hmask r c Hr). by eapply list_elem_of_lookup_2.
Qed.

End AggregationMoreFacts.

(** ** More about the confusion matrix *)

Lemma mapM_result_length {A B} (f : A → result B) (l : list A) (k : list B) :
  mapM f l = Ok k → length k = length l.
Proof.
  revert k. induction l as [|x l IH]; intros k Hk; cbn in Hk.
  { by injection Hk as <-. }
  destruct (f x) as [y|e]; [|done]. cbn in Hk.
  destruct (mapM f l) as [k'|e]; [|done]. cbn in Hk. injection Hk as <-.
  cbn. by rewrite (IH k' eq_refl).
Qed.

Lemma mapM_result_raise {A B} (f : A → result B) (l : list A) (e : exception) :
  (∀ x, x ∈ l → is_ok (f x) ∨ f x = Raise e) →
  (∃ x, x ∈ l ∧ f x = Raise e) →
  mapM f l = Raise e.
Proof.
  induction l as [|x l IH]; intros Hall (x0 & Hin & Hx0).
  { by apply elem_of_nil in Hin. }
  cbn. destruct (Hall x (list_elem_of_here _ _)) as [Hok | ->]; [|done].
  destruct (f x) as [y|e'] eqn:E; [|done]. cbn.
  apply elem_of_cons in Hin as [-> | Hin]; [congruence|].
  rewrite IH; [done | | by exists x0].
  intros z Hz. apply Hall. by right.
Qed.

Lemma np_select_all {A} (mask : list bool) (x : list A) :
  Forall (λ b, b = true) mask → length mask = length x →
  np_select mask x = Ok x.
Proof.
  intros Hall Hlen. unfold np_select. rewrite decide_True by done. f_equal.
  revert x Hlen. induction Hall as [|b mask -> _ IH]; intros [|a x] Hlen; try done.
  cbn [zip_with]. rewrite filter_cons_True by done. rewrite fmap_cons. cbn [fst].
  f_equal. apply IH. by injection Hlen.
Qed.

(** [confusion_inputs] after its first lines: the rows with a type, their
    types and their probabilities. *)
Lemma confusion_inputs_unfold (results : Table) (classes : option (list value))
    (p_min : Q) (binary : bool) (ti pi : nat) :
  column_index "type" results = Ok ti →
  column_index "probabilities" results = Ok pi →
  let sntype r := cell_value (cell_at ti r) in
  let probs r := cell_array (cell_at pi r) in
  let labelled := filter (λ r, cell_mask (cell_at ti r) = false) (rows results) in
  let cls := default (np_unique (sntype <$> labelled)) classes in
  confusion_inputs results classes p_min binary =
  (let types := sntype <$> labelled in
   let probabilities := probs <$> labelled in
   if binary then
     let types := binary_type <$> types in
     i ← match list_find (λ c, c = SNIa) cls return result nat with
         | Some (i, _) => Ok i
         | None => Raise IndexError
         end;
     SNIa_probs ← mapM (λ p, np_index p i) probabilities;
     let classes := [CCSN; SNIa] in
     predicted_types ← mapM (λ p, np_choose (np_round p) classes) SNIa_probs;
     let include :=
       (λ p, Qltb p_min p || Qltb p (1 - p_min)%Q) <$> SNIa_probs in
     y_true ← np_select include types;
     y_pred ← np_select include predicted_types;
     Ok (classes, y_true, y_pred)
   else
     best ← mapM np_argmax probabilities;
     predicted_types ← mapM (np_index cls) best;
     top ← mapM np_max probabilities;
     let include := (λ p, Qltb p_min p) <$> top in
     y_true ← np_select include types;
     y_pred ← np_select include predicted_types;
     Ok (cls, y_true, y_pred)).
Proof.
  intros Hti Hpi sntype probs labelled cls.
  set (results' := {| colnames := colnames results; rows := labelled |}).
  assert (Hti' : column_index "type" results' = Ok ti) by exact Hti.
  assert (Hpi' : column_index "probabilities" results' = Ok pi) by exact Hpi.
  unfold confusion_inputs.
  rewrite (get_column_rows _ _ _ Hti). cbn [mbind result_bind].
  rewrite select_unmasked. fold labelled. fold results'.
  cbn [mbind result_bind].
  rewrite (get_column_rows _ _ _ Hti'), (get_column_rows _ _ _ Hpi').
  cbn [mbind result_bind rows results'].
  by rewrite <- !list_fmap_compose.
Qed.

(** X10: In binary mode a confidence threshold below one half filters nothing:
    every probability either exceeds [p_min] or is below [1 - p_min], so
    when [make_confusion_matrix] gets to its matrix, every row with a type
    has entered it. *)
Theorem binary_threshold_below_half_keeps_all (results : Table)
    (classes : option (list value)) (p_min : Q) (ti pi : nat)
    (cls y_true y_pred : list value) :
  column_index "type" results = Ok ti →
  column_index "probabilities" results = Ok pi →
  (p_min < 1 # 2)%Q →
  confusion_inputs results classes p_min true = Ok (cls, y_true, y_pred) →
  let labelled := filter (λ r, cell_mask (cell_at ti r) = false) (rows results) in
  y_true = (λ r, binary_type (cell_value (cell_at ti r))) <$> labelled ∧
  length y_pred = length labelled.
Proof.
  intros Hti Hpi Hmin Hrun labelled.
  rewrite (confusion_inputs_unfold _ _ _ _ _ _ Hti Hpi) in Hrun.
  cbv zeta in Hrun. fold labelled in Hrun.
  destruct (list_find _ _) as [[i c]|]; [|done]. cbn [mbind result_bind] in Hrun.
  destruct (mapM (λ p, np_index p i) _) as [SNIa_probs|e] eqn:Eprobs; [|done].
  cbn [mbind result_bind] in Hrun.
  destruct (mapM _ SNIa_probs) as [predicted|e] eqn:Epred; [|done].
  cbn [mbind result_bind] in Hrun.
  apply mapM_result_length in Eprobs, Epred. rewrite length_fmap in Eprobs.
  assert (Hall : Forall (λ b, b = true)
            ((λ p, Qltb p_min p || Qltb p (1 - p_min)%Q) <$> SNIa_probs)).
  { apply Forall_fmap, Forall_forall. intros p _. cbn.
    apply orb_true_iff. destruct (Qlt_le_dec p_min p) as [Hlt|Hle].
    - left. by apply Qltb_true.
    - right. apply Qltb_true. lra. }
  rewrite !np_select_all in Hrun by (rewrite ?length_fmap; congruence || done).
  cbn [mbind result_bind] in Hrun. injection Hrun as <- <- <-.
  split; [by rewrite <- list_fmap_compose | congruence].
Qed.

(** X11: Two ways in which [make_confusion_matrix] raises [IndexError].  In
    binary mode, when SNIa is not in the class list (with the default class
    list: when no supernova with a type is a SNIa).  In multiclass mode,
    when the largest probability of some row with a type stands at a
    position beyond the class list (with the default class list: when the
    classifier knows more classes than the types that occur), whether or
    not that row passes the confidence threshold. *)
Theorem confusion_inputs_index_errors (results : Table)
    (classes : option (list value)) (p_min : Q) (ti pi : nat) :
  column_index "type" results = Ok ti →
  column_index "probabilities" results = Ok pi →
  let sntype r := cell_value (cell_at ti r) in
  let probs r := cell_array (cell_at pi r) in
  let labelled := filter (λ r, cell_mask (cell_at ti r) = false) (rows results) in
  let cls := default (np_unique (sntype <$> labelled)) classes in
  (SNIa ∉ cls → confusion_inputs results classes p_min true = Raise IndexError) ∧
  ((∀ r, r ∈ labelled → probs r ≠ []) →
   (∃ r i, r ∈ labelled ∧ np_argmax (probs r) = Ok i ∧ length cls ≤ i) →
   confusion_inputs results classes p_min false = Raise IndexError).
Proof.
  intros Hti Hpi sntype probs labelled cls. split.
  - intros Hno. rewrite (confusion_inputs_unfold _ _ _ _ _ _ Hti Hpi).
    cbv zeta. fold sntype labelled cls.
    destruct (list_find _ cls) as [[i c]|] eqn:E; [|done].
    apply list_find_Some in E as (Hi & -> & _).
    destruct Hno. by eapply list_elem_of_lookup_2.
  - intros Hne (r0 & i0 & Hr0 & Hi0 & Hlong).
    rewrite (confusion_inputs_unfold _ _ _ _ _ _ Hti Hpi).
    cbv zeta. fold sntype probs labelled cls.
    destruct (mapM_result np_argmax (probs <$> labelled)) as (best & -> & Hbest).
    { intros xs (r & -> & Hr)%list_elem_of_fmap.
      destruct (np_argmax_bound (probs r)) as (i & -> & _); [by apply Hne | done]. }
    cbn [mbind result_bind].
    rewrite (mapM_result_raise (np_index cls) best IndexError); [done| |].
    + intros i _. unfold np_index. destruct (cls !! i); [by left | by right].
    + exists i0. split.
      * apply list_elem_of_lookup in Hr0 as [n Hn].
        apply Forall2_fmap_l in Hbest.
        destruct (Forall2_lookup_l _ _ _ _ _ Hbest Hn) as (i & Hi & Hri).
        cbn in Hri. assert (i = i0) as -> by congruence.
        by eapply list_elem_of_lookup_2.
      * unfold np_index. by rewrite lookup_ge_None_2.
Qed.

(** *** Normalized rows and columns *)

Lemma sum_nonneg (xs : list Z) :
  Forall (λ x, (0 ≤ x)%Z) xs → (0 ≤ foldr Z.add 0 xs)%Z.
Proof. induction 1; cbn [foldr]; lia. Qed.

Lemma sum_bound (xs : list Z) (c : Z) :
  Forall (λ x, (0 ≤ x)%Z) xs → c ∈ xs → (c ≤ foldr Z.add 0 xs)%Z.
Proof.
  induction 1 as [|x xs Hx Hxs IH]; intros Hc; [by apply elem_of_nil in Hc|].
  pose proof (sum_nonneg xs Hxs). cbn [foldr].
  apply elem_of_cons in Hc as [->|Hc]; [lia|]. specialize (IH Hc). lia.
Qed.

Lemma Qsum_inject (xs : list Z) :
  (Qsum (inject_Z <$> xs) == inject_Z (foldr Z.add 0%Z xs))%Q.
Proof.
  induction xs as [|x xs IH]; [done|]. cbn [fmap list_fmap foldr Qsum].
  change (foldr Qplus 0%Q ?l) with (Qsum l). by rewrite IH, inject_Z_plus.
Qed.

(** Counts divided by their total, when the total is not zero: finite
    fractions between 0 and 1 that sum to one. *)
Lemma fractions_of_total (xs : list Z) :
  let total := foldr Z.add 0%Z xs in
  Forall (λ x, (0 ≤ x)%Z) xs → total ≠ 0%Z →
  let qs := (λ c, inject_Z c / inject_Z total)%Q <$> xs in
  (λ c, true_divide c total) <$> xs = Finite <$> qs ∧
  (Qsum qs == 1)%Q ∧
  Forall (λ q, (0 <= q)%Q ∧ (q <= 1)%Q) qs.
Proof.
  intros total Hpos Htotal qs.
  assert (HT : (0 < inject_Z total)%Q).
  { rewrite <- (Zlt_Qlt 0). pose proof (sum_nonneg xs Hpos). fold total in H. lia. }
  split; [|split].
  - unfold qs. rewrite <- list_fmap_compose. apply list_fmap_ext.
    intros i c _. cbn. unfold true_divide.
    by destruct (Z.eqb_spec total 0).
  - unfold qs.
    rewrite (list_fmap_compose inject_Z (λ q, q / inject_Z total)%Q).
    rewrite Qsum_scale, Qsum_inject. fold total. field. lra.
  - unfold qs. apply Forall_fmap, Forall_forall. intros c Hc. cbn.
    pose proof (sum_bound xs c Hpos Hc) as Hle. fold total in Hle.
    rewrite Forall_forall in Hpos. specialize (Hpos c Hc).
    split.
    + apply Qle_shift_div_l; [done|]. rewrite Qmult_0_l.
      by rewrite <- (Zle_Qle 0).
    + apply Qle_shift_div_r; [done|]. rewrite Qmult_1_l.
      by rewrite <- Zle_Qle.
Qed.

(** X12: Where a class has a total, its normalized cells are proper fractions:
    in completeness mode the cells of a row whose total is not zero are
    finite, between 0 and 1, and sum to one; in purity mode so are the cells
    of a column whose total is not zero. *)
Theorem normalize_fractions_sum_to_one (m : list (list Z)) (n : nat) :
  Forall (λ r, length r = n) m →
  Forall (Forall (λ c, (0 ≤ c)%Z)) m →
  (∀ i r, m !! i = Some r → foldr Z.add 0%Z r ≠ 0%Z →
     ∃ qs, normalize m false !! i = Some (Finite <$> qs) ∧
           length qs = n ∧ (Qsum qs == 1)%Q ∧
           Forall (λ q, (0 <= q)%Q ∧ (q <= 1)%Q) qs) ∧
  (∀ j, j < n → foldr Z.add 0%Z (np_column j m) ≠ 0%Z →
     ∃ qs, (λ r, default NaN (r !! j)) <$> normalize m true = Finite <$> qs ∧
           length qs = length m ∧ (Qsum qs == 1)%Q ∧
           Forall (λ q, (0 <= q)%Q ∧ (q <= 1)%Q) qs).
Proof.
  intros Hrect Hpos. split.
  - intros i r Hr Htotal.
    assert (Hrpos : Forall (λ c, (0 ≤ c)%Z) r).
    { rewrite Forall_forall in Hpos. apply Hpos. by eapply list_elem_of_lookup_2. }
    destruct (fractions_of_total r Hrpos Htotal) as (Hdiv & Hsum & Hunit).
    eexists. split; [|split; [|by split]].
    + unfold normalize, sum_axis1. rewrite zip_with_fmap_r, zip_with_diag.
      rewrite list_lookup_fmap, Hr. cbn. by rewrite Hdiv.
    + rewrite length_fmap. rewrite Forall_forall in Hrect. apply Hrect.
      by eapply list_elem_of_lookup_2.
  - intros j Hj Htotal.
    assert (Hne : m ≠ []) by (intros ->; done).
    assert (Hcpos : Forall (λ c, (0 ≤ c)%Z) (np_column j m)).
    { unfold np_column. apply Forall_fmap, Forall_forall. intros r Hr. cbn.
      destruct (r !! j) as [c|] eqn:Ec; [|done]. cbn.
      rewrite Forall_forall in Hpos. specialize (Hpos r Hr).
      rewrite Forall_forall in Hpos. apply Hpos. by eapply list_elem_of_lookup_2. }
    destruct (fractions_of_total _ Hcpos Htotal) as (Hdiv & Hsum & Hunit).
    eexists. split; [|split; [|by split]].
    + rewrite <- Hdiv. unfold normalize, np_column.
      rewrite <- !list_fmap_compose. apply Forall_fmap_ext, Forall_forall.
      intros r Hr. cbn.
      rewrite lookup_zip_with, (sum_axis0_lookup n j m Hrect Hne Hj).
      destruct (lookup_lt_is_Some_2 r j) as [c ->]; [|done].
      rewrite Forall_forall in Hrect. by rewrite (Hrect r Hr).
    + unfold np_column. by rewrite !length_fmap.
Qed.

(** ** Feature extraction *)

(** *** Extinction ratios *)

Lemma R_filter_raise (R_filters : option (gmap string Q)) (e : exception)
    (filters : list string) :
  foldl (R_filter_step R_filters) (Raise e) filters = Raise e.
Proof. induction filters as [|f l IH]; [done|]. exact IH. Qed.

Lemma R_filter_acc (filters : list string) (R_filters : option (gmap string Q)) :
  ∀ (acc l : list Q),
  foldl (R_filter_step R_filters) (Ok acc) filters = Ok l
  ↔ ∃ l', l = acc ++ l' ∧
          Forall2 (λ f R, ¬ overridden R_filters f ∧ R_FILTERS !! f = Some R)
                  filters l'.
Proof.
  induction filters as [|f rest IH]; intros acc l.
  { cbn [foldl]. split.
    - intros [= <-]. exists []. by rewrite app_nil_r.
    - intros (l' & -> & Hl'). inversion Hl'. by rewrite app_nil_r. }
  cbn [foldl]. unfold R_filter_step at 2. cbn [mbind result_bind].
  destruct (bool_decide (overridden R_filters f)) eqn:Eo.
  { apply bool_decide_eq_true in Eo. rewrite R_filter_raise. split; [done|].
    intros (l' & _ & Hl'). inversion Hl' as [|? ? ? ? [Hno _]]. done. }
  apply bool_decide_eq_false in Eo.
  destruct (R_FILTERS !! f) as [R|] eqn:ER.
  - rewrite IH. split.
    + intros (l' & -> & Hl'). exists (R :: l').
      rewrite <- (assoc_L (++)). split; [done|]. by constructor.
    + intros (l' & -> & Hl'). inversion Hl' as [|? R' ? l'' [_ HR] Hrest]; subst.
      assert (R' = R) as -> by congruence.
      exists l''. by rewrite <- (assoc_L (++)).
  - rewrite R_filter_raise. split; [done|]. intros (l' & _ & Hl').
    inversion Hl' as [|? ? ? ? [_ HR]]. congruence.
Qed.

Lemma R_filter_failure (pre post : list string) (fltr : string)
    (R_filters : option (gmap string Q)) :
  Forall (λ f, ¬ overridden R_filters f ∧ is_Some (R_FILTERS !! f)) pre →
  ∀ acc,
  foldl (R_filter_step R_filters) (Ok acc) (pre ++ fltr :: post) =
  if bool_decide (overridden R_filters fltr) then
    Raise (TypeError "list indices must be integers or slices, not str")
  else
    match R_FILTERS !! fltr with
    | Some R => foldl (R_filter_step R_filters) (Ok acc) (pre ++ fltr :: post)
    | None => Raise (unrecognized_filter fltr)
    end.
Proof.
  induction 1 as [|f pre [Hno [R HR]] _ IH]; intros acc.
  - cbn [app foldl]. unfold R_filter_step at 2 4. cbn [mbind result_bind].
    destruct (bool_decide _); [apply R_filter_raise|].
    destruct (R_FILTERS !! fltr); [done | apply R_filter_raise].
  - cbn [app foldl]. unfold R_filter_step at 2 4. cbn [mbind result_bind].
    rewrite bool_decide_eq_false_2, HR by done. apply IH.
Qed.

(** X13: The list of extinction ratios is returned exactly when every filter
    has a built-in ratio and none is a key of the [R_filters] given by the
    caller; it then holds the built-in ratios, in the order of the filters.
    A ratio supplied by the caller is never used. *)
Theorem R_filter_returns_builtin_ratios (filters : list string)
    (R_filters : option (gmap string Q)) (l : list Q) :
  R_filter filters R_filters = Ok l ↔
  Forall2 (λ f R, ¬ overridden R_filters f ∧ R_FILTERS !! f = Some R) filters l.
Proof.
  unfold R_filter. rewrite R_filter_acc. split.
  - by intros (l' & -> & Hl').
  - intros Hl. by exists l.
Qed.

(** X14: The first filter that is overridden or unknown decides the exception:
    [TypeError] for a filter that is a key of [R_filters] (whether or not it
    also has a built-in ratio), [ValueError] for a filter that is in neither
    dictionary. *)
Theorem R_filter_first_failure (pre post : list string) (fltr : string)
    (R_filters : option (gmap string Q)) :
  Forall (λ f, ¬ overridden R_filters f ∧ is_Some (R_FILTERS !! f)) pre →
  (overridden R_filters fltr →
   R_filter (pre ++ fltr :: post) R_filters
   = Raise (TypeError "list indices must be integers or slices, not str")) ∧
  (¬ overridden R_filters fltr → R_FILTERS !! fltr = None →
   R_filter (pre ++ fltr :: post) R_filters = Raise (unrecognized_filter fltr)).
Proof.
  intros Hpre. unfold R_filter.
  rewrite (R_filter_failure pre post fltr R_filters Hpre). split.
  - intros Ho. by rewrite bool_decide_eq_true_2.
  - intros Ho HR. by rewrite bool_decide_eq_false_2, HR.
Qed.

(** *** Events with finite draws *)

Lemma forallb_id_fmap {A} (f : A → bool) (l : list A) :
  forallb id (f <$> l) = forallb f l.
Proof. induction l as [|a l IH]; [done|]. cbn. by rewrite IH. Qed.

Lemma chunks_fmap {A B} (f : A → B) (n k : nat) (l : list A) :
  chunks n k (f <$> l) = (λ c : list A, f <$> c) <$> chunks n k l.
Proof.
  revert l. induction k as [|k IH]; intros l; [done|].
  cbn [chunks]. by rewrite fmap_cons, fmap_take, <- fmap_drop, IH.
Qed.

Lemma chunks_concat {A} (n k : nat) (l : list A) :
  length l = k * n → concat (chunks n k l) = l.
Proof.
  revert l. induction k as [|k IH]; intros l Hl.
  { by destruct l. }
  cbn [chunks concat]. rewrite IH, take_drop; [done|].
  rewrite length_drop. lia.
Qed.

Lemma chunks_lengths {A} (n k : nat) (l : list A) :
  length l = k * n → Forall (λ c, length c = n) (chunks n k l).
Proof.
  revert l. induction k as [|k IH]; intros l Hl; [constructor|].
  cbn [chunks]. constructor.
  - rewrite length_take. lia.
  - apply IH. rewrite length_drop. lia.
Qed.

Lemma select_replicate {A} (x : list A) (b : bool) :
  fst <$> filter (λ p, p.2 = true) (zip x (replicate (length x) b))
  = if b then x else [].
Proof.
  induction x as [|a x IH]; [by destruct b|].
  cbn [length replicate zip_with]. rewrite filter_cons. cbn [snd].
  destruct b; [rewrite decide_True by done | rewrite decide_False by done].
  - rewrite fmap_cons. cbn [fst]. by rewrite IH.
  - exact IH.
Qed.

(** Selecting with the mask that repeats, [n] times each, whether a piece
    of [n] elements passes as a whole, keeps the pieces that pass. *)
Lemma select_chunks {A} (fin : A → bool) (n k : nat) (x : list A) :
  length x = k * n →
  fst <$> filter (λ p, p.2 = true)
            (zip x (concat (replicate n <$> (forallb id <$> chunks n k (fin <$> x)))))
  = concat (filter (λ ev, forallb fin ev = true) (chunks n k x)).
Proof.
  revert x. induction k as [|k IH]; intros x Hx.
  { by destruct x. }
  cbn [chunks]. rewrite !fmap_cons. cbn [concat].
  rewrite <- (take_drop n x) at 1.
  assert (Hn : length (take n x) = n) by (rewrite length_take; lia).
  rewrite zip_with_app by by rewrite length_replicate.
  rewrite filter_app, fmap_app, <- fmap_take, forallb_id_fmap.
  rewrite <- Hn at 2. rewrite select_replicate.
  rewrite <- fmap_drop, IH by (rewrite length_drop; lia).
  rewrite filter_cons.
  destruct (forallb fin (take n x)).
  - by rewrite decide_True.
  - by rewrite decide_False.
Qed.

Lemma np_select_zip {A B} (mask : list bool) (x : list A) (y : list B) :
  length x = length y → length mask = length x →
  np_select mask x = Ok (fst <$> (fst <$> filter (λ p, p.2 = true) (zip (zip x y) mask))) ∧
  np_select mask y = Ok (snd <$> (fst <$> filter (λ p, p.2 = true) (zip (zip x y) mask))).
Proof.
  intros Hxy Hm. unfold np_select. rewrite !decide_True by congruence.
  split; f_equal.
  - clear Hm. revert x y Hxy.
    induction mask as [|b mask IH]; intros [|a x] [|c y] Hxy; try done.
    cbn [zip_with]. rewrite !filter_cons. cbn [snd]. injection Hxy as Hxy.
    destruct (decide (b = true)); cbn [fmap list_fmap fst]; by rewrite (IH x y).
  - clear Hm. revert x y Hxy.
    induction mask as [|b mask IH]; intros [|a x] [|c y] Hxy; try done.
    cbn [zip_with]. rewrite !filter_cons. cbn [snd]. injection Hxy as Hxy.
    destruct (decide (b = true)); cbn [fmap list_fmap fst snd]; by rewrite (IH x y).
Qed.

Lemma elem_of_concat {A} (x : A) (ls : list (list A)) :
  x ∈ concat ls → ∃ l, x ∈ l ∧ l ∈ ls.
Proof.
  induction ls as [|l ls IH]; cbn [concat]; [by intros ?%elem_of_nil|].
  intros [Hx|Hx]%elem_of_app.
  - exists l. split; [done | left].
  - destruct (IH Hx) as (l' & Hl' & Hin). exists l'. split; [done | by right].
Qed.

Lemma concat_length_uniform {A} (n : nat) (ls : list (list A)) :
  Forall (λ c, length c = n) ls → length (concat ls) = length ls * n.
Proof.
  induction 1 as [|c ls Hc _ IH]; [done|].
  cbn [concat length]. rewrite length_app, IH, Hc. lia.
Qed.

(** X15: [select_good_events] on a table of [k] events of [n] draws each, with
    the data of every draw: the table and the data are cut into the events,
    and the events all of whose draws are finite are kept, whole and in
    order.  So the selected table and the selected data stay aligned, have
    [n] rows for every event kept, and hold finite values only. *)
Theorem select_good_events_keeps_finite_events (meta : gmap string Z)
    (t : Table) (data : list (list (list np_float))) (n k : nat) :
  meta !! "ndraws" = Some (Z.of_nat n) →
  0 < n →
  length (rows t) = k * n →
  length data = k * n →
  let events := chunks n k (zip (rows t) data) in
  let good := filter (λ ev, finite_event ev = true) events in
  select_good_events meta t data
    = Ok ({| colnames := colnames t; rows := fst <$> concat good |},
          snd <$> concat good) ∧
  length (concat good) = length good * n ∧
  Forall (λ draw, finite_draw draw = true) (snd <$> concat good).
Proof.
  intros Hmeta Hn Ht Hdata events good.
  assert (Hzip : length (zip (rows t) data) = k * n).
  { rewrite length_zip_with. lia. }
  split; [|split].
  - unfold select_good_events, meta_lookup. rewrite Hmeta.
    cbn [mbind result_bind]. cbv zeta.
    rewrite <- list_fmap_compose.
    rewrite (list_fmap_ext _ finite_draw data).
    2:{ intros i draw _. cbn. unfold finite_draw.
        induction draw as [|lc draw IH]; [done|].
        rewrite fmap_cons. cbn [forallb]. by rewrite forallb_id_fmap, IH. }
    unfold np_reshape_rows. rewrite length_fmap, Hdata.
    replace ((0 <? Z.of_nat n)%Z) with true by (symmetry; apply Z.ltb_lt; lia).
    replace ((Z.of_nat (k * n) mod Z.of_nat n =? 0)%Z) with true.
    2:{ symmetry. apply Z.eqb_eq. rewrite Nat2Z.inj_mul. apply Z_mod_mult. }
    cbn [andb mbind result_bind]. rewrite Nat2Z.id, Nat.div_mul by lia.
    unfold np_repeat.
    replace ((Z.of_nat n <? 0)%Z) with false by (symmetry; apply Z.ltb_ge; lia).
    cbn [mbind result_bind]. rewrite Nat2Z.id.
    set (mask := concat (replicate n <$> (forallb id <$> chunks n k (finite_draw <$> data)))).
    assert (Hmask : mask =
      concat (replicate n <$> (forallb id <$>
        chunks n k ((λ p : list cell * list (list np_float), finite_draw p.2)
                    <$> zip (rows t) data)))).
    { unfold mask. do 4 f_equal. rewrite <- (snd_zip (rows t) data) at 1 by lia.
      by rewrite <- list_fmap_compose. }
    assert (Hlen : length mask = length (rows t)).
    { unfold mask. rewrite (concat_length_uniform n).
      - rewrite !length_fmap.
        assert (Hc : ∀ (l : list bool), length (chunks n k l) = k).
        { clear. induction k as [|k IH]; intros l; [done|]. cbn. by rewrite IH. }
        rewrite Hc. lia.
      - apply Forall_fmap, Forall_forall. intros b _. apply length_replicate. }
    destruct (np_select_zip mask (rows t) data) as [Hsel_t Hsel_d]; [lia | done |].
    unfold select_rows. rewrite Hsel_t, Hsel_d. cbn [mbind result_bind].
    rewrite Hmask, select_chunks by done. done.
  - apply concat_length_uniform.
    assert (Hall : Forall (λ c, length c = n) events) by by apply chunks_lengths.
    rewrite Forall_forall in Hall. apply Forall_forall.
    intros ev [_ Hev]%list_elem_of_filter. by apply Hall.
  - apply Forall_fmap, Forall_forall. intros p Hp.
    apply elem_of_concat in Hp as (ev & Hp & Hev).
    apply list_elem_of_filter in Hev as [Hfin _].
    unfold finite_event in Hfin. rewrite forallb_forall in Hfin.
    apply Hfin. by apply list_elem_of_In.
Qed.

Lemma chunks_length {A} (n k : nat) (l : list A) : length (chunks n k l) = k.
Proof. revert l. induction k as [|k IH]; intros l; [done|]. cbn. by rewrite IH. Qed.

(** X16: How [select_good_events] fails: with [KeyError] when the table has no
    ['ndraws'] in its [meta]; with numpy's [ValueError] when [ndraws] is not
    positive or does not divide the number of draws in the data; with
    [IndexError] when the table and the data differ in length. *)
Theorem select_good_events_errors (meta : gmap string Z) (t : Table)
    (data : list (list (list np_float))) :
  (meta !! "ndraws" = None →
   select_good_events meta t data = Raise (KeyError "ndraws")) ∧
  (∀ ndraws, meta !! "ndraws" = Some ndraws →
     (ndraws ≤ 0)%Z ∨ (Z.of_nat (length data) mod ndraws ≠ 0)%Z →
     select_good_events meta t data
     = Raise (ValueError "cannot reshape array into shape (-1, ncols)")) ∧
  (∀ ndraws, meta !! "ndraws" = Some ndraws →
     (0 < ndraws)%Z → (Z.of_nat (length data) mod ndraws = 0)%Z →
     length (rows t) ≠ length data →
     select_good_events meta t data = Raise IndexError).
Proof.
  split; [|split].
  - intros Hmeta. unfold select_good_events, meta_lookup. by rewrite Hmeta.
  - intros ndraws Hmeta Hbad. unfold select_good_events, meta_lookup.
    rewrite Hmeta. cbn [mbind result_bind]. cbv zeta.
    unfold np_reshape_rows. rewrite !length_fmap.
    destruct Hbad as [Hle | Hmod].
    + replace ((0 <? ndraws)%Z) with false by (symmetry; apply Z.ltb_ge; lia).
      done.
    + replace ((Z.of_nat (length data) mod ndraws =? 0)%Z) with false
        by (symmetry; by apply Z.eqb_neq).
      by rewrite andb_false_r.
  - intros ndraws Hmeta Hpos Hmod Hlen. unfold select_good_events, meta_lookup.
    rewrite Hmeta. cbn [mbind result_bind]. cbv zeta.
    unfold np_reshape_rows. rewrite !length_fmap.
    replace ((0 <? ndraws)%Z) with true by (symmetry; apply Z.ltb_lt; lia).
    replace ((Z.of_nat (length data) mod ndraws =? 0)%Z) with true
      by (symmetry; by apply Z.eqb_eq).
    cbn [andb mbind result_bind]. unfold np_repeat.
    replace ((ndraws <? 0)%Z) with false by (symmetry; apply Z.ltb_ge; lia).
    cbn [mbind result_bind]. unfold select_rows, np_select.
    rewrite (decide_False (P := length _ = length (rows t))); [reflexivity|].
    rewrite (concat_length_uniform (Z.to_nat ndraws)).
    2:{ apply Forall_fmap, Forall_forall. intros b _. apply length_replicate. }
    rewrite !length_fmap, chunks_length.
    intros Heq. apply Hlen. rewrite <- Heq.
    apply Z.mod_divide in Hmod; [|lia]. destruct Hmod as [q Hq].
    assert (Hd : length data = Z.to_nat q * Z.to_nat ndraws) by nia.
    rewrite Hd at 1. rewrite Nat.div_mul by lia. done.
Qed.

(** ** Result files *)

Lemma positions_lookup {A} (P : A → Prop) `{!∀ a, Decision (P a)}
    (pre l : list A) :
  Forall2 (λ n i, (pre ++ l) !! i = Some n) (filter P l) (positions P (length pre) l).
Proof.
  revert pre. induction l as [|a l IH]; intros pre; [constructor|].
  cbn [positions]. rewrite filter_cons.
  specialize (IH (pre ++ [a])). rewrite length_app, Nat.add_1_r in IH.
  rewrite <- (assoc_L (++)) in IH. cbn [app] in IH.
  destruct (decide (P a)); [|done]. constructor; [|done].
  by rewrite list_lookup_middle.
Qed.

Lemma positions_cells {A} (P : A → Prop) `{!∀ a, Decision (P a)}
    (l : list A) :
  ∀ (rpre rl : list cell),
  length rl = length l →
  (λ i, cell_at i (rpre ++ rl)) <$> positions P (length rpre) l
  = fst <$> filter (λ p, P p.2) (zip rl l).
Proof.
  induction l as [|a l IH]; intros rpre [|c rl] Hlen; try done.
  cbn [positions zip_with]. rewrite filter_cons. cbn [snd].
  injection Hlen as Hlen.
  specialize (IH (rpre ++ [c]) rl Hlen).
  rewrite length_app, Nat.add_1_r, <- (assoc_L (++)) in IH. cbn [app] in IH.
  destruct (decide (P a)); [|done].
  rewrite !fmap_cons, IH. cbn [fst]. f_equal.
  unfold cell_at. by rewrite list_lookup_middle.
Qed.

(** Selecting, in their order, the columns of a table that satisfy [P]. *)
Lemma select_columns_filter (P : string → Prop) `{!∀ a, Decision (P a)}
    (t : Table) :
  NoDup (colnames t) → well_formed t →
  mapM (λ n, column_index n t) (filter P (colnames t))
    = Ok (positions P 0 (colnames t)) ∧
  select_columns (filter P (colnames t)) t
    = Ok {| colnames := filter P (colnames t);
            rows := (λ r, fst <$> filter (λ p, P p.2) (zip r (colnames t)))
                    <$> rows t |}.
Proof.
  intros Hnd Hwf.
  assert (Hidx : mapM (λ n, column_index n t) (filter P (colnames t))
                 = Ok (positions P 0 (colnames t))).
  { apply mapM_result_Forall2.
    eapply Forall2_impl; [apply (positions_lookup P [] (colnames t))|].
    intros n i Hi. cbn in Hi. unfold column_index.
    by rewrite (list_find_nodup _ i n Hnd Hi). }
  split; [done|]. unfold select_columns.
  rewrite decide_True by by apply NoDup_filter.
  rewrite Hidx. cbn [mbind result_bind]. do 2 f_equal.
  apply Forall_fmap_ext. eapply Forall_impl; [exact Hwf|]. intros r Hr. cbn.
  by rewrite <- (positions_cells P (colnames t) [] r Hr).
Qed.

Lemma set_column_append (name : string) (vals : list cell) (t : Table) :
  colnames t ≠ [] → name ∉ colnames t → length vals = length (rows t) →
  set_column name vals t
  = Ok {| colnames := colnames t ++ [name];
          rows := zip_with (λ r v, r ++ [v]) (rows t) vals |}.
Proof.
  intros Hne Hname Hlen. unfold set_column.
  destruct (colnames t) as [|c cs] eqn:E; [done|]. rewrite <- E in *.
  rewrite decide_True by done.
  destruct (list_find _ _) as [[i c']|] eqn:Ef; [|done].
  apply list_find_Some in Ef as (Hi & -> & _).
  destruct Hname. by eapply list_elem_of_lookup_2.
Qed.

Lemma set_column_same (name : string) (t : Table) (i : nat) :
  well_formed t → column_index name t = Ok i →
  set_column name (cell_at i <$> rows t) t = Ok t.
Proof.
  intros Hwf Hi. unfold set_column.
  pose proof (column_index_lt _ _ _ Hi) as [Hlt _].
  destruct (colnames t) as [|c cs] eqn:E; [cbn in Hlt; lia|]. rewrite <- E in *.
  rewrite decide_True by by rewrite length_fmap.
  unfold column_index in Hi.
  destruct (list_find _ _) as [[j c']|]; [|done]. injection Hi as ->.
  destruct t as [cols rs]. cbn [colnames rows] in *. do 2 f_equal.
  rewrite zip_with_fmap_r, zip_with_diag.
  rewrite <- (list_fmap_id rs) at 2. apply Forall_fmap_ext, Forall_forall.
  intros r Hr. cbn. apply list_insert_id. unfold cell_at.
  unfold well_formed in Hwf. cbn [colnames rows] in Hwf.
  rewrite Forall_forall in Hwf. specialize (Hwf r Hr). cbn in Hwf.
  destruct (lookup_lt_is_Some_2 r i) as [c0 ->]; [lia | done].
Qed.

Section ResultFilesFacts.
Variable meta_columns : list string.

Local Abbreviation write_results := (write_results meta_columns).
Local Abbreviation load_results := (load_results meta_columns).
Local Abbreviation meta_cells := (meta_cells meta_columns).
Local Abbreviation class_cells := (class_cells meta_columns).

Lemma write_class_column_raise (t : Table) (e : exception)
    (items : list (nat * string)) :
  foldl (write_class_column t) (Raise e) items = Raise e.
Proof. induction items as [|it l IH]; [done|]. exact IH. Qed.

Lemma formats_lookup (classes : list string) (f0 : gmap string string) (x : string) :
  foldl (λ f c, <[c := "%.3f"]> f) f0 classes !! x
  = if decide (x ∈ classes) then Some "%.3f" else f0 !! x.
Proof.
  revert f0. induction classes as [|c cs IH]; intros f0; [done|].
  cbn [foldl]. rewrite IH.
  destruct (decide (x ∈ cs)) as [Hin|Hout].
  - rewrite decide_True; [done | by right].
  - destruct (decide (x = c)) as [->|Hne].
    + rewrite lookup_insert_eq, decide_True; [done | left].
    + rewrite lookup_insert_ne by done. rewrite decide_False; [done|].
      intros [?|?]%elem_of_cons; congruence.
Qed.

(** The loop of [write_results] over the classes. *)
Lemma write_class_columns (t : Table) (pi : nat) (out0 : Table)
    (f0 : gmap string string) (classes : list string) :
  column_index "probabilities" t = Ok pi →
  colnames out0 ≠ [] → length (rows out0) = length (rows t) →
  NoDup classes → (∀ c, c ∈ classes → c ∉ colnames out0) →
  (∀ r, r ∈ rows t → length classes ≤ length (cell_array (cell_at pi r))) →
  foldl (write_class_column t) (Ok (out0, f0)) (imap pair classes)
  = Ok ({| colnames := colnames out0 ++ classes;
           rows := zip_with
                     (λ r0 r, r0 ++ (float_cell <$> take (length classes)
                                       (cell_array (cell_at pi r))))
                     (rows out0) (rows t) |},
        foldl (λ f c, <[c := "%.3f"]> f) f0 classes).
Proof.
  intros Hpi Hne Hlen.
  induction classes as [|c cs IH] using rev_ind; intros Hnd Hfresh Hwide.
  { cbn. rewrite app_nil_r. do 3 f_equal. destruct out0 as [cols rs].
    cbn [rows colnames] in *. f_equal.
    clear -Hlen. revert Hlen. generalize (rows t).
    induction rs as [|r rs IH]; intros [|r' l] Hlen; try done.
    cbn. rewrite app_nil_r. f_equal. apply IH. by injection Hlen. }
  apply NoDup_app in Hnd as (Hnd & Hc & _).
  rewrite imap_app, foldl_app. cbn [imap foldl]. rewrite Nat.add_0_r.
  rewrite IH.
  2:{ done. }
  2:{ intros c' Hc'. apply Hfresh, elem_of_app. by left. }
  2:{ intros r Hr. specialize (Hwide r Hr). rewrite length_app in Hwide. lia. }
  unfold write_class_column. cbn [mbind result_bind fst snd].
  rewrite (get_column_rows _ _ _ Hpi). cbn [mbind result_bind].
  rewrite (mapM_result_fmap' _ (cell_at pi)
             (λ r, default 0%Q (cell_array (cell_at pi r) !! length cs))).
  2:{ intros r Hr. specialize (Hwide r Hr). rewrite length_app in Hwide.
      cbn in Hwide. unfold np_index.
      destruct (lookup_lt_is_Some_2 (cell_array (cell_at pi r)) (length cs))
        as [q ->]; [lia | done]. }
  cbn [mbind result_bind].
  rewrite set_column_append.
  2:{ cbn [colnames]. intros Hnil. apply app_eq_nil in Hnil as [? _]. done. }
  2:{ cbn [colnames]. intros [Hin|Hin]%elem_of_app.
      - apply (Hfresh c); [|done]. apply elem_of_app. right. left.
      - apply (Hc c); [done | left]. }
  2:{ cbn [rows]. rewrite !length_fmap, length_zip_with. lia. }
  cbn [mbind result_bind colnames rows]. rewrite foldl_app. cbn [foldl].
  rewrite <- (assoc_L (++)). do 3 f_equal.
  rewrite length_app. cbn [length]. rewrite Nat.add_1_r.
  assert (Hw : Forall (λ r, length cs < length (cell_array (cell_at pi r))) (rows t)).
  { apply Forall_forall. intros r Hr. specialize (Hwide r Hr).
    rewrite length_app in Hwide. cbn in Hwide. lia. }
  clear -Hw Hlen. revert Hlen Hw. generalize (rows out0). generalize (rows t).
  intros l. induction l as [|r l IHl]; intros [|r0 l0] Hlen Hw; try done.
  apply Forall_cons in Hw as [Hr Hw].
  rewrite !fmap_cons. cbn [zip_with]. f_equal.
  - rewrite <- (assoc_L (++)). f_equal.
    destruct (lookup_lt_is_Some_2 _ _ Hr) as [q Hq].
    rewrite (take_S_r _ _ _ Hq), fmap_app, Hq. done.
  - apply IHl; [by injection Hlen | done].
Qed.

(** What [write_results] computes, on inputs that it accepts. *)
Lemma write_results_run (t : Table) (classes : list string) (pi : nat) :
  NoDup (colnames t) → well_formed t →
  "MWEBV" ∈ meta_columns → "MWEBV" ∈ colnames t →
  "redshift" ∈ meta_columns → "redshift" ∈ colnames t →
  column_index "probabilities" t = Ok pi →
  NoDup classes → (∀ c, c ∈ classes → c ∉ meta_columns) →
  (∀ r, r ∈ rows t → length classes ≤ length (cell_array (cell_at pi r))) →
  ∃ formats,
    write_results t classes
    = Ok ({| colnames := filter (λ c, c ∈ meta_columns) (colnames t) ++ classes;
             rows := (λ r, meta_cells (colnames t) r
                           ++ (float_cell <$> take (length classes)
                                 (cell_array (cell_at pi r))))
                     <$> rows t |},
          formats) ∧
    formats !! "MWEBV" = Some "%.4f" ∧
    formats !! "redshift" = Some "%.4f" ∧
    (∀ c, c ∈ classes → formats !! c = Some "%.3f").
Proof.
  intros Hnd Hwf HM1 HM2 HR1 HR2 Hpi Hcls Hfresh Hwide.
  destruct (select_columns_filter (λ c, c ∈ meta_columns) t Hnd Hwf) as [_ Hsel].
  set (metas := filter (λ c, c ∈ meta_columns) (colnames t)) in *.
  assert (HMm : "MWEBV" ∈ metas) by by apply list_elem_of_filter.
  assert (HRm : "redshift" ∈ metas) by by apply list_elem_of_filter.
  eexists. unfold write_results. fold metas. rewrite Hsel.
  cbn [mbind result_bind].
  destruct (column_index_present "MWEBV"
              {| colnames := metas;
                 rows := (λ r, (filter (λ p, p.2 ∈ meta_columns)
                                  (zip r (colnames t))).*1) <$> rows t |} HMm)
    as [i1 ->].
  destruct (column_index_present "redshift"
              {| colnames := metas;
                 rows := (λ r, (filter (λ p, p.2 ∈ meta_columns)
                                  (zip r (colnames t))).*1) <$> rows t |} HRm)
    as [i2 ->].
  cbn [mbind result_bind].
  rewrite (write_class_columns t pi); try done.
  - cbn [colnames rows]. split; [|split; [|split]].
    + do 3 f_equal. by rewrite zip_with_fmap_l, zip_with_diag.
    + rewrite formats_lookup, decide_False.
      * rewrite lookup_insert_ne by done. apply lookup_singleton_eq.
      * intros Hin. by apply (Hfresh _ Hin).
    + rewrite formats_lookup, decide_False.
      * apply lookup_insert_eq.
      * intros Hin. by apply (Hfresh _ Hin).
    + intros c Hc. by rewrite formats_lookup, decide_True.
  - cbn [colnames]. intros Hnil. rewrite Hnil in HMm. by apply elem_of_nil in HMm.
  - cbn [rows]. by rewrite length_fmap.
  - cbn [colnames]. intros c Hc [Hin _]%list_elem_of_filter.
    by apply (Hfresh c).
Qed.

Lemma mapM_result_bind_fmap {A B C} (f : A → result B) (g : B → C)
    (l : list A) (k : list B) :
  mapM f l = Ok k → mapM (λ x, i ← f x; Ok (g i)) l = Ok (g <$> k).
Proof.
  revert k. induction l as [|x l IH]; intros k Hk; cbn in *.
  { by injection Hk as <-. }
  destruct (f x) as [y|e]; [|done]. cbn in *.
  destruct (mapM f l) as [k'|e]; [|done]. cbn in *. injection Hk as <-.
  by rewrite (IH k' eq_refl).
Qed.

Lemma fmap_seq_lookup {A B} (G : nat → B) (H : A → B) (l : list A) :
  (∀ a r, l !! a = Some r → G a = H r) → G <$> seq 0 (length l) = H <$> l.
Proof.
  intros HGH. apply list_eq. intros a. rewrite !list_lookup_fmap.
  destruct (l !! a) as [r|] eqn:E; cbn.
  - rewrite lookup_seq_lt by by eapply lookup_lt_Some. cbn. f_equal. by apply HGH.
  - rewrite lookup_seq_ge; [done|]. by apply lookup_ge_None.
Qed.

Lemma zip_snd_elem {A B} (l : list A) (k : list B) (p : A * B) :
  p ∈ zip l k → p.2 ∈ k.
Proof.
  revert k. induction l as [|a l IH]; intros [|b k] Hp; cbn in Hp;
    try by apply elem_of_nil in Hp.
  apply elem_of_cons in Hp as [->|Hp]; [left | right; by apply IH].
Qed.

Lemma np_stack_T_ok (nrows : nat) (columns : list (list Q)) :
  columns ≠ [] →
  np_stack_T nrows columns
  = Ok ((λ i, (λ col, default 0%Q (col !! i)) <$> columns) <$> seq 0 nrows).
Proof. by destruct columns. Qed.

(** What [load_results] computes, on tables with numeric class columns. *)
Lemma load_results_run (T : Table) :
  NoDup (colnames T) → well_formed T →
  "probabilities" ∉ colnames T →
  (∀ r c, r ∈ rows T → c ∈ class_cells (colnames T) r → is_Some (cell_number c)) →
  let classes := filter (λ c, c ∉ meta_columns) (colnames T) in
  (classes = [] →
   load_results T = Some (Raise (ValueError "need at least one array to stack"))) ∧
  (classes ≠ [] →
   load_results T
   = Some (Ok {| colnames := filter (λ c, c ∈ meta_columns) (colnames T)
                             ++ ["probabilities"];
                 rows := (λ r, meta_cells (colnames T) r
                               ++ [Array (number_of <$> class_cells (colnames T) r)])
                         <$> rows T |})).
Proof.
  intros Hnd Hwf Hp Hnum classes. unfold load_results.
  assert (Hretyped :
    (if decide ("type" ∈ colnames T)
     then col ← get_column "type" T; set_column "type" col T else Ok T) = Ok T).
  { destruct (decide ("type" ∈ colnames T)) as [Hin|]; [|done].
    destruct (column_index_present _ _ Hin) as [i Hi].
    rewrite (get_column_rows _ _ _ Hi). cbn [mbind result_bind].
    by apply set_column_same. }
  rewrite Hretyped. fold classes.
  destruct (select_columns_filter (λ c, c ∉ meta_columns) T Hnd Hwf) as [Hidx _].
  fold classes in Hidx.
  set (cidx := positions (λ c, c ∉ meta_columns) 0 (colnames T)) in *.
  assert (Hcols : mapM (λ sntype, get_column sntype T) classes
                  = Ok ((λ i, cell_at i <$> rows T) <$> cidx)).
  { exact (mapM_result_bind_fmap _ (λ i, cell_at i <$> rows T) _ _ Hidx). }
  rewrite Hcols.
  assert (Hcells : ∀ r, r ∈ rows T →
            (λ i, cell_at i r) <$> cidx = class_cells (colnames T) r).
  { intros r Hr. pose proof Hwf as Hwf'. unfold well_formed in Hwf'.
    rewrite Forall_forall in Hwf'.
    exact (positions_cells (λ c, c ∉ meta_columns) (colnames T) [] r (Hwf' r Hr)). }
  assert (Hnumbers :
    mapM (mapM cell_number) ((λ i, cell_at i <$> rows T) <$> cidx)
    = Some ((λ i, (λ r, number_of (cell_at i r)) <$> rows T) <$> cidx)).
  { apply mapM_Some_2, Forall2_fmap, Forall_Forall2_diag, Forall_forall.
    intros i Hi. apply mapM_Some_2, Forall2_fmap, Forall_Forall2_diag, Forall_forall.
    intros r Hr. unfold number_of.
    destruct (Hnum r (cell_at i r) Hr) as [q ->]; [|done].
    rewrite <- (Hcells r Hr). apply list_elem_of_fmap. by exists i. }
  rewrite Hnumbers. cbn [mbind option_bind].
  assert (Hlen : length cidx = length classes).
  { apply mapM_result_length in Hidx. done. }
  split.
  - intros Hnil. rewrite Hnil in Hlen.
    apply length_zero_iff_nil in Hlen. by rewrite Hlen.
  - intros Hne.
    assert (Hcne : cidx ≠ []).
    { intros Hnil. rewrite Hnil in Hlen. destruct classes; done. }
    f_equal. rewrite np_stack_T_ok by by intros ?%fmap_nil_inv.
    cbn [mbind result_bind].
    rewrite (fmap_seq_lookup _
               (λ r, number_of <$> class_cells (colnames T) r) (rows T)).
    2:{ intros a r Ha. rewrite <- (Hcells r (list_elem_of_lookup_2 _ _ _ Ha)).
        rewrite <- !list_fmap_compose. apply list_fmap_ext. intros j i _. cbn.
        by rewrite list_lookup_fmap, Ha. }
    rewrite set_column_append.
    2:{ intros Hnil. unfold classes in Hne. by rewrite Hnil in Hne. }
    2:{ done. }
    2:{ by rewrite !length_fmap. }
    cbn [mbind result_bind]. unfold remove_columns. cbn [colnames rows].
    destruct (mapM_result
                (λ n, column_index n
                   {| colnames := colnames T ++ ["probabilities"];
                      rows := zip_with (λ r v, r ++ [v]) (rows T)
                                (Array <$> ((λ r, number_of <$> class_cells (colnames T) r)
                                            <$> rows T)) |}) classes)
      as (k & -> & _).
    { intros n [_ Hn]%list_elem_of_filter.
      destruct (column_index_present n
                  {| colnames := colnames T ++ ["probabilities"];
                     rows := zip_with (λ r v, r ++ [v]) (rows T)
                               (Array <$> ((λ r, number_of <$> class_cells (colnames T) r)
                                           <$> rows T)) |}) as [i ->]; [|done].
      cbn. apply elem_of_app. by left. }
    cbn [mbind result_bind]. f_equal.
    assert (Hiff : ∀ c, c ∈ colnames T → c ∉ classes ↔ c ∈ meta_columns).
    { intros c Hc. unfold classes. rewrite list_elem_of_filter. split.
      - intros Hn. destruct (decide (c ∈ meta_columns)); [done|]. by destruct Hn.
      - intros Hm [Hn _]. done. }
    f_equal.
    + rewrite filter_app. f_equal.
      * apply filter_ext_in. intros c Hc. by apply Hiff.
      * rewrite filter_cons_True; [done|].
        intros [_ Hin]%list_elem_of_filter. done.
    + rewrite !zip_with_fmap_r, zip_with_diag, <- list_fmap_compose.
      apply Forall_fmap_ext. eapply Forall_impl; [exact Hwf|]. intros r Hr. cbn.
      rewrite zip_with_app by done. rewrite filter_app, fmap_app. f_equal.
      * unfold meta_cells. f_equal. apply filter_ext_in.
        intros p Hin. apply Hiff. by eapply zip_snd_elem.
      * cbn [zip_with]. rewrite filter_cons_True; [done|]. cbn.
        intros [_ Hin]%list_elem_of_filter. done.
Qed.

Lemma filter_zip_length {A B} (P : B → Prop) `{!∀ b, Decision (P b)}
    (l : list A) (k : list B) :
  length l = length k →
  length (filter (λ p, P p.2) (zip l k)) = length (filter P k).
Proof.
  revert k. induction l as [|a l IH]; intros [|b k] Hlen; try done.
  cbn [zip_with]. rewrite !filter_cons. cbn [snd]. injection Hlen as Hlen.
  destruct (decide (P b)); cbn [length]; by rewrite IH.
Qed.

Lemma filter_zip_all {A B} (P : B → Prop) `{!∀ b, Decision (P b)}
    (l : list A) (k : list B) :
  length l = length k → (∀ b, b ∈ k → P b) →
  fst <$> filter (λ p, P p.2) (zip l k) = l.
Proof.
  intros Hlen HP. rewrite filter_all.
  - by apply fst_zip; lia.
  - intros p Hp. apply HP. by eapply zip_snd_elem.
Qed.

Lemma filter_zip_none {A B} (P : B → Prop) `{!∀ b, Decision (P b)}
    (l : list A) (k : list B) :
  (∀ b, b ∈ k → ¬ P b) → filter (λ p, P p.2) (zip l k) = [].
Proof.
  intros HP. apply filter_none. intros p Hp. apply HP. by eapply zip_snd_elem.
Qed.

(** X17: [write_results] on a table with its metadata and probabilities, for
    class names that are distinct and are not names of metadata columns:
    the table written has the metadata columns of the input, in their
    order, followed by one column per class; row by row it holds the
    metadata and the first probabilities, as many as there are class names
    (further probabilities are left out).  ['MWEBV'] and ['redshift'] are
    written with four decimals, the classes with three. *)
Theorem write_results_table (t : Table) (classes : list string) (pi : nat) :
  NoDup (colnames t) → well_formed t →
  "MWEBV" ∈ meta_columns → "MWEBV" ∈ colnames t →
  "redshift" ∈ meta_columns → "redshift" ∈ colnames t →
  column_index "probabilities" t = Ok pi →
  NoDup classes → (∀ c, c ∈ classes → c ∉ meta_columns) →
  (∀ r, r ∈ rows t → length classes ≤ length (cell_array (cell_at pi r))) →
  ∃ formats,
    write_results t classes
    = Ok ({| colnames := filter (λ c, c ∈ meta_columns) (colnames t) ++ classes;
             rows := (λ r, meta_cells (colnames t) r
                           ++ (float_cell <$> take (length classes)
                                 (cell_array (cell_at pi r))))
                     <$> rows t |},
          formats) ∧
    formats !! "MWEBV" = Some "%.4f" ∧
    formats !! "redshift" = Some "%.4f" ∧
    (∀ c, c ∈ classes → formats !! c = Some "%.3f").
Proof. apply write_results_run. Qed.

(** X18: How [write_results] fails.  It raises [KeyError] when the table has no
    metadata column ['MWEBV'], or has it but no metadata column
    ['redshift'], whatever the classes; with both, and at least one class,
    when it has no ['probabilities'].  It raises [IndexError] when there are
    more class names than probabilities: at class number [k], when some
    row has only [k] probabilities. *)
Theorem write_results_errors (t : Table) (classes : list string) :
  NoDup (colnames t) → well_formed t →
  let metadata_column name := name ∈ meta_columns ∧ name ∈ colnames t in
  (¬ metadata_column "MWEBV" →
   write_results t classes = Raise (KeyError "MWEBV")) ∧
  (metadata_column "MWEBV" → ¬ metadata_column "redshift" →
   write_results t classes = Raise (KeyError "redshift")) ∧
  (metadata_column "MWEBV" → metadata_column "redshift" →
   classes ≠ [] → "probabilities" ∉ colnames t →
   write_results t classes = Raise (KeyError "probabilities")) ∧
  (metadata_column "MWEBV" → metadata_column "redshift" →
   ∀ pi k c,
     column_index "probabilities" t = Ok pi →
     classes !! k = Some c →
     NoDup (take k classes) → (∀ c, c ∈ take k classes → c ∉ meta_columns) →
     (∀ r, r ∈ rows t → k ≤ length (cell_array (cell_at pi r))) →
     (∃ r, r ∈ rows t ∧ length (cell_array (cell_at pi r)) = k) →
     write_results t classes = Raise IndexError).
Proof.
  intros Hnd Hwf metadata_column.
  destruct (select_columns_filter (λ c, c ∈ meta_columns) t Hnd Hwf) as [_ Hsel].
  set (metas := filter (λ c, c ∈ meta_columns) (colnames t)) in *.
  set (out0 := {| colnames := metas;
                  rows := (λ r, (filter (λ p, p.2 ∈ meta_columns)
                                   (zip r (colnames t))).*1) <$> rows t |}) in *.
  assert (Hmeta : ∀ name, metadata_column name ↔ name ∈ metas).
  { intros name. unfold metadata_column, metas. rewrite list_elem_of_filter. tauto. }
  assert (Hin : ∀ name, metadata_column name → ∃ i, column_index name out0 = Ok i).
  { intros name Hname%Hmeta. by apply column_index_present. }
  assert (Hout : ∀ name, ¬ metadata_column name →
            column_index name out0 = Raise (KeyError name)).
  { intros name Hname. apply column_index_missing. unfold out0. cbn [colnames].
    by rewrite <- Hmeta. }
  unfold write_results. fold metas. rewrite Hsel. cbn [mbind result_bind].
  split; [|split; [|split]].
  - intros HM. by rewrite (Hout _ HM).
  - intros HM HR. destruct (Hin _ HM) as [i ->]. cbn [mbind result_bind].
    by rewrite (Hout _ HR).
  - intros HM HR Hcls Hp. destruct (Hin _ HM) as [i ->], (Hin _ HR) as [j ->].
    cbn [mbind result_bind]. destruct classes as [|c cs]; [done|].
    cbn [imap foldl]. unfold write_class_column at 2. cbn [mbind result_bind].
    unfold get_column. rewrite (column_index_missing _ _ Hp).
    apply write_class_column_raise.
  - intros HM HR pi k c Hpi Hk Hcls Hfresh Hwide Hnarrow.
    destruct (Hin _ HM) as [i ->], (Hin _ HR) as [j ->].
    cbn [mbind result_bind].
    rewrite <- (take_drop_middle _ _ _ Hk), imap_app. cbn [imap].
    rewrite foldl_app. cbn [foldl].
    assert (Hklen : length (take k classes) = k).
    { rewrite length_take. apply lookup_lt_Some in Hk. lia. }
    rewrite (write_class_columns t pi); try done.
    + unfold write_class_column at 2. cbn [mbind result_bind fst snd].
      rewrite (get_column_rows _ _ _ Hpi). cbn [mbind result_bind].
      rewrite Hklen, Nat.add_0_r.
      rewrite (mapM_result_raise _ _ IndexError).
      * apply write_class_column_raise.
      * intros p _. unfold np_index.
        destruct (cell_array p !! k); [by left | by right].
      * destruct Hnarrow as (r & Hr & Hw). exists (cell_at pi r). split.
        -- apply list_elem_of_fmap. by exists r.
        -- unfold np_index. rewrite lookup_ge_None_2; [done | lia].
    + unfold out0. cbn [colnames]. intros Hnil.
      apply Hmeta in HM. rewrite Hnil in HM. by apply elem_of_nil in HM.
    + unfold out0. cbn [rows]. by rewrite length_fmap.
    + unfold out0. cbn [colnames]. intros c' Hc' [Hm _]%list_elem_of_filter.
      by apply (Hfresh c').
    + intros r Hr. rewrite Hklen. by apply Hwide.
Qed.

(** X19: [load_results] on the table read from a file of results whose columns
    other than the metadata columns hold numbers (and none of which is
    called ['probabilities']): those columns, in their order, are taken to
    be the classes; every row keeps its metadata and gets, as
    ['probabilities'], the vector of its numbers in those columns; the
    class columns themselves are removed.  Without any such column
    [np.stack] raises [ValueError]. *)
Theorem load_results_table (T : Table) :
  NoDup (colnames T) → well_formed T →
  "probabilities" ∉ colnames T →
  (∀ r c, r ∈ rows T → c ∈ class_cells (colnames T) r → is_Some (cell_number c)) →
  let classes := filter (λ c, c ∉ meta_columns) (colnames T) in
  (classes = [] →
   load_results T = Some (Raise (ValueError "need at least one array to stack"))) ∧
  (classes ≠ [] →
   load_results T
   = Some (Ok {| colnames := filter (λ c, c ∈ meta_columns) (colnames T)
                             ++ ["probabilities"];
                 rows := (λ r, meta_cells (colnames T) r
                               ++ [Array (number_of <$> class_cells (colnames T) r)])
                         <$> rows T |})).
Proof. apply load_results_run. Qed.

(** X20: The two functions undo each other on the tables themselves: when
    [load_results] is given the table that [write_results] builds (the
    numbers as they are stored, before they are printed with three
    decimals), it returns the metadata columns of the original table and,
    as ['probabilities'], the probabilities that were written, as many as
    there were class names, each as a reduced fraction. *)
Theorem load_results_of_written_table (t : Table) (classes : list string)
    (pi : nat) :
  NoDup (colnames t) → well_formed t →
  "MWEBV" ∈ meta_columns → "MWEBV" ∈ colnames t →
  "redshift" ∈ meta_columns → "redshift" ∈ colnames t →
  column_index "probabilities" t = Ok pi →
  "probabilities" ∉ meta_columns →
  NoDup classes → classes ≠ [] → "probabilities" ∉ classes →
  (∀ c, c ∈ classes → c ∉ meta_columns) →
  (∀ r, r ∈ rows t → length classes ≤ length (cell_array (cell_at pi r))) →
  ∃ out formats,
    write_results t classes = Ok (out, formats) ∧
    load_results out
    = Some (Ok {| colnames := filter (λ c, c ∈ meta_columns) (colnames t)
                              ++ ["probabilities"];
                  rows := (λ r, meta_cells (colnames t) r
                                ++ [Array (Qred <$> take (length classes)
                                             (cell_array (cell_at pi r)))])
                          <$> rows t |}).
Proof.
  intros Hnd Hwf HM1 HM2 HR1 HR2 Hpi Hpm Hcls Hne Hpc Hfresh Hwide.
  destruct (write_results_run t classes pi) as (formats & Hrun & _); try done.
  eexists _, formats. split; [exact Hrun|].
  set (metas := filter (λ c, c ∈ meta_columns) (colnames t)) in *.
  set (written := λ r : list cell,
         meta_cells (colnames t) r
         ++ (float_cell <$> take (length classes) (cell_array (cell_at pi r)))).
  set (out := {| colnames := metas ++ classes; rows := written <$> rows t |}).
  assert (Hmetas : ∀ c, c ∈ metas → c ∈ meta_columns).
  { by intros c [? _]%list_elem_of_filter. }
  assert (Hmlen : ∀ r, r ∈ rows t → length (meta_cells (colnames t) r) = length metas).
  { intros r Hr. unfold meta_cells. rewrite length_fmap. unfold metas.
    unfold well_formed in Hwf. rewrite Forall_forall in Hwf.
    exact (filter_zip_length (λ c : string, c ∈ meta_columns) r (colnames t)
             (Hwf r Hr)). }
  assert (Hflen : ∀ r, r ∈ rows t →
            length (float_cell <$> take (length classes) (cell_array (cell_at pi r)))
            = length classes).
  { intros r Hr. rewrite length_fmap, length_take. specialize (Hwide r Hr). lia. }
  assert (Hclass : ∀ r, r ∈ rows t →
            class_cells (colnames out) (written r)
            = float_cell <$> take (length classes) (cell_array (cell_at pi r))).
  { intros r Hr. unfold class_cells, written. cbn [colnames out].
    rewrite zip_with_app by by apply Hmlen.
    rewrite filter_app, fmap_app.
    assert (H1 : filter (λ p : cell * string, p.2 ∉ meta_columns)
                   (zip (meta_cells (colnames t) r) metas) = []).
    { refine (filter_zip_none (λ c : string, c ∉ meta_columns) _ metas _).
      intros c Hc Hn. by apply Hn, Hmetas. }
    rewrite H1. cbn [fmap list_fmap app].
    exact (filter_zip_all (λ c : string, c ∉ meta_columns) _ classes
             (Hflen r Hr) Hfresh). }
  assert (Hmeta : ∀ r, r ∈ rows t →
            meta_cells (colnames out) (written r) = meta_cells (colnames t) r).
  { intros r Hr. unfold written. unfold meta_cells at 1. cbn [colnames out].
    rewrite zip_with_app by by apply Hmlen.
    rewrite filter_app, fmap_app.
    assert (H1 : filter (λ p : cell * string, p.2 ∈ meta_columns)
                   (zip (float_cell <$> take (length classes)
                           (cell_array (cell_at pi r))) classes) = []).
    { refine (filter_zip_none (λ c : string, c ∈ meta_columns) _ classes _).
      intros c Hc Hn. by apply (Hfresh c). }
    rewrite H1. cbn [fmap list_fmap]. rewrite app_nil_r.
    exact (filter_zip_all (λ c : string, c ∈ meta_columns) _ metas
             (Hmlen r Hr) Hmetas). }
  destruct (load_results_run out) as [_ Hload].
  - cbn [colnames out]. apply NoDup_app. split; [by apply NoDup_filter|].
    split; [|done]. intros c Hc Hc'. by apply (Hfresh c), Hmetas.
  - unfold well_formed. cbn [colnames rows out].
    apply Forall_fmap, Forall_forall. intros r Hr. cbn. unfold written.
    by rewrite !length_app, Hmlen, Hflen.
  - cbn [colnames out]. intros [Hin|Hin]%elem_of_app; [|done].
    by apply Hpm, Hmetas.
  - cbn [rows out]. intros r' c (r & -> & Hr)%list_elem_of_fmap Hc.
    rewrite (Hclass r Hr) in Hc. by apply list_elem_of_fmap in Hc as (q & -> & _).
  - rewrite Hload.
    + cbn [colnames rows out]. do 2 f_equal. f_equal.
      * f_equal. rewrite filter_app, (filter_none _ classes).
        -- rewrite app_nil_r. apply filter_all. exact Hmetas.
        -- intros c Hc. by apply Hfresh.
      * rewrite <- list_fmap_compose. apply Forall_fmap_ext, Forall_forall.
        intros r Hr. cbn.
        change (metas ++ classes) with (colnames out).
        rewrite (Hmeta r Hr), (Hclass r Hr). do 3 f_equal.
        rewrite <- list_fmap_compose. by apply list_fmap_ext.
    + cbn [colnames out]. rewrite filter_app, (filter_all _ classes) by done.
      intros Hnil. apply app_eq_nil in Hnil as [_ Hnil]. done.
Qed.

End ResultFilesFacts.

(** ** Totals of the confusion matrix *)

Lemma sum_indicator {K} `{!EqDecision K} (L : list K) (x : K) :
  NoDup L → x ∈ L →
  foldr Z.add 0%Z ((λ k, if decide (x = k) then 1%Z else 0%Z) <$> L) = 1%Z.
Proof.
  induction 1 as [|k L Hk Hnd IH]; intros Hx; [by apply elem_of_nil in Hx|].
  rewrite fmap_cons. cbn [foldr]. destruct (decide (x = k)) as [->|Hne].
  - assert (Hzero : foldr Z.add 0%Z
              ((λ k0, if decide (k = k0) then 1%Z else 0%Z) <$> L) = 0%Z).
    { clear -Hk. induction L as [|k' L IHL]; [done|].
      apply not_elem_of_cons in Hk as [Hne Hk]. rewrite fmap_cons. cbn [foldr].
      rewrite decide_False by done. by rewrite IHL. }
    rewrite Hzero. lia.
  - apply elem_of_cons in Hx as [?|Hx]; [done|]. rewrite IH by done. lia.
Qed.

Lemma sum_add {K} (f g : K → Z) (L : list K) :
  foldr Z.add 0%Z ((λ k, f k + g k)%Z <$> L)
  = (foldr Z.add 0%Z (f <$> L) + foldr Z.add 0%Z (g <$> L))%Z.
Proof.
  induction L as [|k L IH]; [done|]. rewrite !fmap_cons. cbn [foldr].
  rewrite IH. lia.
Qed.

Lemma sum_of_counts {A K} `{!EqDecision K} (key : A → K) (L : list K)
    (l : list A) :
  NoDup L → (∀ a, a ∈ l → key a ∈ L) →
  foldr Z.add 0%Z ((λ k, Z.of_nat (length (filter (λ a, key a = k) l))) <$> L)
  = Z.of_nat (length l).
Proof.
  intros Hnd. induction l as [|a l IH]; intros Hin.
  { clear. induction L as [|k L IHL]; [done|]. rewrite fmap_cons. cbn [foldr].
    by rewrite IHL. }
  specialize (IH (λ b Hb, Hin b (list_elem_of_further _ _ _ Hb))).
  cbn [length]. rewrite Nat2Z.inj_succ, <- IH. unfold Z.succ.
  rewrite <- (sum_indicator L (key a) Hnd (Hin a (list_elem_of_here _ _))).
  rewrite Z.add_comm, <- sum_add. f_equal.
  apply list_fmap_ext. intros i k _. cbn.
  destruct (decide (key a = k)); cbn [length]; [|reflexivity].
  rewrite Nat2Z.inj_succ. unfold Z.succ. rewrite Z.add_comm. reflexivity.
Qed.

Lemma filter_zip_fst_length {A B} `{!EqDecision A} (x : list A) (y : list B)
    (t : A) :
  length x = length y →
  length (filter (λ s, s.1 = t) (zip x y)) = length (filter (λ a, a = t) x).
Proof.
  revert y. induction x as [|a x IH]; intros [|b y] Hlen; try done.
  cbn [zip_with]. rewrite !filter_cons. cbn [fst]. injection Hlen as Hlen.
  destruct (decide (a = t)); cbn [length]; by rewrite IH.
Qed.

(** X21: The matrix that [make_confusion_matrix] gets from [confusion_matrix]
    counts every row that entered it exactly once: the total of the row of
    a label is the number of rows with that true type, and the totals add up
    to the number of rows. *)
Theorem confusion_matrix_totals (y_true y_pred : list value) :
  length y_true = length y_pred →
  let labels := unique_labels y_true y_pred in
  let totals := sum_axis1 (confusion_matrix y_true y_pred) in
  totals = (λ t, Z.of_nat (count t y_true)) <$> labels ∧
  foldr Z.add 0%Z totals = Z.of_nat (length y_true).
Proof.
  intros Hlen labels totals.
  assert (Hnd : NoDup labels) by apply np_unique_nodup.
  assert (Hcover : ∀ s, s ∈ zip y_true y_pred → s.1 ∈ labels ∧ s.2 ∈ labels).
  { intros [a b] Hs. unfold labels, unique_labels.
    rewrite !np_unique_elem, !elem_of_app. split.
    - left. by eapply elem_of_zip_l.
    - right. by eapply elem_of_zip_r. }
  assert (Htotals : totals = (λ t, Z.of_nat (count t y_true)) <$> labels).
  { unfold totals, sum_axis1, confusion_matrix. fold labels.
    rewrite <- list_fmap_compose. apply list_fmap_ext. intros i t _. cbn.
    set (pairs := zip y_true y_pred).
    transitivity (foldr Z.add 0%Z
      ((λ p, Z.of_nat (length (filter (λ s : value * value, s.2 = p)
                                 (filter (λ s : value * value, s.1 = t) pairs))))
       <$> labels)).
    - f_equal. apply list_fmap_ext. intros j p _. cbn. do 2 f_equal.
      rewrite list_filter_filter. apply filter_ext_in. intros [a b] _. cbn.
      split; [by intros [= -> ->] | by intros [-> ->]].
    - rewrite (sum_of_counts snd labels _ Hnd).
      + unfold count, pairs. by rewrite (filter_zip_fst_length y_true y_pred t Hlen).
      + intros s [_ Hs]%list_elem_of_filter. by apply Hcover. }
  split; [done|]. rewrite Htotals. unfold count.
  rewrite (sum_of_counts id labels y_true Hnd); [done|].
  intros a Ha. unfold labels, unique_labels. rewrite np_unique_elem, elem_of_app.
  by left.
Qed.

(** ** The theorems above at concrete inputs *)



(** [no_rows_no_prediction] applies to a table without rows. *)
Lemma no_rows_no_prediction_witness :
  let t := {| colnames := ["filename"; "type"; "features"]; rows := [] |} in
  tables empty_world !! 0 = Some t ∧
  (rows t = [] ∨ "features" ∉ colnames t) ∧
  classify demo_predict_proba demo_meta_columns demo_fill_value 0 true empty_world
  = (Raise (ValueError "cannot reshape array of size 0 into shape (0,newaxis)"),
     empty_world).
Proof.
  intros t.
  assert (Hl : tables empty_world !! 0 = Some t) by reflexivity.
  assert (Hrows : rows t = [] ∨ "features" ∉ colnames t) by (left; reflexivity).
  split; [exact Hl|]. split; [exact Hrows|].
  exact (proj1 (no_rows_no_prediction (Pipeline := list cell) demo_fit
                  demo_predict_proba demo_meta_columns demo_fill_value
                  empty_world 0 t true Hl Hrows)).
Defined.

Lemma demo_train_nodup : NoDup (colnames demo_train).
Proof. apply (bool_decide_unpack _). vm_compute. exact I. Qed.

Lemma demo_train_no_probabilities : "probabilities" ∉ colnames demo_train.
Proof. apply (bool_decide_unpack _). vm_compute. exact I. Qed.

(** [aggregate_probabilities_needs_probabilities] applies to the training
    table, which has no probabilities yet. *)
Lemma aggregate_probabilities_needs_probabilities_witness :
  NoDup (colnames demo_train) ∧
  ("probabilities" ∉ colnames demo_train) ∧
  aggregate_probabilities demo_meta_columns demo_fill_value demo_train
  = Raise (KeyError "probabilities").
Proof.
  split; [exact demo_train_nodup|]. split; [exact demo_train_no_probabilities|].
  exact (aggregate_probabilities_needs_probabilities demo_meta_columns
           demo_fill_value demo_train demo_train_nodup
           demo_train_no_probabilities).
Defined.

Lemma draws_results_nodup : NoDup (colnames draws_results).
Proof. apply (bool_decide_unpack _). vm_compute. exact I. Qed.

Lemma demo_meta_no_probabilities : "probabilities" ∉ demo_meta_columns.
Proof. apply (bool_decide_unpack _). vm_compute. exact I. Qed.

Lemma draws_results_distributions (r : list cell) :
  r ∈ rows draws_results →
  let p := cell_array (cell_at 2 r) in
  length p = 2 ∧ (Qsum p == 1)%Q ∧ Forall (λ q, (0 <= q)%Q) p.
Proof.
  intros Hr. cbn in Hr.
  repeat (apply elem_of_cons in Hr as [-> | Hr]);
    try (by apply elem_of_nil in Hr);
    (split; [reflexivity|]; split; [reflexivity|];
     repeat constructor; discriminate).
Qed.

(** [aggregate_probabilities_keeps_distributions] applies to three draws of
    two supernovae. *)
Lemma aggregate_probabilities_keeps_distributions_witness :
  NoDup (colnames draws_results) ∧
  column_index "probabilities" draws_results = Ok 2 ∧
  ("probabilities" ∉ demo_meta_columns) ∧
  ∃ out po,
    aggregate_probabilities demo_meta_columns demo_fill_value draws_results = Ok out ∧
    column_index "probabilities" out = Ok po.
Proof.
  split; [exact draws_results_nodup|]. split; [reflexivity|].
  split; [exact demo_meta_no_probabilities|].
  destruct (aggregate_probabilities_keeps_distributions demo_meta_columns
              demo_fill_value draws_results 2 2 draws_results_nodup eq_refl
              demo_meta_no_probabilities draws_results_scalar
              draws_results_distributions)
    as (out & po & Hout & Hpo & _).
  exists out, po. split; [exact Hout | exact Hpo].
Defined.

(** [aggregated_rows_pass_the_mask_filter] applies to the same table. *)
Lemma aggregated_rows_pass_the_mask_filter_witness :
  NoDup (colnames draws_results) ∧
  column_index "probabilities" draws_results = Ok 2 ∧
  ("probabilities" ∉ demo_meta_columns) ∧
  ∃ out,
    aggregate_probabilities demo_meta_columns demo_fill_value draws_results = Ok out ∧
    ∀ r c, r ∈ rows out → c ∈ r → cell_mask c = false.
Proof.
  split; [exact draws_results_nodup|]. split; [reflexivity|].
  split; [exact demo_meta_no_probabilities|].
  destruct (aggregated_rows_pass_the_mask_filter demo_meta_columns
              demo_fill_value draws_results 2 draws_results_nodup eq_refl
              demo_meta_no_probabilities draws_results_scalar)
    as (out & Hout & Hmask & _).
  exists out. split; [exact Hout | exact Hmask].
Defined.

(** [binary_threshold_below_half_keeps_all] applies to two supernovae of
    type Ia and a threshold of one quarter. *)
Lemma binary_threshold_below_half_keeps_all_witness :
  column_index "type" only_SNIa_results = Ok 1 ∧
  column_index "probabilities" only_SNIa_results = Ok 2 ∧
  (1 # 4 < 1 # 2)%Q ∧
  confusion_inputs only_SNIa_results (Some two_classes) (1 # 4) true
    = Ok ([CCSN; SNIa], [SNIa; SNIa], [SNIa; SNIa]) ∧
  length [SNIa; SNIa]
  = length (filter (λ r, cell_mask (cell_at 1 r) = false) (rows only_SNIa_results)).
Proof.
  assert (Hmin : (1 # 4 < 1 # 2)%Q) by reflexivity.
  assert (Hrun : confusion_inputs only_SNIa_results (Some two_classes) (1 # 4) true
                 = Ok ([CCSN; SNIa], [SNIa; SNIa], [SNIa; SNIa]))
    by (vm_compute; reflexivity).
  split; [reflexivity|]. split; [reflexivity|]. split; [exact Hmin|].
  split; [exact Hrun|].
  exact (proj2 (binary_threshold_below_half_keeps_all only_SNIa_results
                  (Some two_classes) (1 # 4) 1 2 _ _ _ eq_refl eq_refl Hmin Hrun)).
Defined.

(** [confusion_inputs_index_errors] applies to the same table with a class
    list that lacks SNIa. *)
Lemma confusion_inputs_index_errors_witness :
  column_index "type" only_SNIa_results = Ok 1 ∧
  column_index "probabilities" only_SNIa_results = Ok 2 ∧
  (SNIa ∉ [VStr "SNII"]) ∧
  confusion_inputs only_SNIa_results (Some [VStr "SNII"]) 0 true = Raise IndexError.
Proof.
  assert (Hno : SNIa ∉ [VStr "SNII"]).
  { intros Hin. apply list_elem_of_singleton in Hin. discriminate Hin. }
  split; [reflexivity|]. split; [reflexivity|]. split; [exact Hno|].
  exact (proj1 (confusion_inputs_index_errors only_SNIa_results
                  (Some [VStr "SNII"]) 0 1 2 eq_refl eq_refl) Hno).
Defined.

(** [normalize_fractions_sum_to_one] applies to a matrix whose second class
    has three true samples. *)
Lemma normalize_fractions_sum_to_one_witness :
  let m := [[0; 0]; [1; 2]]%Z in
  Forall (λ r, length r = 2) m ∧
  Forall (Forall (λ c, (0 ≤ c)%Z)) m ∧
  ∃ qs, normalize m false !! 1 = Some (Finite <$> qs) ∧ (Qsum qs == 1)%Q.
Proof.
  intros m.
  assert (Hrect : Forall (λ r, length r = 2) m) by (repeat constructor).
  assert (Hpos : Forall (Forall (λ c, (0 ≤ c)%Z)) m) by (repeat constructor; lia).
  split; [exact Hrect|]. split; [exact Hpos|].
  destruct (proj1 (normalize_fractions_sum_to_one m 2 Hrect Hpos) 1 [1; 2]%Z eq_refl)
    as (qs & Hrow & _ & Hsum & _); [discriminate|].
  exists qs. split; [exact Hrow | exact Hsum].
Defined.

(** [R_filter_first_failure] applies to the filters g and r with a ratio for
    r supplied by the caller. *)
Lemma R_filter_first_failure_witness :
  let R_filters := Some ({[ "r" := 1%Q ]} : gmap string Q) in
  Forall (λ f, ¬ overridden R_filters f ∧ is_Some (R_FILTERS !! f)) ["g"] ∧
  overridden R_filters "r" ∧
  R_filter ["g"; "r"] R_filters
  = Raise (TypeError "list indices must be integers or slices, not str").
Proof.
  intros R_filters.
  assert (Hpre : Forall (λ f, ¬ overridden R_filters f ∧ is_Some (R_FILTERS !! f)) ["g"]).
  { constructor; [|constructor]. split.
    - intros [x Hx]. vm_compute in Hx. discriminate Hx.
    - eexists. vm_compute. reflexivity. }
  assert (Hr : overridden R_filters "r").
  { eexists. vm_compute. reflexivity. }
  split; [exact Hpre|]. split; [exact Hr|].
  exact (proj1 (R_filter_first_failure ["g"] [] "r" R_filters Hpre) Hr).
Defined.

(** [select_good_events_keeps_finite_events] applies to two events of two
    draws: the first is kept, the second is dropped with both its draws. *)
Lemma select_good_events_keeps_finite_events_witness :
  demo_meta !! "ndraws" = Some (Z.of_nat 2) ∧
  0 < 2 ∧
  length (rows demo_events) = 2 * 2 ∧
  length demo_models = 2 * 2 ∧
  select_good_events demo_meta demo_events demo_models
  = Ok ({| colnames := ["filename"];
           rows := [[Scalar (VStr "sn1") false]; [Scalar (VStr "sn1") false]] |},
        [[[Finite 1; Finite 2]]; [[Finite 2; Finite 3]]]).
Proof.
  assert (Hmeta : demo_meta !! "ndraws" = Some (Z.of_nat 2)) by reflexivity.
  assert (Hn : 0 < 2) by lia.
  split; [exact Hmeta|]. split; [exact Hn|].
  split; [reflexivity|]. split; [reflexivity|].
  exact (proj1 (select_good_events_keeps_finite_events demo_meta demo_events
                  demo_models 2 2 Hmeta Hn eq_refl eq_refl)).
Defined.

Lemma demo_classified_nodup : NoDup (colnames demo_classified).
Proof. apply (bool_decide_unpack _). vm_compute. exact I. Qed.

Lemma demo_classified_well_formed : well_formed demo_classified.
Proof. repeat constructor. Qed.

Lemma demo_classes_nodup : NoDup demo_classes.
Proof. apply (bool_decide_unpack _). vm_compute. exact I. Qed.

Lemma demo_classes_fresh (c : string) : c ∈ demo_classes → c ∉ demo_meta_columns.
Proof.
  intros Hc. unfold demo_classes in Hc.
  repeat (apply elem_of_cons in Hc as [-> | Hc]);
    try (by apply elem_of_nil in Hc);
    apply (bool_decide_unpack _); vm_compute; exact I.
Qed.

Lemma demo_classified_wide (r : list cell) :
  r ∈ rows demo_classified →
  length demo_classes ≤ length (cell_array (cell_at 4 r)).
Proof.
  intros Hr. cbn in Hr.
  repeat (apply elem_of_cons in Hr as [-> | Hr]);
    try (by apply elem_of_nil in Hr); cbn; lia.
Qed.

Lemma demo_in_meta (name : string) :
  bool_decide (name ∈ demo_meta_columns) = true → name ∈ demo_meta_columns.
Proof. apply bool_decide_eq_true_1. Qed.

Lemma demo_in_classified (name : string) :
  bool_decide (name ∈ colnames demo_classified) = true →
  name ∈ colnames demo_classified.
Proof. apply bool_decide_eq_true_1. Qed.

(** [write_results_table] applies to two classified supernovae and two
    classes. *)
Lemma write_results_table_witness :
  NoDup (colnames demo_classified) ∧
  well_formed demo_classified ∧
  column_index "probabilities" demo_classified = Ok 4 ∧
  NoDup demo_classes ∧
  ∃ formats,
    write_results demo_meta_columns demo_classified demo_classes
    = Ok ({| colnames := ["filename"; "redshift"; "MWEBV"; "type"; "SNII"; "SNIa"];
             rows := rows demo_read |}, formats) ∧
    formats !! "SNIa" = Some "%.3f".
Proof.
  split; [exact demo_classified_nodup|].
  split; [exact demo_classified_well_formed|].
  split; [reflexivity|]. split; [exact demo_classes_nodup|].
  destruct (write_results_table demo_meta_columns demo_classified demo_classes 4
              demo_classified_nodup demo_classified_well_formed
              (demo_in_meta "MWEBV" eq_refl) (demo_in_classified "MWEBV" eq_refl)
              (demo_in_meta "redshift" eq_refl)
              (demo_in_classified "redshift" eq_refl)
              eq_refl demo_classes_nodup demo_classes_fresh demo_classified_wide)
    as (formats & Hrun & _ & _ & Hfmt).
  exists formats. split; [exact Hrun|].
  apply Hfmt. right. left.
Defined.

(** [write_results_errors] applies to the training table, which has no
    ['MWEBV']. *)
Lemma write_results_errors_witness :
  NoDup (colnames demo_train) ∧
  well_formed demo_train ∧
  write_results demo_meta_columns demo_train demo_classes = Raise (KeyError "MWEBV").
Proof.
  split; [exact demo_train_nodup|]. split; [exact demo_train_well_formed|].
  apply (proj1 (write_results_errors demo_meta_columns demo_train demo_classes
                  demo_train_nodup demo_train_well_formed)).
  intros [_ Hin]. revert Hin. apply (bool_decide_unpack _). vm_compute. exact I.
Defined.

Lemma demo_read_nodup : NoDup (colnames demo_read).
Proof. apply (bool_decide_unpack _). vm_compute. exact I. Qed.

Lemma demo_read_well_formed : well_formed demo_read.
Proof. repeat constructor. Qed.

Lemma demo_read_no_probabilities : "probabilities" ∉ colnames demo_read.
Proof. apply (bool_decide_unpack _). vm_compute. exact I. Qed.

Lemma demo_read_numeric (r : list cell) (c : cell) :
  r ∈ rows demo_read →
  c ∈ class_cells demo_meta_columns (colnames demo_read) r →
  is_Some (cell_number c).
Proof.
  intros Hr Hc. cbn in Hr.
  repeat (apply elem_of_cons in Hr as [-> | Hr]);
    try (by apply elem_of_nil in Hr);
    vm_compute in Hc;
    repeat (apply elem_of_cons in Hc as [-> | Hc]);
    try (by apply elem_of_nil in Hc);
    by eexists.
Qed.

(** [load_results_table] applies to the table of two supernovae and two
    class columns. *)
Lemma load_results_table_witness :
  NoDup (colnames demo_read) ∧
  well_formed demo_read ∧
  ("probabilities" ∉ colnames demo_read) ∧
  load_results demo_meta_columns demo_read
  = Some (Ok {| colnames := ["filename"; "redshift"; "MWEBV"; "type"; "probabilities"];
                rows := rows demo_classified |}).
Proof.
  split; [exact demo_read_nodup|]. split; [exact demo_read_well_formed|].
  split; [exact demo_read_no_probabilities|].
  apply (proj2 (load_results_table demo_meta_columns demo_read demo_read_nodup
                  demo_read_well_formed demo_read_no_probabilities
                  demo_read_numeric)).
  discriminate.
Defined.

Lemma demo_classes_no_probabilities : "probabilities" ∉ demo_classes.
Proof. apply (bool_decide_unpack _). vm_compute. exact I. Qed.

(** [load_results_of_written_table] applies to the two classified
    supernovae: written and read back, they are the table they were. *)
Lemma load_results_of_written_table_witness :
  NoDup (colnames demo_classified) ∧
  well_formed demo_classified ∧
  column_index "probabilities" demo_classified = Ok 4 ∧
  ("probabilities" ∉ demo_meta_columns) ∧
  NoDup demo_classes ∧
  demo_classes ≠ [] ∧
  ∃ out formats,
    write_results demo_meta_columns demo_classified demo_classes = Ok (out, formats) ∧
    load_results demo_meta_columns out = Some (Ok demo_classified).
Proof.
  split; [exact demo_classified_nodup|].
  split; [exact demo_classified_well_formed|].
  split; [reflexivity|]. split; [exact demo_meta_no_probabilities|].
  split; [exact demo_classes_nodup|]. split; [discriminate|].
  assert (Hne : demo_classes ≠ []) by discriminate.
  exact (load_results_of_written_table demo_meta_columns demo_classified
           demo_classes 4
           demo_classified_nodup demo_classified_well_formed
           (demo_in_meta "MWEBV" eq_refl) (demo_in_classified "MWEBV" eq_refl)
           (demo_in_meta "redshift" eq_refl)
           (demo_in_classified "redshift" eq_refl)
           eq_refl demo_meta_no_probabilities demo_classes_nodup Hne
           demo_classes_no_probabilities demo_classes_fresh demo_classified_wide).
Defined.

(** [confusion_matrix_totals] applies to two supernovae, both predicted to
    be of type Ia. *)
Lemma confusion_matrix_totals_witness :
  length [SNIa; CCSN] = length [SNIa; SNIa] ∧
  foldr Z.add 0%Z (sum_axis1 (confusion_matrix [SNIa; CCSN] [SNIa; SNIa])) = 2%Z.
Proof.
  split; [reflexivity|].
  exact (proj2 (confusion_matrix_totals [SNIa; CCSN] [SNIa; SNIa] eq_refl)).
Defined.



